(** * kitchen-sink-cli: the documentation-site generator

    A shallow embedding of the two programs of the repository, the
    single-level variant ([src/unnamed/part_001]) and the two-level variant
    ([src/unnamed/part_000]), and the proofs of the properties stated in the
    specification.

    Conventions of the embedding.
    - A JavaScript string is a [string] whose characters are the code units
      below 256; white space and line terminators are those of that range.
      The case mapping of the runtime ([toUpperCase], [toLowerCase]) follows
      Unicode and can change the length of a text: it is a capability.
    - A path is the list of its components below the file-system root;
      [path.join p name] is [p ++ [name]] and [path.basename] the last
      component.  Where the program uses the text of a path (the mapping key
      of a directory, a JSON string, the key of an asset) the path is shown
      with the separator of the platform; the configured directories are
      absolute and normalised.
    - Document objects live in a heap and are handled by reference, as in
      JavaScript: [build] writes [children] on the object the mapping holds.
    - An [async] function is a computation in the monad [M] (world passing
      with exceptions: a rejected promise is [Throw]).  [Promise.all] runs
      every branch, in listing order, and rejects when one of them rejected;
      the order in which concurrent branches really interleave is not
      modelled, nor is the watcher of the two-level variant.
    - The log is a trace of events; the layout of the lines is left out.
    - The renderer, the JSON parser, the MIME prober, the image prober, the
      recursive copy of a directory and the case mapping are capabilities the
      programs take from libraries and from the runtime: Section
      variables. *)

From Stdlib Require Import String Ascii List Bool Arith Lia DecimalString.
From Stdlib Require Import FunctionalExtensionality.
From stdpp Require Import base list strings.

Import ListNotations.
Set Warnings "-register-all".
Local Open Scope string_scope.
Local Open Scope list_scope.

(** ** Strings *)

Module Str.

Definition dquote : ascii := ascii_of_nat 34.
Definition backslash : ascii := ascii_of_nat 92.

Fixpoint drop (n : nat) (s : string) : string :=
  match n, s with
  | 0, _ => s
  | S n', String _ s' => drop n' s'
  | S _, EmptyString => EmptyString
  end.

Fixpoint take (n : nat) (s : string) : string :=
  match n, s with
  | 0, _ => EmptyString
  | S n', String c s' => String c (take n' s')
  | S _, EmptyString => EmptyString
  end.

(** [s.slice(a, b)] for 0 <= a <= b. *)
Definition slice (a b : nat) (s : string) : string := take (b - a) (drop a s).

(** [s.startsWith(p)]. *)
Definition startsWith (p s : string) : bool := String.prefix p s.

(** Does [p] occur in [s]? *)
Fixpoint includes (p s : string) : bool :=
  startsWith p s ||
  match s with
  | EmptyString => false
  | String _ s' => includes p s'
  end.

Definition endsWith (p s : string) : bool :=
  Nat.leb (String.length p) (String.length s) &&
  String.eqb (drop (String.length s - String.length p) s) p.

(** [s.replace(pat, rep)] with a string pattern: the first occurrence only. *)
Fixpoint replace_first (pat rep s : string) : string :=
  if startsWith pat s then rep +:+ drop (String.length pat) s
  else match s with
       | EmptyString => EmptyString
       | String c s' => String c (replace_first pat rep s')
       end.

(** [s.replace(/c/g, rep)] for a one-character pattern. *)
Fixpoint replace_all (c : ascii) (rep : string) (s : string) : string :=
  match s with
  | EmptyString => EmptyString
  | String a s' =>
      if Ascii.eqb a c then rep +:+ replace_all c rep s'
      else String a (replace_all c rep s')
  end.

(** [s.split(c)] for a one-character separator: never the empty list. *)
Fixpoint split (c : ascii) (s : string) : list string :=
  match s with
  | EmptyString => [EmptyString]
  | String a s' =>
      if Ascii.eqb a c then EmptyString :: split c s'
      else match split c s' with
           | w :: ws => String a w :: ws
           | [] => [String a EmptyString]
           end
  end.

(** [l.join(sep)]. *)
Definition join (sep : string) (l : list string) : string := String.concat sep l.

(** White space and line terminators, as [trim] sees them. *)
Definition is_space (a : ascii) : bool :=
  let n := nat_of_ascii a in
  (Nat.leb 9 n && Nat.leb n 13) || Nat.eqb n 32 || Nat.eqb n 160.

Fixpoint trim_start (s : string) : string :=
  match s with
  | EmptyString => EmptyString
  | String a s' => if is_space a then trim_start s' else s
  end.

Fixpoint trim_end (s : string) : string :=
  match s with
  | EmptyString => EmptyString
  | String a s' =>
      match trim_end s' with
      | EmptyString => if is_space a then EmptyString else String a EmptyString
      | t => String a t
      end
  end.

Definition trim (s : string) : string := trim_end (trim_start s).

(** The characters the regular expression [.] refuses. *)
Definition is_line_terminator (a : ascii) : bool :=
  let n := nat_of_ascii a in Nat.eqb n 10 || Nat.eqb n 13.

End Str.

(** ** JSON values and [JSON.stringify] *)

(** A number carries the text JavaScript shows it with. *)
Inductive json : Type :=
| JNull
| JBool (b : bool)
| JNum (repr : string)
| JStr (s : string)
| JArr (items : list json)
| JObj (members : list (string * json)).

Module Json.

Definition hex_digit (n : nat) : ascii :=
  if Nat.ltb n 10 then ascii_of_nat (48 + n) else ascii_of_nat (87 + n).

Definition escape_char (a : ascii) : string :=
  let n := nat_of_ascii a in
  if Nat.eqb n 34 then String Str.backslash (String Str.dquote EmptyString)
  else if Nat.eqb n 92 then String Str.backslash (String Str.backslash EmptyString)
  else if Nat.eqb n 8 then "\b"
  else if Nat.eqb n 12 then "\f"
  else if Nat.eqb n 10 then "\n"
  else if Nat.eqb n 13 then "\r"
  else if Nat.eqb n 9 then "\t"
  else if Nat.ltb n 32 then
    "\u00" +:+ String (hex_digit (n / 16)) (String (hex_digit (n mod 16)) EmptyString)
  else String a EmptyString.

Fixpoint escape (s : string) : string :=
  match s with
  | EmptyString => EmptyString
  | String a s' => escape_char a +:+ escape s'
  end.

Definition quote (s : string) : string :=
  String Str.dquote (escape s +:+ String Str.dquote EmptyString).

(** [JSON.stringify(v, null, gap)]: [gap] is the empty string for the
    compact form, [indent] the current indentation. *)
Fixpoint stringify_at (gap indent : string) (v : json) : string :=
  let inner := indent +:+ gap in
  let wrap (opening closing : string) (parts : list string) : string :=
    match parts with
    | [] => opening +:+ closing
    | _ =>
        if String.eqb gap "" then opening +:+ Str.join "," parts +:+ closing
        else opening +:+ String (ascii_of_nat 10) inner
             +:+ Str.join ("," +:+ String (ascii_of_nat 10) inner) parts
             +:+ String (ascii_of_nat 10) indent +:+ closing
    end in
  match v with
  | JNull => "null"
  | JBool true => "true"
  | JBool false => "false"
  | JNum repr => repr
  | JStr s => quote s
  | JArr items => wrap "[" "]" (map (stringify_at gap inner) items)
  | JObj members =>
      wrap "{" "}"
        (map (fun kv : string * json =>
                quote (fst kv) +:+ (if String.eqb gap "" then ":" else ": ")
                +:+ stringify_at gap inner (snd kv)) members)
  end.

Definition stringify (gap : string) (v : json) : string := stringify_at gap "" v.

End Json.

(** ** Paths and the file system *)

Definition Path := list string.

Module Path.

(** [path.basename(p)]. *)
Definition basename (p : Path) : string := List.last p "".

(** [path.basename(name, ext)] on a bare entry name (Node 7.6 and later):
    the extension is cut from the end, and a name equal to the extension
    gives the empty string. *)
Definition stem_of_name (ext name : string) : string :=
  if String.eqb name ext then ""
  else if Str.endsWith ext name
       then Str.take (String.length name - String.length ext) name
       else name.

(** [path.basename(location, ext)] on a path with a directory part: a last
    component equal to the extension is kept whole. *)
Definition stem (ext : string) (p : Path) : string :=
  let name := basename p in
  if String.eqb name ext then name else stem_of_name ext name.

(** The text of an absolute path on a platform whose separator is [sep]. *)
Definition show (sep : string) (p : Path) : string :=
  match p with
  | [] => sep
  | _ => String.concat "" (map (fun c => sep +:+ c) p)
  end.

End Path.

Inductive node : Type :=
| File (text : string)
| Dir (entries : list (string * node)).

Inductive error : Type :=
| ENOENT | ENOTDIR | EISDIR | EEXIST
| EIO (code : string)
| SyntaxError
| TypeError (what : string)
| RangeError.

Inductive result (A : Type) : Type :=
| Ok (a : A)
| Throw (e : error).
Arguments Ok {A} a.
Arguments Throw {A} e.

Module FS.

Fixpoint assoc {A} (k : string) (l : list (string * A)) : option A :=
  match l with
  | [] => None
  | (k', v) :: l' => if String.eqb k k' then Some v else assoc k l'
  end.

(** Replace the value under [k] where it is, or add it at the end. *)
Fixpoint put {A} (k : string) (v : A) (l : list (string * A)) : list (string * A) :=
  match l with
  | [] => [(k, v)]
  | (k', v') :: l' => if String.eqb k k' then (k, v) :: l' else (k', v') :: put k v l'
  end.

Fixpoint find (n : node) (p : Path) : result node :=
  match p with
  | [] => Ok n
  | c :: p' =>
      match n with
      | File _ => Throw ENOTDIR
      | Dir es =>
          match assoc c es with
          | Some n' => find n' p'
          | None => Throw ENOENT
          end
      end
  end.

Definition is_dir (n : node) : bool :=
  match n with Dir _ => true | File _ => false end.

(** [fs.stat(p)] then [isDirectory()]. *)
Definition stat (n : node) (p : Path) : result bool :=
  match find n p with
  | Ok x => Ok (is_dir x)
  | Throw e => Throw e
  end.

Definition readdir (n : node) (p : Path) : result (list string) :=
  match find n p with
  | Ok (Dir es) => Ok (map fst es)
  | Ok (File _) => Throw ENOTDIR
  | Throw e => Throw e
  end.

Definition readFile (n : node) (p : Path) : result string :=
  match find n p with
  | Ok (File t) => Ok t
  | Ok (Dir _) => Throw EISDIR
  | Throw e => Throw e
  end.

(** Change the entry [p] names: [f] sees what is there now. *)
Fixpoint update (f : option node -> result node) (n : node) (p : Path) : result node :=
  match p with
  | [] => f (Some n)
  | c :: p' =>
      match n with
      | File _ => Throw ENOTDIR
      | Dir es =>
          match p', assoc c es with
          | [], None =>
              match f None with
              | Ok x => Ok (Dir (put c x es))
              | Throw e => Throw e
              end
          | _ :: _, None => Throw ENOENT
          | _, Some n' =>
              match update f n' p' with
              | Ok x => Ok (Dir (put c x es))
              | Throw e => Throw e
              end
          end
      end
  end.

(** [fs.mkdir(p)]: the parent must be a directory and [p] must be free. *)
Definition mkdir (n : node) (p : Path) : result node :=
  update (fun old => match old with
                     | None => Ok (Dir [])
                     | Some _ => Throw EEXIST
                     end) n p.

(** [fs.writeFile(p, text)]: the parent must be a directory, and [p] free or
    a file. *)
Definition writeFile (n : node) (p : Path) (text : string) : result node :=
  update (fun old => match old with
                     | Some (Dir _) => Throw EISDIR
                     | _ => Ok (File text)
                     end) n p.

End FS.

(** ** Values, the heap and the world *)

(** What [read] returns for a content file. *)
Record Document : Type := mkDocument {
  doc_id : string;
  doc_title : string;
  doc_about : string;
  doc_content : string
}.

(** A value held by a mapping: a reference to a Document object, or (in the
    two-level variant) a string, the path of a directory. *)
Inductive Val : Type :=
| VObj (l : nat)
| VDir (p : Path).

(** A Document object: [children] is absent until [build] writes it. *)
Record Obj : Type := mkObj {
  doc : Document;
  children : option (list Val)
}.

(** The own properties of a plain object, in insertion order. *)
Definition Mapping := list (string * Val).

Module Object.

(** [o.hasOwnProperty(k)], when [hasOwnProperty] is the inherited one. *)
Definition has {A} (k : string) (o : list (string * A)) : bool :=
  match FS.assoc k o with Some _ => true | None => false end.

(** [o[k] = v] on an object whose prototype is [Object.prototype] or a
    document: the key [__proto__] reaches the inherited setter and creates
    no own property. *)
Definition set {A} (k : string) (v : A) (o : list (string * A)) : list (string * A) :=
  if String.eqb k "__proto__" then o else FS.put k v o.

(** [Object.assign(target, source)]. *)
Definition assign {A} (target source : list (string * A)) : list (string * A) :=
  fold_left (fun t kv => set (fst kv) (snd kv) t) source target.

(** [Object.values(o)], for keys that are not array indices. *)
Definition values {A} (o : list (string * A)) : list A := map snd o.

Definition keys {A} (o : list (string * A)) : list string := map fst o.

End Object.

Inductive message : Type :=
| MReading (location : Path)
| MTraversingContent (location : Path) (n : nat)
| MTraversingModule (location : Path) (n : nat)
| MMissingManifest (location : Path)
| MExcluding (location : Path)
| MMissingChild (lead parent : string)
| MEmitting (target : Path)
| MEmitted (n : nat) (target : Path)
| MMoving
| MProperties (keys : list string) (target : Path).

Inductive event : Type :=
| Info (m : message)
| Warn (m : message)
| Err (e : error)
| Line
| Unhandled (e : error).

Record World : Type := mkWorld {
  heap : list Obj;
  fs : node;
  trace : list event;
  confirm : bool
}.

(** ** The monad of asynchronous computations *)

Definition M (A : Type) : Type := World -> result A * World.

Definition ret {A} (a : A) : M A := fun w => (Ok a, w).

Definition throw {A} (e : error) : M A := fun w => (Throw e, w).

Definition bind {A B} (m : M A) (k : A -> M B) : M B :=
  fun w => match m w with
           | (Ok a, w') => k a w'
           | (Throw e, w') => (Throw e, w')
           end.

Notation "'do' x <- m ; k" := (bind m (fun x => k))
  (at level 10, x pattern, m at level 100, k at level 200).
Notation "m ;; k" := (bind m (fun _ => k))
  (at level 100, k at level 200, right associativity).

(** [try { m } catch (e) { handler(e) }]. *)
Definition try_catch {A} (m : M A) (handler : error -> M A) : M A :=
  fun w => match m w with
           | (Ok a, w') => (Ok a, w')
           | (Throw e, w') => handler e w'
           end.

Definition lift {A} (r : result A) : M A := fun w => (r, w).

Definition logged (e : event) (w : World) : World :=
  mkWorld (heap w) (fs w) (trace w ++ [e]) (confirm w).

Definition emit_event (e : event) : M unit := fun w => (Ok tt, logged e w).

Definition with_fs {A} (f : node -> result A) : M A := fun w => (f (fs w), w).

Definition change_fs (f : node -> result node) : M unit :=
  fun w => match f (fs w) with
           | Ok n => (Ok tt, mkWorld (heap w) n (trace w) (confirm w))
           | Throw e => (Throw e, w)
           end.

(** A fresh object. *)
Definition allocated (o : Obj) (w : World) : World :=
  mkWorld (heap w ++ [o]) (fs w) (trace w) (confirm w).

Definition alloc (o : Obj) : M Val :=
  fun w => (Ok (VObj (length (heap w))), allocated o w).

(** [element.children = cs]: on a string the assignment is dropped (the
    programs are not in strict mode). *)
Definition set_children (element : Val) (cs : list Val) : M unit :=
  fun w => match element with
           | VObj l =>
               (Ok tt,
                mkWorld (alter (fun o => mkObj (doc o) (Some cs)) l (heap w))
                        (fs w) (trace w) (confirm w))
           | VDir _ => (Ok tt, w)
           end.

(** A synchronous [array.map(f)]: the first exception ends it. *)
Definition mapM {A B} (f : A -> M B) : list A -> M (list B) :=
  fix go (l : list A) : M (list B) :=
    match l with
    | [] => ret []
    | x :: l' => do y <- f x; do ys <- go l'; ret (y :: ys)
    end.

(** [Promise.all(ms)]: every branch runs; the result is the list of the
    values, or the rejection of the first branch (in listing order) that
    rejected. *)
Fixpoint promise_all {A} (ms : list (M A)) : M (list A) :=
  fun w =>
    match ms with
    | [] => (Ok [], w)
    | m :: ms' =>
        let (r, w1) := m w in
        let (rs, w2) := promise_all ms' w1 in
        (match r, rs with
         | Throw e, _ => Throw e
         | Ok _, Throw e => Throw e
         | Ok a, Ok l => Ok (a :: l)
         end, w2)
    end.

(** Promises nobody awaits: each runs to its end, a rejection is reported
    and stops nothing else. *)
Fixpoint spawn_all (ms : list (M unit)) : M (list (result unit)) :=
  fun w =>
    match ms with
    | [] => (Ok [], w)
    | m :: ms' =>
        let (r, w1) := m w in
        let w1' := match r with
                   | Ok _ => w1
                   | Throw e => logged (Unhandled e) w1
                   end in
        match spawn_all ms' w1' with
        | (Ok rs, w2) => (Ok (r :: rs), w2)
        | (Throw e, w2) => (Throw e, w2)
        end
    end.

Definition somes {A} (l : list (option A)) : list A :=
  flat_map (fun o => match o with Some a => [a] | None => [] end) l.

(** ** The programs *)

Record Options : Type := mkOptions {
  directory : Path;
  target : Path;
  static : Path;
  exclude_re : string -> bool
}.

(** The default of [exclude], the regular expression [node_modules|^[.]]. *)
Definition default_exclude (name : string) : bool :=
  Str.includes "node_modules" name || Str.startsWith "." name.

Definition default_options (dir : Path) : Options :=
  mkOptions dir (dir ++ ["docs"]) (dir ++ ["static"]) default_exclude.

(** [String(v)] of a parsed JSON value, as a property key or inside a
    template literal. *)
Fixpoint to_key (v : json) : string :=
  match v with
  | JNull => "null"
  | JBool true => "true"
  | JBool false => "false"
  | JNum repr => repr
  | JStr s => s
  | JArr items =>
      Str.join "," (map (fun x => match x with JNull => "" | _ => to_key x end) items)
  | JObj _ => "[object Object]"
  end.

(** The first match of [/<!--TAG:(.*?)-->/]: what follows the opening, up to
    the nearest [-->] on the same line. *)
Fixpoint lazy_payload (s : string) : option string :=
  if Str.startsWith "-->" s then Some ""
  else match s with
       | EmptyString => None
       | String c s' =>
           if Str.is_line_terminator c then None
           else option_map (String c) (lazy_payload s')
       end.

(** [re.exec(s)]: the index of the match and its group 1. *)
Fixpoint exec_directive (opening : string) (s : string) : option (nat * string) :=
  match (if Str.startsWith opening s
         then lazy_payload (Str.drop (String.length opening) s) else None) with
  | Some payload => Some (0, payload)
  | None =>
      match s with
      | EmptyString => None
      | String _ s' =>
          option_map (fun ip : nat * string => (S (fst ip), snd ip))
                     (exec_directive opening s')
      end
  end.

(** The text of the whole match, [m[0]]. *)
Definition matched (opening payload : string) : string :=
  opening +:+ payload +:+ "-->".

(** [markdown.slice(0, index) + markdown.slice(index + m[0].length)]. *)
Definition splice (markdown : string) (index len : nat) : string :=
  Str.take index markdown +:+ Str.drop (index + len) markdown.

(** One directive of [read]: the payload of the first match and the text
    without the match, or the text as it is. *)
Definition extract (opening markdown : string) : option string * string :=
  match exec_directive opening markdown with
  | Some (index, payload) =>
      (Some payload, splice markdown index (String.length (matched opening payload)))
  | None => (None, markdown)
  end.

(** The title of a file that has no TITLE directive; [toUpperCase] is the
    case mapping of the runtime. *)
Definition default_title (toUpperCase : string -> string) (id : string) : string :=
  Str.join " "
    (map (fun word => toUpperCase (Str.slice 0 1 word) +:+ Str.drop 1 word)
         (Str.split " " (Str.replace_all "-" " " id))).

Section Program.

Variable sep : string.
Variable options : Options.
Variable JSON_parse : string -> option json.
Variable md_render : string -> string.
Variable toUpperCase : string -> string.
Variable detectFile : Path -> result string.
Variable sizeOf : Path -> result json.
Variable toLowerCase : string -> string.
Variable copy : node -> Path -> Path -> result node.
Variable inquiry : bool.

Definition info (m : message) : M unit := emit_event (Info m).
Definition warn (m : message) : M unit := emit_event (Warn m).

(** [exclude(location)]. *)
Definition exclude (location : Path) : bool :=
  exclude_re options (Path.basename location).

(** [store.hasOwnProperty(k)]: a mapping that has a key [hasOwnProperty] of
    its own answers the call with a TypeError, its value is no function. *)
Definition hasOwnProperty (store : Mapping) (k : string) : M bool :=
  if Object.has "hasOwnProperty" store
  then throw (TypeError "store.hasOwnProperty is not a function")
  else ret (Object.has k store).

Definition non_null {A} (l : list (option A)) : list A := somes l.

Fixpoint build (store : Mapping) (structure : json) (parent : string) : M (option Val) :=
  match structure with
  | JArr [] => ret None
  | JArr (lead :: rest) =>
      do found <- hasOwnProperty store (to_key lead);
      match found, FS.assoc (to_key lead) store with
      | true, Some element =>
          do built <- mapM (fun block => build store block parent) rest;
          set_children element (non_null built);;
          ret (Some element)
      | _, _ =>
          warn (MMissingChild (to_key lead) parent);;
          ret None
      end
  | _ =>
      do found <- hasOwnProperty store (to_key structure);
      match found, FS.assoc (to_key structure) store with
      | true, Some element =>
          set_children element [];;
          ret (Some element)
      | _, _ =>
          warn (MMissingChild (to_key structure) parent);;
          ret None
      end
  end.

(** The members of a Document object, in the order they were created. *)
Definition doc_members (d : Document) : list (string * json) :=
  [("id", JStr (doc_id d)); ("title", JStr (doc_title d));
   ("about", JStr (doc_about d)); ("content", JStr (doc_content d))].

Definition circular : error := TypeError "Converting circular structure to JSON".

(** The results of the members, in order: the first that is no value
    decides. *)
Fixpoint collect (l : list (option (result json))) : option (result (list json)) :=
  match l with
  | [] => Some (Ok [])
  | Some (Ok j) :: l' =>
      match collect l' with
      | Some (Ok js) => Some (Ok (j :: js))
      | other => other
      end
  | Some (Throw e) :: _ => Some (Throw e)
  | None :: _ => None
  end.

(** The JSON value [JSON.stringify] walks from [v]: [stack] holds the objects
    being serialised, meeting one of them again is the circular-structure
    TypeError.  [None]: out of fuel. *)
Fixpoint to_json (fuel : nat) (h : list Obj) (stack : list nat) (v : Val)
  : option (result json) :=
  match v with
  | VDir p => Some (Ok (JStr (Path.show sep p)))
  | VObj l =>
      match fuel with
      | 0 => None
      | S fuel' =>
          if existsb (Nat.eqb l) stack then Some (Throw circular)
          else match h !! l with
               | None => Some (Throw (TypeError "dangling reference"))
               | Some o =>
                   match children o with
                   | None => Some (Ok (JObj (doc_members (doc o))))
                   | Some cs =>
                       match collect (map (to_json fuel' h (l :: stack)) cs) with
                       | Some (Ok js) =>
                           Some (Ok (JObj (doc_members (doc o) ++ [("children", JArr js)])))
                       | Some (Throw e) => Some (Throw e)
                       | None => None
                       end
                   end
               end
      end
  end.

(** [JSON.stringify(model, null, gap)] for an array of values of the heap.
    The fuel is above the size of the heap and cannot run out (see
    [stringify_model_fuel]). *)
Definition stringify_model (gap : string) (model : list Val) : M string :=
  fun w =>
    match collect (map (to_json (S (length (heap w))) (heap w) []) model) with
    | Some (Ok js) => (Ok (Json.stringify gap (JArr js)), w)
    | Some (Throw e) => (Throw e, w)
    | None => (Throw circular, w)
    end.

(** The Document [read] makes of the text of a file. *)
Definition read_document (location : Path) (markdown : string) : Document :=
  let id := Path.stem ".md" location in
  let title := extract "<!--TITLE:" markdown in
  let about := extract "<!--ABOUT:" (snd title) in
  mkDocument id
             (match fst title with
              | Some payload => payload
              | None => default_title toUpperCase id
              end)
             (match fst about with Some payload => payload | None => "" end)
             (Str.trim (md_render (snd about))).

(** [traverse(location, action)]; [None] is the [false] of a skipped path. *)
Definition traverse {A} (location : Path) (action : Path -> M (option A)) : M (option A) :=
  if exclude location then
    warn (MExcluding location);; ret None
  else
    do is_directory <- with_fs (fun n => FS.stat n location);
    if negb is_directory then ret None
    else action location.

(** [files.indexOf(name)] and [files.splice(index, 1)]. *)
Fixpoint remove_first (name : string) (files : list string) : option (list string) :=
  match files with
  | [] => None
  | f :: files' =>
      if String.eqb f name then Some files'
      else option_map (cons f) (remove_first name files')
  end.

Definition listing (location : Path) : M (list string) :=
  do files <- with_fs (fun n => FS.readdir n location);
  ret (List.filter (fun file => negb (exclude [file])) files).

Section Explore.

(** The Content Resolver of the variant. *)
Variable resolve : Path -> M Mapping.

Definition explore (location : Path) : M (option (Mapping * json)) :=
  do files <- listing location;
  match remove_first "structure.json" files with
  | None => warn (MMissingManifest location);; ret None
  | Some files =>
      do text <- with_fs (fun n => FS.readFile n (location ++ ["structure.json"]));
      do structure <- match JSON_parse text with
                      | Some v => ret v
                      | None => throw SyntaxError
                      end;
      info (MTraversingModule location (length files));;
      do results <- promise_all
           (map (fun file =>
                   do r <- traverse (location ++ [file])
                             (fun l => do m <- resolve l; ret (Some m));
                   ret (file, r)) files);
      ret (Some (fold_left Object.assign (somes (map snd results)) [], structure))
  end.

(** The modules of the root that survive the guard, each with what its
    exploration found. *)
Definition discover : M (list (string * (Mapping * json))) :=
  do modules <- with_fs (fun n => FS.readdir n (directory options));
  do results <- promise_all
       (map (fun module =>
               do r <- traverse (directory options ++ [module]) explore;
               ret (module, r)) modules);
  ret (flat_map (fun mr : string * option (Mapping * json) =>
                   match snd mr with Some c => [(fst mr, c)] | None => [] end) results).

(** The Emitter of the variant. *)
Variable emit : string -> Mapping * json -> M unit.

Definition crawl : M (list (result unit)) :=
  do results <- discover;
  emit_event Line;;
  spawn_all (map (fun mc => emit (fst mc) (snd mc)) results).

End Explore.

(** [contents.structure.map(block => build(...)).filter(child => child !== null)]. *)
Definition build_all (module : string) (contents : Mapping * json) : M (list Val) :=
  match snd contents with
  | JArr blocks =>
      do built <- mapM (fun block => build (fst contents) block module) blocks;
      ret (non_null built)
  | _ => throw (TypeError "contents.structure.map is not a function")
  end.

(** [!!value] for a value a mapping can hold: an object is truthy, a string
    is truthy unless it is empty. *)
Definition truthy (v : Val) : bool :=
  match v with
  | VObj _ => true
  | VDir p => negb (String.eqb (Path.show sep p) "")
  end.

(** *** The single-level variant *)

Definition read001 (location : Path) : M Val :=
  info (MReading location);;
  do markdown <- with_fs (fun n => FS.readFile n location);
  alloc (mkObj (read_document location markdown) None).

Definition resolve001 (location : Path) : M Mapping :=
  do files <- listing location;
  info (MTraversingContent location (length files));;
  do results <- promise_all
       (map (fun file => do r <- read001 (location ++ [file]); ret (file, r)) files);
  ret (fold_left (fun map result =>
                    Object.set (Path.stem_of_name ".md" (fst result)) (snd result) map)
                 (List.filter (fun result => truthy (snd result)) results) []).

(** [mkdir] inside [try]: only the code [EEXIST] is let through. *)
Definition mkdir_unless_exists (p : Path) : M unit :=
  try_catch (change_fs (fun n => FS.mkdir n p))
            (fun e => match e with EEXIST => ret tt | _ => throw e end).

Definition emit001 (module : string) (contents : Mapping * json) : M unit :=
  let target_file := target options ++ [module +:+ ".json"] in
  info (MEmitting target_file);;
  do model <- build_all module contents;
  do result <- stringify_model "  " model;
  mkdir_unless_exists (target options);;
  change_fs (fun n => FS.writeFile n target_file result);;
  info (MEmitted (length model) target_file).

Definition crawl001 : M (list (result unit)) := crawl resolve001 emit001.

Definition run001 : M unit :=
  emit_event Line;;
  if negb inquiry then ret tt
  else crawl001;; ret tt.

(** [run().catch(logger.err)]. *)
Definition main001 : M unit := try_catch run001 (fun e => emit_event (Err e)).

(** *** The two-level variant *)

Definition read000 (location : Path) : M Val :=
  info (MReading location);;
  do is_directory <- with_fs (fun n => FS.stat n location);
  if is_directory then ret (VDir location)
  else
    do markdown <- with_fs (fun n => FS.readFile n location);
    alloc (mkObj (read_document location markdown) None).

(** The key [resolve] gives a directory: [root] is the text of the
    configured directory, [location] the text of the directory found. *)
Definition dir_key (root location : string) : string :=
  let key := Str.replace_first root "" location in
  let key := if Str.startsWith "\" key then Str.drop 1 key else key in
  Str.replace_all Str.backslash "." key.

Definition resolve000 (location : Path) : M Mapping :=
  do files <- listing location;
  info (MTraversingContent location (length files));;
  do results <- promise_all
       (map (fun file => do r <- read000 (location ++ [file]); ret (file, r)) files);
  ret (fold_left (fun map result =>
                    match snd result with
                    | VObj _ =>
                        Object.set (Path.stem_of_name ".md" (fst result)) (snd result) map
                    | VDir p =>
                        Object.set (dir_key (Path.show sep (directory options))
                                            (Path.show sep p))
                                   (snd result) map
                    end)
                 (List.filter (fun result => truthy (snd result)) results) []).

Record Asset : Type := mkAsset {
  asset_key : string;
  asset_type : string;
  asset_size : option json
}.

Definition probe (dir : Path) (asset : string) : M Asset :=
  do type <- match detectFile (dir ++ [asset]) with
             | Ok t => ret t
             | Throw e => emit_event (Err e);; ret ""
             end;
  let key := toLowerCase (Path.basename dir +:+ sep +:+ asset) in
  do size <- (if Str.startsWith "image" type
              then do s <- lift (sizeOf (dir ++ [asset])); ret (Some s)
              else ret None);
  ret (mkAsset key type size).

Definition decimal (n : nat) : string :=
  DecimalString.NilEmpty.string_of_uint (Nat.to_uint n).

(** [numbers.sort()[0]]: the default sort compares the decimal texts. *)
Definition first_sorted (ns : list nat) : option nat :=
  match ns with
  | [] => None
  | n :: ns' =>
      Some (fold_left (fun best m =>
                         if String.ltb (decimal m) (decimal best) then m else best)
                      ns' n)
  end.

(** The line that lists the assets pads each key with
    [' '.repeat(maxLength - key.length)]: a negative count is a RangeError. *)
Definition log_properties (keys : list string) (metaTarget : Path) : M unit :=
  match first_sorted (map String.length keys) with
  | None => ret tt
  | Some shortest =>
      if forallb (fun key => Nat.leb (String.length key) (shortest + 50)) keys
      then info (MProperties keys metaTarget)
      else throw RangeError
  end.

Definition asset_json (a : Asset) : json :=
  JObj ([("key", JStr (asset_key a)); ("type", JStr (asset_type a))]
        ++ match asset_size a with Some s => [("size", s)] | None => [] end).

Definition meta_json (meta : list (string * Asset)) : json :=
  JObj (map (fun ka => (fst ka, asset_json (snd ka))) meta).

(** The raw directories of a mapping, [typeof value === 'string']. *)
Definition raw_directories (mappings : Mapping) : list Path :=
  flat_map (fun v => match v with VDir p => [p] | VObj _ => [] end)
           (Object.values mappings).

(** The table of the assets of the raw directories [move]: each is listed
    and probed, the line of the properties is logged and each is copied
    below [options.static] with [fs.copy]. *)
Definition collect_meta (move : list Path) (metaTarget : Path) : M (list (string * Asset)) :=
  match move with
  | [] => ret []
  | _ =>
      info MMoving;;
      do assetInformation <-
        try_catch
          (do r <- promise_all
                 (map (fun dir =>
                         do assets <- with_fs (fun n => FS.readdir n dir);
                         promise_all (map (probe dir) assets)) move);
           ret (Some r))
          (fun e => emit_event (Err e);; ret None);
      match assetInformation with
      | None => throw (TypeError "assetInformation is undefined")
      | Some information =>
          let meta :=
            fold_left (fun meta assets =>
                         fold_left (fun meta asset => Object.set (asset_key asset) asset meta)
                                   assets meta)
                      information [] in
          log_properties (Object.keys meta) metaTarget;;
          promise_all
            (map (fun dir =>
                    change_fs (fun n => copy n dir (static options ++ [Path.basename dir])))
                 move);;
          ret meta
      end
  end.

Definition emit000 (module : string) (contents : Mapping * json) : M unit :=
  let metaTarget := target options ++ [module +:+ ".meta.json"] in
  let contentTarget := target options ++ [module +:+ ".json"] in
  info (MEmitting contentTarget);;
  do model <- build_all module contents;
  do result <- stringify_model "  " model;
  do meta <- collect_meta (raw_directories (fst contents)) metaTarget;
  promise_all
    [change_fs (fun n => FS.writeFile n contentTarget result);
     change_fs (fun n => FS.writeFile n metaTarget (Json.stringify "" (meta_json meta)))];;
  info (MEmitted (length model) contentTarget).

Definition crawl000 : M (list (result unit)) := crawl resolve000 emit000.

(** [await fs.mkdir(target).catch(error => {})] inside [try]: the handler
    of the promise answers every rejection, the [catch] block of the [try]
    sees none. *)
Definition mkdir_target000 : M unit :=
  try_catch
    (try_catch (change_fs (fun n => FS.mkdir n (target options))) (fun _ => ret tt))
    (fun e => match e with EEXIST => ret tt | _ => throw e end).

Definition set_confirm (b : bool) : M unit :=
  fun w => (Ok tt, mkWorld (heap w) (fs w) (trace w) b).

Definition run000 : M unit :=
  do go <- (fun w =>
              if confirm w then (Ok true, w)
              else (emit_event Line;;
                    if negb inquiry then ret false
                    else set_confirm true;; ret true) w);
  if negb go then ret tt
  else mkdir_target000;; crawl000;; ret tt.

(** [run().catch(logger.err)]; the watcher, which calls this again on a
    change, is not part of the embedding. *)
Definition main000 : M unit := try_catch run000 (fun e => emit_event (Err e)).

End Program.

(** ** Definitions that follow the words of the specification *)

(** Follows the words of the specification: every hyphen becomes a space and
    the first letter of every word is upper-cased, by the case mapping
    [toUpperCase].  [at_start] tells whether the next character begins a
    word; the words are what the spaces separate. *)
Fixpoint capitalize_from (toUpperCase : string -> string) (at_start : bool)
    (s : string) : string :=
  match s with
  | EmptyString => EmptyString
  | String c s' =>
      let c' := if Ascii.eqb c "-" then " "%char else c in
      (if at_start && negb (Ascii.eqb c' " ")
       then toUpperCase (String c' EmptyString)
       else String c' EmptyString)
      +:+ capitalize_from toUpperCase (Ascii.eqb c' " ") s'
  end.

Definition title_of_stem (toUpperCase : string -> string) (id : string) : string :=
  capitalize_from toUpperCase true id.

Definition capitalize (toUpperCase : string -> string) (word : string) : string :=
  toUpperCase (Str.slice 0 1 word) +:+ Str.drop 1 word.

Fixpoint single_line (s : string) : bool :=
  match s with
  | EmptyString => true
  | String c s' => negb (Str.is_line_terminator c) && single_line s'
  end.

(** [s] holds the directive [opening payload -->] between [pre] and [post]. *)
Definition directive_at (opening s pre payload post : string) : Prop :=
  s = pre +:+ matched opening payload +:+ post /\ single_line payload = true.

(** The match of the regular expression: the leftmost, and the shortest
    there. *)
Definition first_directive (opening s pre payload post : string) : Prop :=
  directive_at opening s pre payload post /\
  forall pre' payload' post',
    directive_at opening s pre' payload' post' ->
    String.length pre <= String.length pre' /\
    (String.length pre' = String.length pre ->
     String.length payload <= String.length payload').

(** What [extract] has to do with a text. *)
Definition extracted (opening s : string) (r : option string * string) : Prop :=
  match fst r with
  | Some payload =>
      exists pre post, first_directive opening s pre payload post /\ snd r = pre +:+ post
  | None =>
      snd r = s /\ forall pre payload post, ~ directive_at opening s pre payload post
  end.

(** The match that starts at the first character, if there is one. *)
Definition match_here (opening s : string) : option string :=
  if Str.startsWith opening s
  then lazy_payload (Str.drop (String.length opening) s) else None.


(** ** A sample site *)

Module Sample.

Definition quoted (s : string) : string :=
  String Str.dquote (s +:+ String Str.dquote EmptyString).

(** The manifest of the end-to-end example of the specification. *)
Definition manifest : string :=
  "[" +:+ quoted "intro" +:+ ", [" +:+ quoted "advanced" +:+ ", " +:+ quoted "tips" +:+ "]]".

Definition structure : json := JArr [JStr "intro"; JArr [JStr "advanced"; JStr "tips"]].

(** A parser that knows the sample manifest and refuses every other text. *)
Definition parse (text : string) : option json :=
  if String.eqb text manifest then Some structure else None.

Definition render (markdown : string) : string :=
  "<p>" +:+ markdown +:+ "</p>" +:+ String (ascii_of_nat 10) EmptyString.

Definition detect (p : Path) : result string :=
  if Str.endsWith ".png" (Path.basename p) then Ok "image/png" else Ok "inode/directory".

Definition size (p : Path) : result json :=
  Ok (JObj [("width", JNum "10"); ("height", JNum "20")]).

Definition pages : node :=
  Dir [("intro.md", File "Intro"); ("advanced.md", File "Advanced");
       ("tips.md", File "Tips")].

Definition guide : node := Dir [("structure.json", File manifest); ("pages", pages)].

(** The root [/docs] with the module [guide]. *)
Definition site : node := Dir [("docs", Dir [("guide", guide)])].

(** The same, the content files beside the manifest. *)
Definition flat_site : node :=
  Dir [("docs", Dir [("guide", Dir [("structure.json", File manifest);
                                     ("intro.md", File "Intro");
                                     ("advanced.md", File "Advanced");
                                     ("tips.md", File "Tips")])])].

(** A second module whose manifest is no JSON. *)
Definition broken : node := Dir [("structure.json", File "[intro"); ("pages", pages)].

Definition site_with_broken : node :=
  Dir [("docs", Dir [("broken", broken); ("guide", guide)])].

(** Version-control and package directories at every level, and an asset
    directory that holds one. *)
Definition assets : node := Dir [("logo.png", File "PNG"); (".git", Dir [])].

Definition cluttered_site : node :=
  Dir [("docs",
        Dir [(".git", Dir [("structure.json", File manifest); ("pages", pages)]);
             ("node_modules", Dir [("structure.json", File manifest); ("pages", pages)]);
             ("guide",
              Dir [("structure.json", File manifest);
                   (".git", pages);
                   ("node_modules", pages);
                   ("pages",
                    Dir [("intro.md", File "Intro"); ("advanced.md", File "Advanced");
                         ("tips.md", File "Tips"); (".git", File "x");
                         ("node_modules.md", File "y")])])])].

Definition site_with_assets : node :=
  Dir [("docs",
        Dir [("docs", Dir []);
             ("guide",
              Dir [("structure.json", File manifest);
                   ("pages",
                    Dir [("intro.md", File "Intro"); ("advanced.md", File "Advanced");
                         ("tips.md", File "Tips"); ("img", assets)])])])].

Definition options : Options := default_options ["docs"].

Definition world (n : node) : World := mkWorld [] n [] false.

(** The case mapping of the runtime on the letters a to z and A to Z; the
    examples use no other letter. *)
Definition upper_char (a : ascii) : ascii :=
  let n := nat_of_ascii a in
  if Nat.leb 97 n && Nat.leb n 122 then ascii_of_nat (n - 32) else a.

Definition lower_char (a : ascii) : ascii :=
  let n := nat_of_ascii a in
  if Nat.leb 65 n && Nat.leb n 90 then ascii_of_nat (n + 32) else a.

Fixpoint map_chars (f : ascii -> ascii) (s : string) : string :=
  match s with
  | EmptyString => EmptyString
  | String a s' => String (f a) (map_chars f s')
  end.

Definition upper : string -> string := map_chars upper_char.
Definition lower : string -> string := map_chars lower_char.

(** A renderer that knows what markdown-it makes of the text of the example
    of the specification. *)
Definition emphasis (markdown : string) : string :=
  if String.eqb markdown "Hello *world*"
  then "<p>Hello <em>world</em></p>" +:+ String (ascii_of_nat 10) EmptyString
  else render markdown.

(** Put the tree [x] at [p], making the directories that are missing on
    the way. *)
Fixpoint place (x : node) (n : node) (p : Path) : result node :=
  match p with
  | [] => Ok x
  | c :: p' =>
      match n with
      | File _ => Throw ENOTDIR
      | Dir es =>
          match place x (match FS.assoc c es with
                         | Some n' => n'
                         | None => Dir []
                         end) p' with
          | Ok y => Ok (Dir (FS.put c y es))
          | Throw e => Throw e
          end
      end
  end.

(** A recursive copy for the examples: the tree at [src] is put at [dst]. *)
Definition copy (n : node) (src dst : Path) : result node :=
  match FS.find n src with
  | Ok x => place x n dst
  | Throw e => Throw e
  end.

End Sample.

(** The heap and the mapping of the sample module once it is explored. *)
Module SampleModule.

Definition document (id title : string) : Obj :=
  mkObj (mkDocument id title "" ("<p>" +:+ title +:+ "</p>")) None.

Definition heap3 : list Obj :=
  [document "intro" "Intro"; document "advanced" "Advanced"; document "tips" "Tips"].

Definition mappings : Mapping :=
  [("intro", VObj 0); ("advanced", VObj 1); ("tips", VObj 2)].

Definition contents : Mapping * json := (mappings, Sample.structure).

(** The output directory exists. *)
Definition world : World :=
  mkWorld heap3 (Dir [("docs", Dir [("docs", Dir [])])]) [] true.

End SampleModule.

(** ** The tree the specification describes *)

(** A TreeNode: a Document with its ordered children. *)
Inductive Tree : Type :=
| TNode (d : Document) (kids : list Tree).

(** The JSON value of a TreeNode. *)
Fixpoint tree_json (t : Tree) : json :=
  match t with
  | TNode d kids => JObj (doc_members d ++ [("children", JArr (map tree_json kids))])
  end.

Module SampleSite.

(** The sample site for any three texts. *)
Definition site_of (intro advanced tips : string) : node :=
  Dir [("docs",
        Dir [("guide",
              Dir [("structure.json", File Sample.manifest);
                   ("pages",
                    Dir [("intro.md", File intro); ("advanced.md", File advanced);
                         ("tips.md", File tips)])])])].

Definition page (name : string) : Path := ["docs"; "guide"; "pages"; name].

(** What the programs emit for it: two roots. *)
Definition emitted (md_render toUpperCase : string -> string) (intro advanced tips : string)
  : list Tree :=
  [TNode (read_document md_render toUpperCase (page "intro.md") intro) [];
   TNode (read_document md_render toUpperCase (page "advanced.md") advanced)
         [TNode (read_document md_render toUpperCase (page "tips.md") tips) []]].

(** What the end-to-end example of the specification expects: one root. *)
Definition expected (md_render toUpperCase : string -> string) (intro advanced tips : string)
  : list Tree :=
  [TNode (read_document md_render toUpperCase (page "intro.md") intro)
         [TNode (read_document md_render toUpperCase (page "advanced.md") advanced)
                [TNode (read_document md_render toUpperCase (page "tips.md") tips) []]]].

Definition bundle (forest : list Tree) : string :=
  Json.stringify "  " (JArr (map tree_json forest)).

End SampleSite.

(** ** Computations *)

(** A computation that leaves the file system as it found it, whatever its
    outcome. *)
Definition reads_only {A} (m : M A) : Prop := forall w, fs (snd (m w)) = fs w.

(** ** Exclusion *)

(** What a computation returns, when it returns. *)
Definition returns {A} (m : M A) (Q : A -> Prop) : Prop :=
  forall w a w', m w = (Ok a, w') -> Q a.

(** An entry of a mapping found below [prefix]: the key of a Document is no
    excluded name, and a raw directory lies below [prefix] behind components
    none of which is excluded. *)
Definition clean_entry (prefix : Path) (kv : string * Val) : Prop :=
  match snd kv with
  | VObj _ => default_exclude (fst kv) = false
  | VDir p =>
      exists rel, p = prefix ++ rel /\ Forall (fun c => default_exclude c = false) rel
  end.

(** A discovered module: its name is no excluded name and its mapping is
    clean. *)
Definition clean_module (root : Path) (mc : string * (Mapping * json)) : Prop :=
  default_exclude (fst mc) = false /\ Forall (clean_entry root) (fst (snd mc)).

(** ** The Tree Builder of the specification *)

(** A Structure: a string key, or an array that is empty or begins with a
    string key and goes on with Structures. *)
Fixpoint is_structure (s : json) : bool :=
  match s with
  | JStr _ => true
  | JArr [] => true
  | JArr (JStr _ :: rest) => forallb is_structure rest
  | _ => false
  end.

(** The reference definition: [documents] is the mapping from key to
    document. *)
Fixpoint build_ref (documents : string -> option Document) (s : json) : option Tree :=
  match s with
  | JStr k => option_map (fun d => TNode d []) (documents k)
  | JArr (JStr k :: rest) =>
      option_map (fun d => TNode d (somes (map (build_ref documents) rest)))
                 (documents k)
  | _ => None
  end.

(** The warnings of the reference definition, one for each key that is
    looked up and absent. *)
Fixpoint warnings_ref (documents : string -> option Document) (parent : string)
    (s : json) : list event :=
  match s with
  | JStr k =>
      match documents k with
      | Some _ => []
      | None => [Warn (MMissingChild k parent)]
      end
  | JArr (JStr k :: rest) =>
      match documents k with
      | Some _ => flat_map (warnings_ref documents parent) rest
      | None => [Warn (MMissingChild k parent)]
      end
  | _ => []
  end.

(** The key of the node a Structure describes. *)
Definition head_key (s : json) : string :=
  match s with
  | JArr (lead :: _) => to_key lead
  | _ => to_key s
  end.

(** The documents a mapping holds, read from the heap. *)
Definition documents_of (h : list Obj) (store : Mapping) (k : string) : option Document :=
  match FS.assoc k store with
  | Some (VObj l) => option_map doc (h !! l)
  | _ => None
  end.

Definition ref_of (store : Mapping) (k : string) : list nat :=
  match FS.assoc k store with
  | Some (VObj l) => [l]
  | _ => []
  end.

(** The objects a Structure names, one entry for each occurrence of a key
    the mapping has. *)
Fixpoint refs (store : Mapping) (s : json) : list nat :=
  match s with
  | JArr [] => []
  | JArr (lead :: rest) => ref_of store (to_key lead) ++ flat_map (refs store) rest
  | _ => ref_of store (to_key s)
  end.

(** Every value of the mapping is a Document object of the heap. *)
Definition holds_documents (h : list Obj) (store : Mapping) : bool :=
  forallb (fun kv : string * Val =>
             match snd kv with
             | VObj l => Nat.ltb l (length h)
             | VDir _ => false
             end) store.

Fixpoint tree_height (t : Tree) : nat :=
  match t with
  | TNode _ kids => S (list_max (map tree_height kids))
  end.

(** The heap [h] has the objects of [h0], with the documents of [h0]. *)
Definition same_docs (h0 h : list Obj) : Prop :=
  length h = length h0 /\
  forall l, option_map doc (h !! l) = option_map doc (h0 !! l).

(** Two heaps hold the same objects at the references of [L]. *)
Definition agree (L : list nat) (h1 h2 : list Obj) : Prop :=
  forall l, In l L -> h1 !! l = h2 !! l.

(** The result [r] of [build] denotes the tree of the reference definition:
    it is the value of the mapping under the key of the node, and in every
    heap that holds the objects of the structure as [h] does,
    [JSON.stringify] walks from it the JSON value of that tree. *)
Definition denotes (sep : string) (store : Mapping)
    (documents : string -> option Document) (h : list Obj) (s : json)
    (r : option Val) : Prop :=
  match build_ref documents s, r with
  | None, None => True
  | Some t, Some v =>
      FS.assoc (head_key s) store = Some v /\
      forall h' stack fuel,
        agree (refs store s) h h' ->
        (forall l, In l (refs store s) -> ~ In l stack) ->
        tree_height t <= fuel ->
        to_json sep fuel h' stack v = Some (Ok (tree_json t))
  | _, _ => False
  end.

(** The result [r] of [build] is null exactly when the reference is, and
    otherwise the value the mapping holds under the key of the node. *)
Definition returned (store : Mapping) (documents : string -> option Document)
    (s : json) (r : option Val) : Prop :=
  match build_ref documents s, r with
  | None, None => True
  | Some _, Some v => FS.assoc (head_key s) store = Some v
  | _, _ => False
  end.

(** What [build] does on a structure, from any world whose heap has the
    documents of [h0]. *)
Definition builds (sep : string) (store : Mapping) (parent : string)
    (h0 : list Obj) (s : json) : Prop :=
  is_structure s = true ->
  forall w, same_docs h0 (heap w) ->
  exists r w',
    build store s parent w = (Ok r, w') /\
    trace w' = trace w ++ warnings_ref (documents_of h0 store) parent s /\
    fs w' = fs w /\
    confirm w' = confirm w /\
    same_docs h0 (heap w') /\
    (forall l, ~ In l (refs store s) -> heap w' !! l = heap w !! l) /\
    returned store (documents_of h0 store) s r /\
    (NoDup (refs store s) -> denotes sep store (documents_of h0 store) (heap w') s r).

(** Structures that name a document twice. *)
Module Shared.

(** advanced is a child of intro twice, once as a leaf and once with the
    child tips. *)
Definition twice : json :=
  JArr [JStr "intro"; JStr "advanced"; JArr [JStr "advanced"; JStr "tips"]].

(** intro is a child of itself. *)
Definition itself : json := JArr [JStr "intro"; JStr "intro"].

(** A mapping with a content file named hasOwnProperty.md. *)
Definition shadowed : Mapping := [("hasOwnProperty", VObj 0)].

(** A structure that names each document once, and one that is absent. *)
Definition once : json :=
  JArr [JStr "intro"; JArr [JStr "advanced"; JStr "missing"]; JStr "tips"].

End Shared.

(** ** The text of a relative path *)

(** The components of [rel], each behind a separator. *)
Definition rel_text (sep : string) (rel : Path) : string :=
  String.concat "" (map (fun c => sep +:+ c) rel).

(** The character [c] does not occur in [s]. *)
Fixpoint free_of (c : ascii) (s : string) : bool :=
  match s with
  | EmptyString => true
  | String a s' => negb (Ascii.eqb a c) && free_of c s'
  end.

(** ** What a computation keeps and what it finds *)

(** The computation leaves the observation [f] of the world as it found it,
    whatever its outcome. *)
Definition keeps {A X} (f : World -> X) (m : M A) : Prop :=
  forall w, f (snd (m w)) = f w.

(** What a computation returns when it runs on the file system [F], which
    it leaves as it is when it returns. *)
Definition finds {A} (F : node) (m : M A) (Q : A -> Prop) : Prop :=
  forall w a w', fs w = F -> m w = (Ok a, w') -> fs w' = F /\ Q a.

(** The documents of the heap, in order: what [read] made, without the
    children. *)
Definition documents (w : World) : list Document := map doc (heap w).

(** Neither path is a prefix of the other: they part at some component. *)
Fixpoint diverge (p q : Path) : bool :=
  match p, q with
  | a :: p', b :: q' => if String.eqb a b then diverge p' q' else true
  | _, _ => false
  end.

(** An output directory that cannot be made: its parent is a file. *)
Definition blocked_options : Options :=
  mkOptions ["docs"] ["docs"; "guide"; "structure.json"; "out"] ["docs"; "static"]
            default_exclude.

(** * Properties *)

(** ** The default title *)

Lemma join_cons_char sep a w l :
  Str.join sep (String a w :: l) = String a (Str.join sep (w :: l)).
Proof. destruct l; reflexivity. Qed.

Lemma app_cons (x : ascii) (a b : string) : String x a +:+ b = String x (a +:+ b).
Proof. reflexivity. Qed.

Lemma app_nil_l (b : string) : EmptyString +:+ b = b.
Proof. reflexivity. Qed.

Lemma app_assoc_s (a b c : string) : (a +:+ b) +:+ c = a +:+ (b +:+ c).
Proof.
  induction a as [|x a IH]; [reflexivity|].
  rewrite !app_cons. now f_equal.
Qed.

Lemma join_cons_app sep u w l :
  Str.join sep ((u +:+ w) :: l) = u +:+ Str.join sep (w :: l).
Proof.
  destruct l as [|x l]; [reflexivity|].
  unfold Str.join. cbn [String.concat]. apply app_assoc_s.
Qed.

Section DefaultTitle.

Variable toUpperCase : string -> string.
Hypothesis upper_empty : toUpperCase "" = "".

Lemma capitalize_empty : capitalize toUpperCase "" = "".
Proof.
  change (capitalize toUpperCase "") with (toUpperCase "" +:+ "").
  now rewrite upper_empty.
Qed.

Lemma capitalize_cons (a : ascii) (w : string) :
  capitalize toUpperCase (String a w) = toUpperCase (String a EmptyString) +:+ w.
Proof. reflexivity. Qed.

Lemma capitalize_split (r : string) :
  (forall a, In a (list_ascii_of_string r) -> a <> "-"%char) ->
  match Str.split " " r with
  | [] => False
  | w :: ws =>
      Str.join " " (w :: map (capitalize toUpperCase) ws)
      = capitalize_from toUpperCase false r /\
      Str.join " " (capitalize toUpperCase w :: map (capitalize toUpperCase) ws)
      = capitalize_from toUpperCase true r
  end.
Proof.
  induction r as [|a r IH]; intros Hh; cbn [Str.split capitalize_from].
  - split; [reflexivity|]. rewrite capitalize_empty. reflexivity.
  - assert (Ha : Ascii.eqb a "-" = false).
    { apply Ascii.eqb_neq. apply Hh. simpl. now left. }
    rewrite Ha. cbv zeta.
    assert (IH' := IH (fun b Hb => Hh b (or_intror Hb))). clear IH.
    destruct (Ascii.eqb a " ") eqn:Hsp.
    + apply Ascii.eqb_eq in Hsp. subst a.
      destruct (Str.split " " r) as [|w ws]; [contradiction|].
      destruct IH' as [_ IH2].
      rewrite andb_false_r, app_cons, app_nil_l, <- IH2.
      split; [reflexivity|]. rewrite capitalize_empty. reflexivity.
    + destruct (Str.split " " r) as [|w ws]; [contradiction|].
      destruct IH' as [IH1 _]. cbn [negb andb].
      rewrite app_cons, app_nil_l, <- IH1.
      split; [apply join_cons_char|].
      rewrite capitalize_cons. apply join_cons_app.
Qed.

Lemma replace_hyphens_no_hyphen (id : string) :
  forall a, In a (list_ascii_of_string (Str.replace_all "-" " " id)) -> a <> "-"%char.
Proof.
  induction id as [|c id IH]; intros a Ha; cbn [Str.replace_all] in Ha.
  - destruct Ha.
  - destruct (Ascii.eqb c "-") eqn:Hc.
    + destruct Ha as [<-|Ha]; [discriminate | now apply IH].
    + destruct Ha as [<-|Ha]; [now apply Ascii.eqb_neq | now apply IH].
Qed.

Lemma capitalize_from_replace (b : bool) (id : string) :
  capitalize_from toUpperCase b (Str.replace_all "-" " " id)
  = capitalize_from toUpperCase b id.
Proof.
  revert b. induction id as [|c id IH]; intros b; [reflexivity|].
  cbn [Str.replace_all capitalize_from].
  destruct (Ascii.eqb c "-") eqn:Hc.
  - change (" " +:+ Str.replace_all "-" " " id)
      with (String " " (Str.replace_all "-" " " id)).
    cbn [capitalize_from]. change (Ascii.eqb " " "-") with false.
    cbv iota zeta. now rewrite IH.
  - cbn [capitalize_from]. rewrite Hc. cbv zeta. now rewrite IH.
Qed.

Lemma default_title_words (id : string) :
  default_title toUpperCase id = title_of_stem toUpperCase id.
Proof.
  unfold default_title, title_of_stem.
  rewrite <- capitalize_from_replace.
  pose proof (capitalize_split _ (replace_hyphens_no_hyphen id)) as H.
  destruct (Str.split " " (Str.replace_all "-" " " id)) as [|w ws]; [contradiction|].
  destruct H as [_ H]. exact H.
Qed.

End DefaultTitle.

(** C9. A content file that has no TITLE directive gets as title its stem
    with every hyphen replaced by a space and the first letter of every word
    upper-cased, whatever the case mapping of the runtime does to a letter
    (it leaves the empty text empty); with a case mapping that takes g to G
    and s to S the file getting-started.md gets the title Getting Started. *)
Theorem read_default_title (md_render toUpperCase : string -> string)
    (location : Path) (markdown : string) :
  toUpperCase "" = "" ->
  exec_directive "<!--TITLE:" markdown = None ->
  doc_title (read_document md_render toUpperCase location markdown)
  = title_of_stem toUpperCase (Path.stem ".md" location)
  /\ (Path.basename location = "getting-started.md" ->
      toUpperCase "g" = "G" -> toUpperCase "s" = "S" ->
      doc_title (read_document md_render toUpperCase location markdown)
      = "Getting Started").
Proof.
  intros Hempty Hno.
  assert (Ht : doc_title (read_document md_render toUpperCase location markdown)
               = title_of_stem toUpperCase (Path.stem ".md" location)).
  { unfold read_document, extract. rewrite Hno. cbn [fst doc_title].
    now apply default_title_words. }
  split; [exact Ht|].
  intros Hb Hg Hs. rewrite Ht. unfold Path.stem. rewrite Hb.
  change (Path.stem_of_name ".md" "getting-started.md") with "getting-started".
  change (String.eqb "getting-started.md" ".md") with false. cbv iota.
  unfold title_of_stem. cbn [capitalize_from Ascii.eqb Bool.eqb andb negb].
  rewrite Hg, Hs. reflexivity.
Qed.

Lemma read_default_title_witness :
  Sample.upper "" = "" /\
  exec_directive "<!--TITLE:" "# Start here" = None /\
  doc_title (read_document (fun s => s) Sample.upper
                           ["docs"; "guide"; "pages"; "getting-started.md"]
                           "# Start here") = "Getting Started".
Proof.
  split; [reflexivity|]. split; [reflexivity|].
  apply (read_default_title (fun s => s) Sample.upper
                            ["docs"; "guide"; "pages"; "getting-started.md"]
                            "# Start here"); reflexivity.
Defined.

(** ** Directives *)

Lemma app_inv_head_s (a b c : string) : a +:+ b = a +:+ c -> b = c.
Proof.
  induction a as [|x a IH]; [now rewrite !app_nil_l|].
  rewrite !app_cons. intros [= H]. auto.
Qed.

Lemma startsWith_app (p r : string) : Str.startsWith p (p +:+ r) = true.
Proof.
  unfold Str.startsWith. induction p as [|x p IH].
  - now destruct r.
  - rewrite app_cons. simpl. destruct (ascii_dec x x); [exact IH | contradiction].
Qed.

Lemma startsWith_inv (p s : string) :
  Str.startsWith p s = true -> s = p +:+ Str.drop (String.length p) s.
Proof.
  unfold Str.startsWith. revert s. induction p as [|x p IH]; intros s H.
  - reflexivity.
  - destruct s as [|y s]; simpl in H; [discriminate|].
    destruct (ascii_dec x y) as [->|]; [|discriminate].
    rewrite app_cons. simpl. f_equal. now apply IH.
Qed.

Lemma drop_app (p r : string) : Str.drop (String.length p) (p +:+ r) = r.
Proof. induction p as [|x p IH]; [now destruct r | rewrite app_cons; exact IH]. Qed.

Lemma take_app (p r : string) : Str.take (String.length p) (p +:+ r) = p.
Proof.
  induction p as [|x p IH]; [now destruct r|].
  rewrite app_cons. simpl. now rewrite IH.
Qed.

Lemma drop_add (n m : nat) (s : string) : Str.drop (n + m) s = Str.drop m (Str.drop n s).
Proof.
  revert s. induction n as [|n IH]; intros s; simpl; [reflexivity|].
  destruct s; [now destruct m | apply IH].
Qed.

Lemma splice_app (pre m post : string) :
  splice (pre +:+ m +:+ post) (String.length pre) (String.length m) = pre +:+ post.
Proof.
  unfold splice. rewrite take_app, drop_add, drop_app, drop_app. reflexivity.
Qed.

Lemma length_zero_s (s : string) : String.length s = 0 -> s = EmptyString.
Proof. destruct s; [reflexivity | discriminate]. Qed.

Lemma lazy_payload_Some (s p : string) :
  lazy_payload s = Some p ->
  single_line p = true /\
  (exists post, s = p +:+ "-->" +:+ post) /\
  forall p' post', s = p' +:+ "-->" +:+ post' -> String.length p <= String.length p'.
Proof.
  revert p. induction s as [|c s IH]; intros p; cbn [lazy_payload].
  - change (Str.startsWith "-->" EmptyString) with false. cbv iota. discriminate.
  - destruct (Str.startsWith "-->" (String c s)) eqn:Hp.
    + intros [= <-]. split; [reflexivity|]. split.
      * exists (Str.drop 3 (String c s)). now apply startsWith_inv in Hp.
      * intros; simpl; lia.
    + destruct (Str.is_line_terminator c) eqn:Hc; [discriminate|].
      destruct (lazy_payload s) as [q|] eqn:Hq; [|discriminate].
      intros [= <-]. destruct (IH q eq_refl) as (Hs & [post Hpost] & Hmin).
      split; [simpl; now rewrite Hc|]. split.
      * exists post. rewrite app_cons. now rewrite <- Hpost.
      * intros p' post' Heq. destruct p' as [|c' p'].
        -- rewrite app_nil_l in Heq. rewrite Heq, startsWith_app in Hp.
           discriminate.
        -- rewrite app_cons in Heq. injection Heq as _ Heq.
           apply Hmin in Heq. simpl. lia.
Qed.

Lemma lazy_payload_None (s : string) :
  lazy_payload s = None ->
  forall p post, s = p +:+ "-->" +:+ post -> single_line p = true -> False.
Proof.
  induction s as [|c s IH]; cbn [lazy_payload]; intros H p post Heq Hsl.
  - destruct p; discriminate.
  - destruct (Str.startsWith "-->" (String c s)) eqn:Hp; [discriminate|].
    destruct p as [|c' p].
    + rewrite app_nil_l in Heq. rewrite Heq, startsWith_app in Hp. discriminate.
    + rewrite app_cons in Heq. injection Heq as <- Heq. simpl in Hsl.
      apply andb_prop in Hsl as [Hc Hsl]. apply negb_true_iff in Hc. rewrite Hc in H.
      destruct (lazy_payload s) eqn:Hq; [discriminate|].
      exact (IH eq_refl p post Heq Hsl).
Qed.

Lemma matched_app (o p post : string) :
  matched o p +:+ post = o +:+ (p +:+ "-->" +:+ post).
Proof. unfold matched. now rewrite !app_assoc_s. Qed.

Lemma match_here_Some (o s p : string) :
  match_here o s = Some p ->
  single_line p = true /\
  (exists post, s = matched o p +:+ post) /\
  forall p' post', s = matched o p' +:+ post' -> String.length p <= String.length p'.
Proof.
  unfold match_here. destruct (Str.startsWith o s) eqn:Ho; [|discriminate].
  intros H. apply lazy_payload_Some in H as (Hs & [post Hpost] & Hmin).
  apply startsWith_inv in Ho.
  split; [exact Hs|]. split.
  - exists post. rewrite matched_app, <- Hpost. exact Ho.
  - intros p' post' Heq. apply (Hmin p' post').
    rewrite Heq, matched_app, drop_app. reflexivity.
Qed.

Lemma match_here_None (o s : string) :
  match_here o s = None ->
  forall p post, s = matched o p +:+ post -> single_line p = true -> False.
Proof.
  unfold match_here. intros H p post Heq Hsl.
  rewrite matched_app in Heq.
  rewrite Heq, startsWith_app, drop_app in H.
  exact (lazy_payload_None _ H p post eq_refl Hsl).
Qed.

Lemma exec_directive_eq (o s : string) :
  exec_directive o s =
  match match_here o s with
  | Some payload => Some (0, payload)
  | None =>
      match s with
      | EmptyString => None
      | String _ s' =>
          option_map (fun ip : nat * string => (S (fst ip), snd ip)) (exec_directive o s')
      end
  end.
Proof. destruct s; reflexivity. Qed.

Lemma exec_directive_Some (o s : string) (i : nat) (p : string) :
  exec_directive o s = Some (i, p) ->
  exists pre post, first_directive o s pre p post /\ String.length pre = i.
Proof.
  revert i. induction s as [|c s IH]; intros i; rewrite exec_directive_eq.
  - destruct (match_here o EmptyString) as [q|] eqn:Hq; [|discriminate].
    intros [= <- <-]. apply match_here_Some in Hq as (Hs & [post Hpost] & Hmin).
    exists EmptyString, post. split; [|reflexivity].
    split; [split; [now rewrite app_nil_l | exact Hs]|].
    intros pre' p' post' [Heq _]. split; [simpl; lia|].
    intros Hl. apply length_zero_s in Hl. subst pre'.
    rewrite app_nil_l in Heq. eauto.
  - destruct (match_here o (String c s)) as [q|] eqn:Hq.
    + intros [= <- <-]. apply match_here_Some in Hq as (Hs & [post Hpost] & Hmin).
      exists EmptyString, post. split; [|reflexivity].
      split; [split; [now rewrite app_nil_l | exact Hs]|].
      intros pre' p' post' [Heq _]. split; [simpl; lia|].
      intros Hl. apply length_zero_s in Hl. subst pre'.
      rewrite app_nil_l in Heq. eauto.
    + destruct (exec_directive o s) as [[j q]|] eqn:Hrec; [|discriminate].
      intros [= <- <-]. destruct (IH j eq_refl) as (pre & post & [[Heq Hs] Hmin] & Hl).
      exists (String c pre), post. split; [|simpl; now rewrite Hl].
      split; [split; [rewrite app_cons; now rewrite <- Heq | exact Hs]|].
      intros pre' p' post' [Heq' Hs']. destruct pre' as [|c' pre'].
      * rewrite app_nil_l in Heq'. exfalso.
        exact (match_here_None _ _ Hq p' post' Heq' Hs').
      * rewrite app_cons in Heq'. injection Heq' as _ Heq'.
        destruct (Hmin pre' p' post' (conj Heq' Hs')) as [H1 H2].
        split; [simpl; lia|]. intros Hlen. apply H2. simpl in Hlen. lia.
Qed.

Lemma exec_directive_None (o s : string) :
  exec_directive o s = None ->
  forall pre p post, ~ directive_at o s pre p post.
Proof.
  induction s as [|c s IH]; rewrite exec_directive_eq; intros H pre p post [Heq Hs].
  - destruct (match_here o EmptyString) eqn:Hq; [discriminate|].
    destruct pre; [|discriminate].
    rewrite app_nil_l in Heq. exact (match_here_None _ _ Hq p post Heq Hs).
  - destruct (match_here o (String c s)) eqn:Hq; [discriminate|].
    destruct pre as [|c' pre].
    + rewrite app_nil_l in Heq. exact (match_here_None _ _ Hq p post Heq Hs).
    + rewrite app_cons in Heq. injection Heq as _ Heq.
      destruct (exec_directive o s) eqn:Hrec; [discriminate|].
      exact (IH eq_refl pre p post (conj Heq Hs)).
Qed.

Lemma extract_extracted (o s : string) : extracted o s (extract o s).
Proof.
  unfold extracted, extract.
  destruct (exec_directive o s) as [[i p]|] eqn:He; cbn [fst snd].
  - destruct (exec_directive_Some _ _ _ _ He) as (pre & post & Hf & Hl).
    exists pre, post. split; [exact Hf|].
    destruct Hf as [[Heq _] _]. rewrite Heq at 1. rewrite <- Hl.
    apply splice_app.
  - split; [reflexivity|]. now apply exec_directive_None.
Qed.

Lemma stem_md_app (dir : Path) (name : string) :
  Path.stem ".md" (dir ++ [name]) =
  if String.eqb name ".md" then name else Path.stem_of_name ".md" name.
Proof. unfold Path.stem, Path.basename. now rewrite last_last. Qed.

(** C5. [read] takes the first TITLE directive of the text, and the first
    ABOUT directive of what is left, each the leftmost match and the shortest
    there; it cuts exactly the text of the match out, keeps what stands
    before and after it in order, and renders what is left.  With a renderer
    that makes of [Hello *world*] what markdown-it makes of it, the text
    [<!--TITLE:Custom-->Hello *world*] of my-page.md gets the title Custom
    and the content [<p>Hello <em>world</em></p>]: the emphasis around world
    is there, the directive and its payload are not. *)
Theorem read_extracts_directives (md_render toUpperCase : string -> string)
    (location : Path) (markdown : string) :
  let d := read_document md_render toUpperCase location markdown in
  let title := extract "<!--TITLE:" markdown in
  let about := extract "<!--ABOUT:" (snd title) in
  extracted "<!--TITLE:" markdown title /\
  extracted "<!--ABOUT:" (snd title) about /\
  doc_title d = match fst title with
                | Some payload => payload
                | None => default_title toUpperCase (Path.stem ".md" location)
                end /\
  doc_about d = match fst about with Some payload => payload | None => "" end /\
  doc_content d = Str.trim (md_render (snd about)) /\
  forall dir,
    md_render "Hello *world*"
    = "<p>Hello <em>world</em></p>" +:+ String (ascii_of_nat 10) EmptyString ->
    let page := read_document md_render toUpperCase (dir ++ ["my-page.md"])
                              "<!--TITLE:Custom-->Hello *world*" in
    page = mkDocument "my-page" "Custom" "" "<p>Hello <em>world</em></p>" /\
    Str.includes "<em>world</em>" (doc_content page) = true /\
    Str.includes "<!--TITLE:" (doc_content page) = false /\
    Str.includes "Custom" (doc_content page) = false.
Proof.
  cbv zeta. split; [apply extract_extracted|]. split; [apply extract_extracted|].
  split; [reflexivity|]. split; [reflexivity|]. split; [reflexivity|].
  intros dir Hrender.
  assert (Hpage : read_document md_render toUpperCase (dir ++ ["my-page.md"])
                                "<!--TITLE:Custom-->Hello *world*"
                  = mkDocument "my-page" "Custom" "" "<p>Hello <em>world</em></p>").
  { unfold read_document. rewrite stem_md_app.
    change (extract "<!--TITLE:" "<!--TITLE:Custom-->Hello *world*")
      with (Some "Custom", "Hello *world*").
    change (extract "<!--ABOUT:" (snd (Some "Custom", "Hello *world*")))
      with (@None string, "Hello *world*").
    cbn [fst snd]. rewrite Hrender. reflexivity. }
  rewrite Hpage. cbn [doc_content]. split; [reflexivity|].
  split; [reflexivity|]. split; reflexivity.
Qed.

Lemma read_extracts_directives_witness :
  Sample.emphasis "Hello *world*"
  = "<p>Hello <em>world</em></p>" +:+ String (ascii_of_nat 10) EmptyString /\
  read_document Sample.emphasis Sample.upper ["docs"; "guide"; "pages"; "my-page.md"]
                "<!--TITLE:Custom-->Hello *world*"
  = mkDocument "my-page" "Custom" "" "<p>Hello <em>world</em></p>".
Proof.
  split; [reflexivity|].
  destruct (read_extracts_directives Sample.emphasis Sample.upper [] "")
    as (_ & _ & _ & _ & _ & Hexample).
  exact (proj1 (Hexample ["docs"; "guide"; "pages"] eq_refl)).
Defined.

(** ** The Markdown Reader and the kind of a path *)

Lemma stat_find (n : node) (p : Path) (x : node) :
  FS.find n p = Ok x -> FS.stat n p = Ok (FS.is_dir x).
Proof. unfold FS.stat. now intros ->. Qed.

(** C4 (as amended). On a path that exists, the two-level [read] returns the
    path itself for a directory and a fresh Document for a file; the
    single-level [read] returns a fresh Document for a file and rejects with
    EISDIR on a directory. *)
Theorem read_by_kind (md_render toUpperCase : string -> string) (location : Path) (w : World)
    (n : node) :
  FS.find (fs w) location = Ok n ->
  let w1 := logged (Info (MReading location)) w in
  match n with
  | Dir _ =>
      read000 md_render toUpperCase location w = (Ok (VDir location), w1) /\
      read001 md_render toUpperCase location w = (Throw EISDIR, w1)
  | File text =>
      let o := mkObj (read_document md_render toUpperCase location text) None in
      read000 md_render toUpperCase location w = (Ok (VObj (length (heap w))), allocated o w1) /\
      read001 md_render toUpperCase location w = (Ok (VObj (length (heap w))), allocated o w1)
  end.
Proof.
  intros Hfind. cbv zeta.
  unfold read000, read001, bind, info, emit_event, with_fs, alloc, ret.
  cbn [fs logged heap]. unfold FS.stat, FS.readFile. rewrite Hfind.
  destruct n; cbn [FS.is_dir fs logged]; rewrite ?Hfind; split; reflexivity.
Qed.

Lemma read_by_kind_witness :
  read000 Sample.render Sample.upper ["docs"; "guide"; "pages"] (Sample.world Sample.site)
  = (Ok (VDir ["docs"; "guide"; "pages"]),
     logged (Info (MReading ["docs"; "guide"; "pages"])) (Sample.world Sample.site)) /\
  read001 Sample.render Sample.upper ["docs"; "guide"; "pages"] (Sample.world Sample.site)
  = (Throw EISDIR,
     logged (Info (MReading ["docs"; "guide"; "pages"])) (Sample.world Sample.site)).
Proof.
  exact (read_by_kind Sample.render Sample.upper ["docs"; "guide"; "pages"]
      (Sample.world Sample.site)
                      Sample.pages eq_refl).
Defined.

(** The single-level [read] has no answer for a directory: the promise is
    rejected, no path comes back. *)
Lemma read001_directory_rejected :
  FS.stat Sample.site ["docs"; "guide"; "pages"] = Ok true /\
  fst (read001 Sample.render Sample.upper ["docs"; "guide"; "pages"] (Sample.world Sample.site))
  = Throw EISDIR /\
  fst (read001 Sample.render Sample.upper ["docs"; "guide"; "pages"] (Sample.world Sample.site))
  <> Ok (VDir ["docs"; "guide"; "pages"]).
Proof. split; [reflexivity | split; [reflexivity | discriminate]]. Qed.

(** ** Creating the output directory *)

Lemma mkdir_unless_exists_spec (p : Path) (w : World) :
  mkdir_unless_exists p w =
  match FS.mkdir (fs w) p with
  | Ok n => (Ok tt, mkWorld (heap w) n (trace w) (confirm w))
  | Throw EEXIST => (Ok tt, w)
  | Throw e => (Throw e, w)
  end.
Proof.
  unfold mkdir_unless_exists, try_catch, change_fs.
  destruct (FS.mkdir (fs w) p) as [n|e]; [reflexivity|].
  destruct e; reflexivity.
Qed.

(** C7. In the two-level [run] every error of [mkdir] is swallowed: whatever
    the error, the world is as before and the run goes on.  (The single-level
    [emit] lets only EEXIST through, see [mkdir_unless_exists_spec].) *)
Theorem mkdir_target000_swallows (options : Options) (w : World) (e : error) :
  FS.mkdir (fs w) (target options) = Throw e ->
  mkdir_target000 options w = (Ok tt, w) /\
  (e <> EEXIST -> mkdir_unless_exists (target options) w = (Throw e, w)).
Proof.
  intros H. split.
  - unfold mkdir_target000, try_catch, change_fs. now rewrite H.
  - intros He. rewrite mkdir_unless_exists_spec, H. destruct e; congruence.
Qed.

Lemma mkdir_target000_swallows_witness :
  FS.mkdir Sample.site ["out"; "docs"] = Throw ENOENT /\
  mkdir_target000 (mkOptions ["docs"] ["out"; "docs"] ["out"; "static"] default_exclude)
                  (Sample.world Sample.site)
  = (Ok tt, Sample.world Sample.site).
Proof.
  split; [reflexivity|].
  apply (mkdir_target000_swallows
           (mkOptions ["docs"] ["out"; "docs"] ["out"; "static"] default_exclude)
           (Sample.world Sample.site) ENOENT).
  reflexivity.
Defined.

(** ** Reasoning about computations *)

Lemma bind_Ok {A B} (m : M A) (k : A -> M B) (w w' : World) (b : B) :
  bind m k w = (Ok b, w') ->
  exists a w1, m w = (Ok a, w1) /\ k a w1 = (Ok b, w').
Proof.
  unfold bind. destruct (m w) as [[a|e] w1]; [eauto | discriminate].
Qed.

Lemma assoc_put_eq {A} (k : string) (v : A) (l : list (string * A)) :
  FS.assoc k (FS.put k v l) = Some v.
Proof.
  induction l as [|[k' v'] l IH]; simpl.
  - now rewrite String.eqb_refl.
  - destruct (String.eqb k k') eqn:Hk; simpl; rewrite ?String.eqb_refl, ?Hk; auto.
Qed.

Lemma assoc_put_ne {A} (k k' : string) (v : A) (l : list (string * A)) :
  k' <> k -> FS.assoc k' (FS.put k v l) = FS.assoc k' l.
Proof.
  intros Hne. induction l as [|[k0 v0] l IH]; simpl.
  - apply String.eqb_neq in Hne. now rewrite Hne.
  - destruct (String.eqb k k0) eqn:Hk; simpl.
    + apply String.eqb_eq in Hk. subst k0.
      apply String.eqb_neq in Hne. now rewrite Hne.
    + destruct (String.eqb k' k0); auto.
Qed.

Lemma writeFile_readFile (p : Path) (text : string) (n n' : node) :
  FS.writeFile n p text = Ok n' -> FS.readFile n' p = Ok text.
Proof.
  unfold FS.writeFile, FS.readFile. revert n n'.
  induction p as [|c p IH]; intros n n'; cbn [FS.update FS.find].
  - destruct n; intros [= <-]; reflexivity || discriminate.
  - destruct n as [|es]; [discriminate|].
    destruct (FS.assoc c es) as [x|] eqn:Hx.
    + assert (Hu : match FS.update (fun old => match old with
                                                | Some (Dir _) => Throw EISDIR
                                                | _ => Ok (File text)
                                                end) x p with
                   | Ok y => Ok (Dir (FS.put c y es))
                   | Throw e => Throw e
                   end = Ok n' -> match FS.find n' (c :: p) with
                                  | Ok (File t) => Ok t
                                  | Ok (Dir _) => Throw EISDIR
                                  | Throw e => Throw e
                                  end = Ok text).
      { destruct (FS.update _ x p) as [y|] eqn:Hy; [|discriminate].
        intros [= <-]. cbn [FS.find]. rewrite assoc_put_eq. eapply IH. exact Hy. }
      destruct p; exact Hu.
    + destruct p; [|discriminate].
      intros [= <-]. cbn [FS.find]. now rewrite assoc_put_eq.
Qed.

(** ** The meta file of the two-level Emitter *)

(** C10. Whenever the two-level Emitter completes for a module, the file
    target/module.meta.json holds the serialised asset table; for a mapping
    without raw directories the table is empty and the file holds exactly
    the two characters of the empty object. *)
Theorem emit000_writes_meta (sep : string) (options : Options)
    (detectFile : Path -> result string) (sizeOf : Path -> result json)
    (toLowerCase : string -> string) (copy : node -> Path -> Path -> result node)
    (module : string) (contents : Mapping * json) (w w' : World) :
  emit000 sep options detectFile sizeOf toLowerCase copy module contents w = (Ok tt, w') ->
  (exists meta,
     FS.readFile (fs w') (target options ++ [module +:+ ".meta.json"])
     = Ok (Json.stringify "" (meta_json meta))) /\
  (raw_directories (fst contents) = [] ->
   FS.readFile (fs w') (target options ++ [module +:+ ".meta.json"]) = Ok "{}").
Proof.
  unfold emit000. intros H.
  apply bind_Ok in H as (_ & w1 & _ & H).
  apply bind_Ok in H as (model & w2 & _ & H).
  apply bind_Ok in H as (result & w3 & _ & H).
  apply bind_Ok in H as (meta & w4 & Hmeta & H).
  apply bind_Ok in H as (written & w5 & Hw & H).
  unfold info, emit_event in H. injection H as <-.
  cbn [promise_all] in Hw.
  destruct (change_fs _ w4) as [r1 wa] eqn:H1 in Hw.
  destruct (change_fs _ wa) as [r2 wb] eqn:H2 in Hw.
  destruct r1 as [[]|]; [|discriminate]. destruct r2 as [[]|]; [|discriminate].
  injection Hw as _ <-.
  unfold change_fs in H2.
  destruct (FS.writeFile (fs wa) _ _) as [n'|] eqn:Hwr; [|discriminate].
  injection H2 as <-. cbn [fs logged].
  apply writeFile_readFile in Hwr.
  split; [exists meta; exact Hwr|].
  intros Hraw. rewrite Hraw in Hmeta. injection Hmeta as <- _. exact Hwr.
Qed.

Lemma emit000_writes_meta_witness :
  raw_directories (fst SampleModule.contents) = [] /\
  FS.readFile
    (fs (snd (emit000 "/" Sample.options Sample.detect Sample.size Sample.lower
        Sample.copy "guide"
                      SampleModule.contents SampleModule.world)))
    (target Sample.options ++ ["guide" +:+ ".meta.json"]) = Ok "{}".
Proof.
  split; [reflexivity|].
  apply (emit000_writes_meta "/" Sample.options Sample.detect Sample.size Sample.lower
      Sample.copy "guide"
                             SampleModule.contents SampleModule.world);
    reflexivity.
Defined.

(** ** The end-to-end example *)

Import SampleSite.

(** C2 (as amended). For the root /docs with the module guide, the manifest
    of the example and the three content files in a content directory of the
    module, both programs emit a guide.json with two roots: intro without
    children, and advanced with the one child tips. *)
Theorem guide_bundle_has_two_roots (sep : string) (JSON_parse : string -> option json)
    (md_render toUpperCase : string -> string) (detectFile : Path -> result string)
    (sizeOf : Path -> result json)
    (toLowerCase : string -> string) (copy : node -> Path -> Path -> result node)
        (intro advanced tips : string) :
  JSON_parse Sample.manifest = Some Sample.structure ->
  FS.readFile
    (fs (snd (run001 sep Sample.options JSON_parse md_render toUpperCase true
                     (Sample.world (site_of intro advanced tips)))))
    ["docs"; "docs"; "guide.json"]
  = Ok (bundle (emitted md_render toUpperCase intro advanced tips)) /\
  FS.readFile
    (fs (snd (run000 sep Sample.options JSON_parse md_render toUpperCase detectFile sizeOf
        toLowerCase copy true
                     (Sample.world (site_of intro advanced tips)))))
    ["docs"; "docs"; "guide.json"]
  = Ok (bundle (emitted md_render toUpperCase intro advanced tips)).
Proof.
  intros Hparse.
  assert (Hext : JSON_parse
                 = fun text => if String.eqb text Sample.manifest
                               then Some Sample.structure else JSON_parse text).
  { apply functional_extensionality. intros text.
    destruct (String.eqb text Sample.manifest) eqn:Ht; [|reflexivity].
    apply String.eqb_eq in Ht. now subst text. }
  rewrite Hext. split; lazy -[read_document Json.quote]; reflexivity.
Qed.
Lemma guide_bundle_has_two_roots_witness :
  Sample.parse Sample.manifest = Some Sample.structure /\
  FS.readFile
    (fs (snd (run001 "/" Sample.options Sample.parse Sample.render Sample.upper true
                     (Sample.world (site_of "Intro" "Advanced" "Tips")))))
    ["docs"; "docs"; "guide.json"]
  = Ok (bundle (emitted Sample.render Sample.upper "Intro" "Advanced" "Tips")).
Proof.
  split; [reflexivity|].
  apply (guide_bundle_has_two_roots "/" Sample.parse Sample.render Sample.upper Sample.detect
                                    Sample.size Sample.lower Sample.copy "Intro"
                                        "Advanced" "Tips").
  reflexivity.
Defined.

Lemma bundle_differs (forest forest' : list Tree) (r : result string) :
  r = Ok (bundle forest) ->
  String.eqb (bundle forest) (bundle forest') = false ->
  r <> Ok (bundle forest').
Proof.
  intros -> Hne [= H]. rewrite H, String.eqb_refl in Hne. discriminate.
Qed.

(** The bundle of the sample site is not the single root the example of the
    specification expects; with the content files beside the manifest the
    bundle is the empty array. *)
Lemma guide_bundle_is_not_one_root :
  FS.readFile
    (fs (snd (run001 "/" Sample.options Sample.parse Sample.render Sample.upper true
                     (Sample.world Sample.site))))
    ["docs"; "docs"; "guide.json"]
  <> Ok (bundle (expected Sample.render Sample.upper "Intro" "Advanced" "Tips")) /\
  FS.readFile
    (fs (snd (run000 "/" Sample.options Sample.parse Sample.render Sample.upper Sample.detect
                     Sample.size Sample.lower Sample.copy true (Sample.world Sample.site))))
    ["docs"; "docs"; "guide.json"]
  <> Ok (bundle (expected Sample.render Sample.upper "Intro" "Advanced" "Tips")) /\
  FS.readFile
    (fs (snd (run001 "/" Sample.options Sample.parse Sample.render Sample.upper true
                     (Sample.world Sample.flat_site))))
    ["docs"; "docs"; "guide.json"]
  = Ok "[]".
Proof.
  split; [|split].
  - apply (bundle_differs (emitted Sample.render Sample.upper "Intro" "Advanced" "Tips"));
      vm_compute; reflexivity.
  - apply (bundle_differs (emitted Sample.render Sample.upper "Intro" "Advanced" "Tips"));
      vm_compute; reflexivity.
  - vm_compute. reflexivity.
Qed.

(** ** Module failures *)

Lemma reads_only_ret {A} (a : A) : reads_only (ret a).
Proof. intros w. reflexivity. Qed.

Lemma reads_only_throw {A} (e : error) : reads_only (@throw A e).
Proof. intros w. reflexivity. Qed.

Lemma reads_only_event (e : event) : reads_only (emit_event e).
Proof. intros w. reflexivity. Qed.

Lemma reads_only_with_fs {A} (f : node -> result A) : reads_only (with_fs f).
Proof. intros w. reflexivity. Qed.

Lemma reads_only_alloc (o : Obj) : reads_only (alloc o).
Proof. intros w. reflexivity. Qed.

Lemma reads_only_bind {A B} (m : M A) (k : A -> M B) :
  reads_only m -> (forall a, reads_only (k a)) -> reads_only (bind m k).
Proof.
  intros Hm Hk w. unfold bind. specialize (Hm w).
  destruct (m w) as [[a|e] w1]; cbn [snd] in *; [|exact Hm].
  now rewrite Hk.
Qed.

Lemma reads_only_promise_all {A} (ms : list (M A)) :
  Forall reads_only ms -> reads_only (promise_all ms).
Proof.
  induction 1 as [|m ms Hm _ IH]; intros w; cbn [promise_all]; [reflexivity|].
  specialize (Hm w). destruct (m w) as [r w1]. specialize (IH w1).
  destruct (promise_all ms w1) as [rs w2]. cbn [snd] in *. congruence.
Qed.

Lemma reads_only_promise_all_map {A B} (f : A -> M B) (l : list A) :
  (forall x, reads_only (f x)) -> reads_only (promise_all (map f l)).
Proof.
  intros Hf. apply reads_only_promise_all, List.Forall_forall. intros m Hm.
  apply in_map_iff in Hm as (x & <- & _). apply Hf.
Qed.

Create HintDb reads.

#[local] Hint Resolve reads_only_ret reads_only_throw reads_only_event
  reads_only_with_fs reads_only_alloc : reads.

Ltac reads_only_step :=
  lazymatch goal with
  | |- reads_only (bind _ _) => apply reads_only_bind; [|intros ?]
  | |- reads_only (promise_all (map _ _)) => apply reads_only_promise_all_map; intros ?
  | |- reads_only (if ?b then _ else _) => destruct b
  | |- reads_only (match ?x with _ => _ end) => destruct x
  | |- reads_only _ => solve [auto with reads]
  end.

Section ReadsOnly.

Variable sep : string.
Variable options : Options.
Variable JSON_parse : string -> option json.
Variable md_render : string -> string.
Variable toUpperCase : string -> string.

Lemma reads_only_read001 location : reads_only (read001 md_render toUpperCase location).
Proof. unfold read001, info. repeat reads_only_step. Qed.

Lemma reads_only_read000 location : reads_only (read000 md_render toUpperCase location).
Proof. unfold read000, info. repeat reads_only_step. Qed.

Lemma reads_only_listing location : reads_only (listing options location).
Proof. unfold listing. repeat reads_only_step. Qed.

Lemma reads_only_resolve001 location : reads_only (resolve001 sep options md_render
    toUpperCase location).
Proof.
  unfold resolve001, info.
  repeat first [ apply reads_only_listing | apply reads_only_read001 | reads_only_step ].
Qed.

Lemma reads_only_resolve000 location :
  reads_only (resolve000 sep options md_render toUpperCase location).
Proof.
  unfold resolve000, info.
  repeat first [ apply reads_only_listing | apply reads_only_read000 | reads_only_step ].
Qed.

Lemma reads_only_traverse {A} location (action : Path -> M (option A)) :
  (forall l, reads_only (action l)) -> reads_only (traverse options location action).
Proof.
  intros Ha. unfold traverse, warn.
  repeat first [ apply Ha | reads_only_step ].
Qed.

Lemma reads_only_explore (resolve : Path -> M Mapping) location :
  (forall l, reads_only (resolve l)) ->
  reads_only (explore options JSON_parse resolve location).
Proof.
  intros Hr. unfold explore, warn, info.
  repeat first [ apply reads_only_listing | apply reads_only_traverse; intros ?
               | apply Hr | reads_only_step ].
Qed.

Lemma reads_only_discover (resolve : Path -> M Mapping) :
  (forall l, reads_only (resolve l)) ->
  reads_only (discover options JSON_parse resolve).
Proof.
  intros Hr. unfold discover.
  repeat first [ apply reads_only_traverse; intros ?
               | apply reads_only_explore; exact Hr | reads_only_step ].
Qed.

End ReadsOnly.

Lemma promise_all_rejects {A} (ms : list (M A)) (F : node) :
  Forall reads_only ms ->
  Exists (fun m => forall w, fs w = F -> exists e w', m w = (Throw e, w')) ms ->
  forall w, fs w = F ->
  exists e w', promise_all ms w = (Throw e, w') /\ fs w' = F.
Proof.
  intros Hro Hex. induction Hex as [m ms Hbad | m ms _ IH]; intros w Hw;
    apply List.Forall_cons_iff in Hro as [Hm Hms]; cbn [promise_all].
  - destruct (Hbad w Hw) as (e & w1 & Hrun). rewrite Hrun.
    pose proof (reads_only_promise_all ms Hms w1) as Hfs.
    pose proof (Hm w) as Hfs1. rewrite Hrun in Hfs1. cbn [snd] in Hfs1.
    destruct (promise_all ms w1) as [rs w2]. cbn [snd] in Hfs.
    exists e, w2. split; [reflexivity | congruence].
  - pose proof (Hm w) as Hfs1. destruct (m w) as [r w1]. cbn [snd] in Hfs1.
    destruct (IH Hms w1 ltac:(congruence)) as (e & w2 & Hrun & Hfs).
    rewrite Hrun. destruct r as [a|e0]; eauto.
Qed.

Lemma find_app (n : node) (p q : Path) :
  FS.find n (p ++ q) =
  match FS.find n p with
  | Ok x => FS.find x q
  | Throw e => Throw e
  end.
Proof.
  revert n. induction p as [|c p IH]; intros n; [reflexivity|].
  cbn [app FS.find]. destruct n as [|es]; [reflexivity|].
  destruct (FS.assoc c es); [apply IH | reflexivity].
Qed.

Lemma assoc_In {A} (k : string) (v : A) (l : list (string * A)) :
  FS.assoc k l = Some v -> In k (map fst l).
Proof.
  induction l as [|[k' v'] l IH]; simpl; [discriminate|].
  destruct (String.eqb k k') eqn:Hk; [|auto].
  apply String.eqb_eq in Hk. auto.
Qed.

Lemma remove_first_In (name : string) (files : list string) :
  In name files -> exists files', remove_first name files = Some files'.
Proof.
  induction files as [|f files IH]; [intros []|].
  intros Hin. cbn [remove_first]. destruct (String.eqb f name) eqn:Hf; [eauto|].
  destruct Hin as [->|Hin]; [now rewrite String.eqb_refl in Hf|].
  destruct (IH Hin) as [files' ->]. simpl. eauto.
Qed.

Section Rejection.

Variable sep : string.
Variable options : Options.
Variable JSON_parse : string -> option json.
Variable md_render : string -> string.
Variable toUpperCase : string -> string.

(** Exploring a module whose manifest is no JSON is rejected. *)
Lemma explore_malformed (resolve : Path -> M Mapping) (w : World) (location : Path)
    (es : list (string * node)) (text : string) :
  exclude_re options "structure.json" = false ->
  FS.find (fs w) location = Ok (Dir es) ->
  FS.assoc "structure.json" es = Some (File text) ->
  JSON_parse text = None ->
  explore options JSON_parse resolve location w = (Throw SyntaxError, w).
Proof.
  intros Hex Hfind Hassoc Hparse.
  unfold explore, listing, bind, with_fs, ret, FS.readdir, FS.readFile.
  rewrite Hfind.
  destruct (remove_first_In "structure.json"
              (List.filter (fun file => negb (exclude options [file])) (map fst es)))
    as [files' ->].
  { apply List.filter_In. split; [eapply assoc_In; eauto|].
    cbv beta. unfold exclude, Path.basename. cbn [List.last]. now rewrite Hex. }
  rewrite find_app, Hfind. cbn [FS.find]. rewrite Hassoc, Hparse. reflexivity.
Qed.

Lemma traverse_malformed (resolve : Path -> M Mapping) (w : World) (dir : Path)
    (module : string) (es : list (string * node)) (text : string) :
  exclude_re options module = false ->
  exclude_re options "structure.json" = false ->
  FS.find (fs w) (dir ++ [module]) = Ok (Dir es) ->
  FS.assoc "structure.json" es = Some (File text) ->
  JSON_parse text = None ->
  traverse options (dir ++ [module]) (explore options JSON_parse resolve) w
  = (Throw SyntaxError, w).
Proof.
  intros Hm Hex Hfind Hassoc Hparse.
  unfold traverse, exclude, Path.basename. rewrite last_last, Hm.
  unfold bind at 1. unfold with_fs, FS.stat. rewrite Hfind. cbn [FS.is_dir negb].
  eapply explore_malformed; eauto.
Qed.

Lemma discover_malformed (resolve : Path -> M Mapping) (w : World)
    (modules : list string) (module : string) (es : list (string * node))
    (text : string) :
  (forall l, reads_only (resolve l)) ->
  FS.readdir (fs w) (directory options) = Ok modules ->
  In module modules ->
  exclude_re options module = false ->
  exclude_re options "structure.json" = false ->
  FS.find (fs w) (directory options ++ [module]) = Ok (Dir es) ->
  FS.assoc "structure.json" es = Some (File text) ->
  JSON_parse text = None ->
  exists e w', discover options JSON_parse resolve w = (Throw e, w') /\ fs w' = fs w.
Proof.
  intros Hr Hdir Hin Hm Hex Hfind Hassoc Hparse.
  unfold discover. unfold bind at 1. unfold with_fs at 1. rewrite Hdir.
  unfold bind at 1.
  destruct (promise_all_rejects
              (map (fun module =>
                      do r <- traverse options (directory options ++ [module])
                                (explore options JSON_parse resolve);
                      ret (module, r)) modules) (fs w))
    with (w := w) as (e & w' & -> & Hfs); eauto.
  - apply List.Forall_forall. intros m Hmin.
    apply in_map_iff in Hmin as (x & <- & _).
    apply reads_only_bind; [|intros; apply reads_only_ret].
    apply reads_only_traverse. intros l. now apply reads_only_explore.
  - apply List.Exists_exists. eexists. split.
    + apply in_map_iff. exists module. split; [reflexivity | exact Hin].
    + intros w0 Hw0. exists SyntaxError, w0. unfold bind.
      rewrite (traverse_malformed resolve w0 (directory options) module es text);
        congruence.
Qed.

End Rejection.

(** C3 (as amended). When a module of the root has a malformed manifest, the
    crawl of either program is rejected as a whole: the error reaches the
    caller of the crawl and the file system is left as it was, so no module,
    the failing one or a sibling, gets a bundle.  The single-level program,
    once confirmed, ends with that error logged and nothing written. *)
Theorem malformed_manifest_rejects_crawl (sep : string) (options : Options)
    (JSON_parse : string -> option json) (md_render toUpperCase : string -> string)
    (detectFile : Path -> result string) (sizeOf : Path -> result json)
    (toLowerCase : string -> string) (copy : node -> Path -> Path -> result node)
    (w : World) (modules : list string) (module : string)
    (es : list (string * node)) (text : string) :
  FS.readdir (fs w) (directory options) = Ok modules ->
  In module modules ->
  exclude_re options module = false ->
  exclude_re options "structure.json" = false ->
  FS.find (fs w) (directory options ++ [module]) = Ok (Dir es) ->
  FS.assoc "structure.json" es = Some (File text) ->
  JSON_parse text = None ->
  (exists e w',
     crawl001 sep options JSON_parse md_render toUpperCase w = (Throw e, w') /\ fs w' = fs w) /\
  (exists e w',
     crawl000 sep options JSON_parse md_render toUpperCase detectFile sizeOf toLowerCase
         copy w = (Throw e, w')
     /\ fs w' = fs w) /\
  (exists e w',
     main001 sep options JSON_parse md_render toUpperCase true w = (Ok tt, logged (Err e) w')
     /\ fs w' = fs w).
Proof.
  intros Hdir Hin Hm Hex Hfind Hassoc Hparse.
  assert (H001 : forall w0, fs w0 = fs w ->
            exists e w',
              crawl001 sep options JSON_parse md_render toUpperCase w0 = (Throw e, w')
              /\ fs w' = fs w).
  { intros w0 Hw0.
    destruct (discover_malformed options JSON_parse (resolve001 sep options md_render toUpperCase)
                w0 modules module es text) as (e & w' & Hd & Hfs);
      auto; try (rewrite Hw0; assumption).
    { intros l. apply reads_only_resolve001. }
    exists e, w'. split; [|congruence].
    unfold crawl001, crawl, bind. now rewrite Hd. }
  split; [exact (H001 w eq_refl)|]. split.
  - destruct (discover_malformed options JSON_parse (resolve000 sep options md_render toUpperCase)
                w modules module es text) as (e & w' & Hd & Hfs); auto.
    { intros l. apply reads_only_resolve000. }
    exists e, w'. split; [|exact Hfs].
    unfold crawl000, crawl, bind. now rewrite Hd.
  - destruct (H001 (logged Line w) eq_refl) as (e & w' & Hc & Hfs).
    exists e, w'. split; [|exact Hfs].
    unfold main001, try_catch, run001. unfold bind at 1. unfold emit_event at 1.
    cbn [negb]. unfold bind at 1. now rewrite Hc.
Qed.

Lemma malformed_manifest_rejects_crawl_witness :
  exists e w',
    crawl001 "/" Sample.options Sample.parse Sample.render Sample.upper
             (Sample.world Sample.site_with_broken) = (Throw e, w')
    /\ fs w' = Sample.site_with_broken.
Proof.
  apply (malformed_manifest_rejects_crawl "/" Sample.options Sample.parse Sample.render
      Sample.upper
           Sample.detect Sample.size Sample.lower Sample.copy
               (Sample.world Sample.site_with_broken)
           ["broken"; "guide"] "broken"
           [("structure.json", File "[intro"); ("pages", Sample.pages)] "[intro");
    try reflexivity.
  simpl. auto.
Defined.

(** The module guide beside a module with a malformed manifest gets no
    bundle, in either program; alone it gets one. *)
Lemma sibling_of_broken_module_not_emitted :
  (let r := run001 "/" Sample.options Sample.parse Sample.render Sample.upper true
                   (Sample.world Sample.site_with_broken) in
   fst r = Throw SyntaxError /\
   FS.readFile (fs (snd r)) ["docs"; "docs"; "guide.json"] = Throw ENOENT) /\
  (let r := run000 "/" Sample.options Sample.parse Sample.render Sample.upper Sample.detect
                   Sample.size Sample.lower Sample.copy true
                       (Sample.world Sample.site_with_broken) in
   fst r = Throw SyntaxError /\
   FS.readFile (fs (snd r)) ["docs"; "docs"; "guide.json"] = Throw ENOENT) /\
  (let r := run001 "/" Sample.options Sample.parse Sample.render Sample.upper true
                   (Sample.world Sample.site) in
   fst r = Ok tt /\
   exists text, FS.readFile (fs (snd r)) ["docs"; "docs"; "guide.json"] = Ok text).
Proof.
  split; [|split]; cbv zeta.
  - split; vm_compute; reflexivity.
  - split; vm_compute; reflexivity.
  - split; [vm_compute; reflexivity|]. eexists. vm_compute. reflexivity.
Qed.

(** ** Exclusion *)

Lemma returns_ret {A} (a : A) (Q : A -> Prop) : Q a -> returns (ret a) Q.
Proof. intros H w a' w' [= <- _]. exact H. Qed.

Lemma returns_bind {A B} (m : M A) (k : A -> M B) (P : A -> Prop) (Q : B -> Prop) :
  returns m P -> (forall a, P a -> returns (k a) Q) -> returns (bind m k) Q.
Proof.
  intros Hm Hk w b w' H. apply bind_Ok in H as (a & w1 & H1 & H2).
  eapply Hk; eauto.
Qed.

Lemma returns_weaken {A} (m : M A) (P Q : A -> Prop) :
  returns m P -> (forall a, P a -> Q a) -> returns m Q.
Proof. intros Hm HPQ w a w' H. eauto. Qed.

Lemma returns_True {A} (m : M A) : returns m (fun _ => True).
Proof. intros w a w' _. exact I. Qed.

Lemma returns_promise_all {A} (ms : list (M A)) (Q : A -> Prop) :
  Forall (fun m => returns m Q) ms -> returns (promise_all ms) (Forall Q).
Proof.
  induction 1 as [|m ms Hm _ IH]; intros w rs w'; cbn [promise_all].
  - intros [= <- _]. constructor.
  - destruct (m w) as [r w1] eqn:H1. destruct (promise_all ms w1) as [rs' w2] eqn:H2.
    destruct r as [a|]; [|discriminate]. destruct rs' as [l|]; [|discriminate].
    intros [= <- _]. constructor; eauto.
Qed.

Lemma returns_promise_all_map {A B} (f : A -> M B) (l : list A) (Q : B -> Prop) :
  (forall x, In x l -> returns (f x) Q) ->
  returns (promise_all (map f l)) (Forall Q).
Proof.
  intros Hf. apply returns_promise_all, List.Forall_forall. intros m Hm.
  apply in_map_iff in Hm as (x & <- & Hx). now apply Hf.
Qed.

Lemma startsWith_take (p s : string) (n : nat) :
  Str.startsWith p (Str.take n s) = true -> Str.startsWith p s = true.
Proof.
  unfold Str.startsWith. revert s n. induction p as [|a p IH]; intros s n.
  - now destruct s.
  - destruct n, s as [|b s]; simpl; try discriminate.
    destruct (ascii_dec a b); [apply IH | discriminate].
Qed.

Lemma includes_take (p s : string) (n : nat) :
  Str.includes p (Str.take n s) = true -> Str.includes p s = true.
Proof.
  revert n. induction s as [|b s IH]; intros n.
  - now destruct n.
  - destruct n.
    + cbn [Str.take Str.includes]. rewrite orb_false_r. intros H.
      apply orb_true_iff. left.
      unfold Str.startsWith in *. destruct p; [reflexivity | discriminate].
    + cbn [Str.take Str.includes]. intros H. apply orb_true_iff in H as [H|H].
      * apply orb_true_iff. left. exact (startsWith_take p (String b s) (S n) H).
      * apply orb_true_iff. right. eauto.
Qed.

(** Cutting the extension off a name that is not excluded gives a name that
    is not excluded. *)
Lemma stem_not_excluded (file : string) :
  default_exclude file = false ->
  default_exclude (Path.stem_of_name ".md" file) = false.
Proof.
  unfold Path.stem_of_name. intros H.
  destruct (String.eqb file ".md"); [reflexivity|].
  destruct (Str.endsWith ".md" file); [|exact H].
  unfold default_exclude in *. apply orb_false_iff in H as [H1 H2].
  apply orb_false_iff. split.
  - destruct (Str.includes "node_modules" (Str.take _ file)) eqn:E; [|reflexivity].
    apply includes_take in E. congruence.
  - destruct (Str.startsWith "." (Str.take _ file)) eqn:E; [|reflexivity].
    apply startsWith_take in E. congruence.
Qed.

Lemma put_Forall {A} (P : string * A -> Prop) (k : string) (v : A)
    (o : list (string * A)) :
  Forall P o -> P (k, v) -> Forall P (FS.put k v o).
Proof.
  intros Ho Hkv. induction Ho as [|[k' v'] o Hx Ho IH]; cbn [FS.put].
  - constructor; [exact Hkv | constructor].
  - destruct (String.eqb k k'); constructor; auto.
Qed.

Lemma set_Forall {A} (P : string * A -> Prop) (k : string) (v : A)
    (o : list (string * A)) :
  Forall P o -> P (k, v) -> Forall P (Object.set k v o).
Proof.
  intros Ho Hkv. unfold Object.set.
  destruct (String.eqb k "__proto__"); [exact Ho | now apply put_Forall].
Qed.

Lemma assign_Forall {A} (P : string * A -> Prop) (source target : list (string * A)) :
  Forall P target -> Forall P source -> Forall P (Object.assign target source).
Proof.
  unfold Object.assign. intros Ht Hs. revert target Ht.
  induction Hs as [|[k v] source Hx Hs IH]; intros target Ht; cbn [fold_left].
  - exact Ht.
  - apply IH. now apply set_Forall.
Qed.

Lemma fold_assign_Forall {A} (P : string * A -> Prop)
    (sources : list (list (string * A))) (target : list (string * A)) :
  Forall P target -> Forall (Forall P) sources ->
  Forall P (fold_left Object.assign sources target).
Proof.
  intros Ht Hs. revert target Ht.
  induction Hs as [|s sources Hx Hs IH]; intros target Ht; cbn [fold_left].
  - exact Ht.
  - apply IH. now apply assign_Forall.
Qed.

Lemma clean_entry_deeper (prefix : Path) (c : string) (kv : string * Val) :
  default_exclude c = false ->
  clean_entry (prefix ++ [c]) kv -> clean_entry prefix kv.
Proof.
  unfold clean_entry. intros Hc. destruct (snd kv); [auto|].
  intros (rel & -> & Hrel). exists (c :: rel). split.
  - now rewrite <- List.app_assoc.
  - now constructor.
Qed.

Section Exclusion.

Variable sep : string.
Variable root target_dir static_dir : Path.
Variable JSON_parse : string -> option json.
Variable md_render : string -> string.
Variable toUpperCase : string -> string.

Let options : Options := mkOptions root target_dir static_dir default_exclude.

Lemma returns_listing (location : Path) :
  returns (listing options location)
          (Forall (fun file => default_exclude file = false)).
Proof.
  unfold listing. eapply returns_bind; [apply returns_True|].
  intros files _. apply returns_ret.
  apply List.Forall_forall. intros file Hin.
  apply List.filter_In in Hin as [_ Hin]. apply negb_true_iff in Hin. exact Hin.
Qed.

Lemma returns_read001 (location : Path) :
  returns (read001 md_render toUpperCase location)
          (fun v => match v with VObj _ => True | VDir _ => False end).
Proof.
  unfold read001. intros w v w' H.
  apply bind_Ok in H as (_ & w1 & _ & H).
  apply bind_Ok in H as (markdown & w2 & _ & H).
  unfold alloc in H. now injection H as <- _.
Qed.

Lemma returns_read000 (location : Path) :
  returns (read000 md_render toUpperCase location)
          (fun v => match v with VObj _ => True | VDir p => p = location end).
Proof.
  unfold read000. intros w v w' H.
  apply bind_Ok in H as (_ & w1 & _ & H).
  apply bind_Ok in H as (isdir & w2 & _ & H).
  destruct isdir.
  - now injection H as <- _.
  - apply bind_Ok in H as (markdown & w3 & _ & H).
    unfold alloc in H. now injection H as <- _.
Qed.

Lemma Forall_filter_list {A} (f : A -> bool) (P : A -> Prop) (l : list A) :
  Forall P l -> Forall P (List.filter f l).
Proof.
  intros H. apply List.Forall_forall. intros x Hx.
  apply List.filter_In in Hx as [Hx _].
  exact (proj1 (List.Forall_forall _ _) H x Hx).
Qed.

Lemma fold_set_Forall {R} (P : string * Val -> Prop) (key : R -> string)
    (value : R -> Val) (results : list R) (map0 : Mapping) :
  Forall P map0 ->
  Forall (fun r => P (key r, value r)) results ->
  Forall P (fold_left (fun map r => Object.set (key r) (value r) map) results map0).
Proof.
  intros H0 Hr. revert map0 H0.
  induction Hr as [|r results Hx Hr IH]; intros map0 H0; cbn [fold_left].
  - exact H0.
  - apply IH. now apply set_Forall.
Qed.

Lemma returns_resolve001 (location : Path) :
  returns (resolve001 sep options md_render toUpperCase location) (Forall (clean_entry location)).
Proof.
  unfold resolve001.
  eapply returns_bind; [apply returns_listing|]. intros files Hfiles.
  eapply returns_bind; [apply returns_True|]. intros _ _.
  eapply returns_bind.
  - apply returns_promise_all_map
      with (Q := fun r : string * Val =>
                   default_exclude (fst r) = false /\
                   match snd r with VObj _ => True | VDir _ => False end).
    intros file Hin. eapply returns_bind; [apply returns_read001|].
    intros v Hv. apply returns_ret. split; [|exact Hv].
    exact (proj1 (List.Forall_forall _ _) Hfiles file Hin).
  - intros results Hres. apply returns_ret.
    apply (fold_set_Forall (clean_entry location)
             (fun r => Path.stem_of_name ".md" (fst r)) snd); [constructor|].
    apply (Forall_filter_list (fun result => truthy sep (snd result))) in Hres.
    eapply List.Forall_impl; [|exact Hres].
    intros [file v] [Hf Hv]. unfold clean_entry. cbn [fst snd] in *.
    destruct v; [now apply stem_not_excluded | contradiction].
Qed.

Lemma returns_resolve000 (location : Path) :
  returns (resolve000 sep options md_render toUpperCase location) (Forall (clean_entry location)).
Proof.
  unfold resolve000.
  eapply returns_bind; [apply returns_listing|]. intros files Hfiles.
  eapply returns_bind; [apply returns_True|]. intros _ _.
  eapply returns_bind.
  - apply returns_promise_all_map
      with (Q := fun r : string * Val =>
                   default_exclude (fst r) = false /\
                   match snd r with
                   | VObj _ => True
                   | VDir p => p = location ++ [fst r]
                   end).
    intros file Hin. eapply returns_bind; [apply returns_read000|].
    intros v Hv. apply returns_ret. split; [|exact Hv].
    exact (proj1 (List.Forall_forall _ _) Hfiles file Hin).
  - intros results Hres. apply returns_ret.
    apply (Forall_filter_list (fun result => truthy sep (snd result))) in Hres.
    revert Hres. generalize (@nil (string * Val)) (List.Forall_nil (clean_entry location)).
    induction (List.filter (fun result => truthy sep (snd result)) results)
      as [|[file v] results' IH]; intros map0 H0 Hres; cbn [fold_left].
    + exact H0.
    + apply List.Forall_cons_iff in Hres as [[Hf Hv] Hres]. cbn [fst snd] in *.
      apply IH; [|exact Hres].
      destruct v as [l|p]; apply set_Forall; auto; unfold clean_entry; cbn [fst snd].
      * now apply stem_not_excluded.
      * exists [file]. split; [exact Hv | now constructor].
Qed.

Lemma returns_traverse {A} (location : Path) (name : string)
    (action : Path -> M (option A)) (Q : A -> Prop) :
  returns (action (location ++ [name]))
          (fun r => match r with Some a => Q a | None => True end) ->
  returns (traverse options (location ++ [name]) action)
          (fun r => match r with
                    | Some a => default_exclude name = false /\ Q a
                    | None => True
                    end).
Proof.
  intros Ha. unfold traverse, exclude, Path.basename. rewrite List.last_last.
  cbn [exclude_re options].
  destruct (default_exclude name) eqn:Hn.
  - intros w r w' H. apply bind_Ok in H as (_ & w1 & _ & H). now injection H as <- _.
  - intros w r w' H. apply bind_Ok in H as (isdir & w1 & _ & H).
    destruct isdir; cbn [negb] in H.
    + specialize (Ha _ _ _ H). destruct r; auto.
    + now injection H as <- _.
Qed.

Lemma returns_explore (resolve : Path -> M Mapping) (location : Path) :
  (forall l, returns (resolve l) (Forall (clean_entry l))) ->
  returns (explore options JSON_parse resolve location)
          (fun r => match r with
                    | Some c => Forall (clean_entry location) (fst c)
                    | None => True
                    end).
Proof.
  intros Hr. unfold explore.
  eapply returns_bind; [apply returns_True|]. intros files _.
  destruct (remove_first "structure.json" files) as [files'|].
  2:{ eapply returns_bind; [apply returns_True|]. intros _ _. now apply returns_ret. }
  eapply returns_bind; [apply returns_True|]. intros text _.
  eapply returns_bind; [apply returns_True|]. intros structure _.
  eapply returns_bind; [apply returns_True|]. intros _ _.
  eapply returns_bind.
  - apply returns_promise_all_map
      with (Q := fun r : string * option Mapping =>
                   match snd r with
                   | Some m => Forall (clean_entry location) m
                   | None => True
                   end).
    intros file _. eapply returns_bind.
    + apply (returns_traverse location file
               (fun l => do m <- resolve l; ret (Some m))
               (Forall (clean_entry (location ++ [file])))).
      eapply returns_bind; [apply Hr|]. intros m Hm. now apply returns_ret.
    + intros r Hres. apply returns_ret. cbn [snd]. destruct r as [m|]; [|exact I].
      destruct Hres as [Hfile Hm]. eapply List.Forall_impl; [|exact Hm].
      intros kv. now apply clean_entry_deeper.
  - intros results Hres. apply returns_ret. cbn [fst].
    apply fold_assign_Forall; [constructor|].
    induction Hres as [|[file r] results Hx Hres IH]; [constructor|].
    cbn [map snd somes flat_map] in *. destruct r as [m|]; [|exact IH].
    constructor; [exact Hx | exact IH].
Qed.

Lemma returns_discover (resolve : Path -> M Mapping) :
  (forall l, returns (resolve l) (Forall (clean_entry l))) ->
  returns (discover options JSON_parse resolve) (Forall (clean_module root)).
Proof.
  intros Hr. unfold discover.
  eapply returns_bind; [apply returns_True|]. intros modules _.
  eapply returns_bind.
  - apply returns_promise_all_map
      with (Q := fun r : string * option (Mapping * json) =>
                   match snd r with
                   | Some c => clean_module root (fst r, c)
                   | None => True
                   end).
    intros module _. eapply returns_bind.
    + apply (returns_traverse root module (explore options JSON_parse resolve)
               (fun c => Forall (clean_entry (root ++ [module])) (fst c))).
      now apply returns_explore.
    + intros r Hres. apply returns_ret. cbn [snd fst]. destruct r as [c|]; [|exact I].
      destruct Hres as [Hmod Hc]. split; [exact Hmod|]. cbn [fst snd].
      eapply List.Forall_impl; [|exact Hc].
      intros kv. now apply clean_entry_deeper.
  - intros results Hres. apply returns_ret.
    induction Hres as [|[module r] results Hx Hres IH]; [constructor|].
    cbn [flat_map snd fst] in *. destruct r as [c|]; [|exact IH].
    constructor; [exact Hx | exact IH].
Qed.

End Exclusion.

(** C8 (as amended). Under the default exclusion the names .git and
    node_modules are excluded, and whatever the discovery of either program
    returns is clean: no module has an excluded name, no Document of a
    mapping has an excluded key, and every raw directory of a mapping lies
    below the root behind components none of which is excluded. *)
Theorem excluded_names_never_discovered (sep : string)
    (root target_dir static_dir : Path) (JSON_parse : string -> option json)
    (md_render toUpperCase : string -> string) (w w' : World)
    (results : list (string * (Mapping * json))) :
  let options := mkOptions root target_dir static_dir default_exclude in
  discover options JSON_parse (resolve001 sep options md_render toUpperCase) w =
      (Ok results, w') \/
  discover options JSON_parse (resolve000 sep options md_render toUpperCase) w =
      (Ok results, w') ->
  default_exclude ".git" = true /\ default_exclude "node_modules" = true /\
  Forall (clean_module root) results.
Proof.
  cbv zeta. intros H. split; [reflexivity|]. split; [reflexivity|].
  destruct H as [H|H].
  - eapply returns_discover; [|exact H]. intros l. apply returns_resolve001.
  - eapply returns_discover; [|exact H]. intros l. apply returns_resolve000.
Qed.

Lemma excluded_names_never_discovered_witness :
  exists results w',
    discover Sample.options Sample.parse
             (resolve001 "/" Sample.options Sample.render Sample.upper)
             (Sample.world Sample.cluttered_site) = (Ok results, w') /\
    map fst results = ["guide"] /\
    Forall (clean_module ["docs"]) results.
Proof.
  eexists. eexists. split; [vm_compute; reflexivity|]. split; [reflexivity|].
  eapply (excluded_names_never_discovered "/" ["docs"] ["docs"; "docs"]
            ["docs"; "static"] Sample.parse Sample.render Sample.upper
            (Sample.world Sample.cluttered_site)).
  left. vm_compute. reflexivity.
Defined.

(** The two-level Emitter lists a raw directory without the exclusion: the
    entry .git of an asset directory is probed and gets a key of the meta
    file. *)
Lemma asset_listing_not_excluded :
  let r := run000 "/" Sample.options Sample.parse Sample.render Sample.upper Sample.detect
                  Sample.size Sample.lower Sample.copy true
                      (Sample.world Sample.site_with_assets) in
  default_exclude ".git" = true /\
  fst r = Ok tt /\
  exists text,
    FS.readFile (fs (snd r)) ["docs"; "docs"; "guide.meta.json"] = Ok text /\
    Str.includes "img/.git" text = true.
Proof.
  cbv zeta. split; [reflexivity|]. split; [vm_compute; reflexivity|].
  eexists. split; vm_compute; reflexivity.
Qed.

(** ** The Tree Builder *)

Lemma json_ind_list (P : json -> Prop) :
  (forall j, (forall l, j <> JArr l) -> P j) ->
  (forall l, Forall P l -> P (JArr l)) ->
  forall j, P j.
Proof.
  intros Hatom Harr. fix IH 1. intros j.
  destruct j as [| b | r | s | l | m]; try (apply Hatom; intros; discriminate).
  apply Harr. induction l as [|x l IHl]; constructor; [apply IH | exact IHl].
Qed.

Lemma mapM_cons {A B} (f : A -> M B) (x : A) (l : list A) :
  mapM f (x :: l) = (do y <- f x; do ys <- mapM f l; ret (y :: ys)).
Proof. reflexivity. Qed.

Lemma existsb_eqb_false (l : nat) (stack : list nat) :
  ~ In l stack -> existsb (Nat.eqb l) stack = false.
Proof.
  intros H. destruct (existsb (Nat.eqb l) stack) eqn:E; [|reflexivity].
  apply existsb_exists in E as (x & Hx & Hl). apply Nat.eqb_eq in Hl. now subst.
Qed.

Lemma holds_documents_assoc (h : list Obj) (store : Mapping) (k : string) (v : Val) :
  holds_documents h store = true ->
  FS.assoc k store = Some v -> exists l, v = VObj l /\ l < length h.
Proof.
  unfold holds_documents. induction store as [|[k' v'] store IH]; simpl; [discriminate|].
  intros H. apply andb_prop in H as [Hv H].
  destruct (String.eqb k k'); [|auto].
  intros [= <-]. destruct v' as [l|]; [|discriminate].
  exists l. split; [reflexivity|]. now apply Nat.ltb_lt.
Qed.

Section Builder.

Variable sep : string.
Variable store : Mapping.
Variable parent : string.
Variable h0 : list Obj.
Hypothesis Hshadow : Object.has "hasOwnProperty" store = false.
Hypothesis Hdocs : holds_documents h0 store = true.

Lemma hasOwnProperty_plain (k : string) (w : World) :
  hasOwnProperty store k w = (Ok (Object.has k store), w).
Proof. unfold hasOwnProperty. now rewrite Hshadow. Qed.

Lemma denotes_agree (h h2 : list Obj) (s : json) (r : option Val) :
  denotes sep store (documents_of h0 store) h s r ->
  agree (refs store s) h h2 ->
  denotes sep store (documents_of h0 store) h2 s r.
Proof.
  unfold denotes. destruct (build_ref _ s) as [t|], r as [v|]; auto.
  intros [Hk Hj] Hag. split; [exact Hk|].
  intros h' stack fuel Hag' Hst Hf. apply Hj; auto.
  intros l Hl. now rewrite Hag, Hag'.
Qed.

Lemma same_docs_set (h : list Obj) (l : nat) (cs : list Val) :
  same_docs h0 h ->
  same_docs h0 (alter (fun o => mkObj (doc o) (Some cs)) l h).
Proof.
  intros [Hlen Hdoc]. split; [now rewrite length_alter|].
  intros l'. rewrite <- Hdoc. destruct (decide (l = l')) as [<-|Hne].
  - rewrite list_lookup_alter_eq. destruct (h !! l); reflexivity.
  - now rewrite list_lookup_alter_ne.
Qed.

Lemma documents_lookup (h : list Obj) (k : string) (l : nat) :
  same_docs h0 h ->
  FS.assoc k store = Some (VObj l) ->
  exists o, h !! l = Some o /\ documents_of h0 store k = Some (doc o).
Proof.
  intros [Hlen Hdoc] Hk.
  destruct (holds_documents_assoc _ _ _ _ Hdocs Hk) as (l' & [= <-] & Hlt).
  destruct (lookup_lt_is_Some_2 h l) as [o Ho]; [lia|].
  exists o. split; [exact Ho|].
  unfold documents_of. rewrite Hk, <- Hdoc, Ho. reflexivity.
Qed.

(** The object [build] returns, once its children are written. *)
Lemma to_json_node (h' : list Obj) (stack : list nat) (l : nat) (d : Document)
    (cs : list Val) (js : list json) (fuel : nat) :
  h' !! l = Some (mkObj d (Some cs)) ->
  ~ In l stack ->
  collect (map (to_json sep fuel h' (l :: stack)) cs) = Some (Ok js) ->
  to_json sep (S fuel) h' stack (VObj l)
  = Some (Ok (JObj (doc_members d ++ [("children", JArr js)]))).
Proof.
  intros Hl Hst Hc. cbn [to_json]. rewrite (existsb_eqb_false _ _ Hst), Hl.
  cbn [children doc]. now rewrite Hc.
Qed.

Lemma builds_key (k : string) (s : json) :
  (s = JStr k) -> builds sep store parent h0 s.
Proof.
  intros -> _ w Hsame. cbn [build to_key refs warnings_ref] in *.
  unfold bind at 1. rewrite hasOwnProperty_plain. unfold Object.has.
  unfold denotes, returned. cbn [build_ref head_key to_key refs].
  unfold ref_of in *.
  destruct (FS.assoc k store) as [v|] eqn:Hk.
  - destruct (holds_documents_assoc _ _ _ _ Hdocs Hk) as (l & -> & Hlt).
    destruct (documents_lookup _ _ _ Hsame Hk) as (o & Ho & HD).
    rewrite HD. cbn [option_map].
    eexists. eexists. split; [reflexivity|]. cbn [trace fs confirm heap].
    split; [now rewrite List.app_nil_r|]. split; [reflexivity|]. split; [reflexivity|].
    split; [now apply same_docs_set|]. split; [|split; [reflexivity|]].
    + intros l' Hl'. apply list_lookup_alter_ne. intros ->. apply Hl'. now left.
    + intros _. split; [reflexivity|]. intros h' stack fuel Hag Hst Hf.
      destruct fuel as [|fuel]; [cbn in Hf; lia|].
      apply to_json_node with (cs := []); [| apply Hst; now left | reflexivity].
      rewrite <- Hag by now left. rewrite list_lookup_alter_eq, Ho. reflexivity.
  - assert (HD : documents_of h0 store k = None).
    { unfold documents_of. now rewrite Hk. }
    rewrite HD. cbn [option_map].
    eexists. eexists. split; [reflexivity|]. cbn [trace fs confirm heap logged].
    split; [reflexivity|]. split; [reflexivity|]. split; [reflexivity|].
    split; [exact Hsame|]. split; [reflexivity|]. split; [exact I | intros _; exact I].
Qed.

Lemma NoDup_app_parts (a b : list nat) :
  NoDup (a ++ b) -> NoDup a /\ NoDup b /\ forall l, In l a -> ~ In l b.
Proof.
  intros H. apply NoDup_app in H as (Ha & Hdis & Hb).
  split; [exact Ha|]. split; [exact Hb|].
  intros l Hl Hlb. apply (Hdis l); now apply list_elem_of_In.
Qed.

(** The children of a node, built one after the other. *)
Lemma builds_children (rest : list json) :
  Forall (builds sep store parent h0) rest ->
  forallb is_structure rest = true ->
  forall w, same_docs h0 (heap w) ->
  exists rs w',
    mapM (fun block => build store block parent) rest w = (Ok rs, w') /\
    trace w' = trace w ++ flat_map (warnings_ref (documents_of h0 store) parent) rest /\
    fs w' = fs w /\
    confirm w' = confirm w /\
    same_docs h0 (heap w') /\
    (forall l, ~ In l (flat_map (refs store) rest) -> heap w' !! l = heap w !! l) /\
    Forall2 (returned store (documents_of h0 store)) rest rs /\
    (NoDup (flat_map (refs store) rest) ->
     Forall2 (denotes sep store (documents_of h0 store) (heap w')) rest rs).
Proof.
  induction 1 as [|s rest Hs _ IH]; intros Hwf w Hsame.
  - exists [], w. cbn [flat_map]. rewrite List.app_nil_r.
    repeat (split; [reflexivity || exact Hsame|]). split; [constructor|].
    intros _. constructor.
  - cbn [forallb] in Hwf. apply andb_prop in Hwf as [Hwf1 Hwf2].
    destruct (Hs Hwf1 w Hsame)
      as (r & w1 & Hrun & Htr & Hfs & Hcf & Hsame1 & Hfr & Hret & Hden).
    destruct (IH Hwf2 w1 Hsame1)
      as (rs & w2 & Hrun2 & Htr2 & Hfs2 & Hcf2 & Hsame2 & Hfr2 & Hret2 & Hden2).
    exists (r :: rs), w2. rewrite mapM_cons. unfold bind at 1. rewrite Hrun.
    unfold bind at 1. rewrite Hrun2. split; [reflexivity|].
    split; [cbn [flat_map]; rewrite Htr2, Htr; now rewrite <- List.app_assoc|].
    split; [congruence|]. split; [congruence|]. split; [exact Hsame2|].
    split; [|split; [now constructor|]].
    + intros l Hl. cbn [flat_map] in Hl. rewrite Hfr2, Hfr; auto.
      all: intros Hin; apply Hl, in_or_app; auto.
    + cbn [flat_map]. intros Hnd.
      apply NoDup_app_parts in Hnd as (Hnd1 & Hnd2 & Hdis).
      constructor; [|exact (Hden2 Hnd2)].
      eapply denotes_agree; [exact (Hden Hnd1)|].
      intros l Hl. symmetry. apply Hfr2. now apply Hdis.
Qed.

Lemma collect_denotes (h1 h' : list Obj) (stack : list nat) (fuel : nat)
    (rest : list json) (rs : list (option Val)) :
  Forall2 (denotes sep store (documents_of h0 store) h1) rest rs ->
  agree (flat_map (refs store) rest) h1 h' ->
  (forall l, In l (flat_map (refs store) rest) -> ~ In l stack) ->
  list_max (map tree_height (somes (map (build_ref (documents_of h0 store)) rest)))
  <= fuel ->
  collect (map (to_json sep fuel h' stack) (somes rs))
  = Some (Ok (map tree_json (somes (map (build_ref (documents_of h0 store)) rest)))).
Proof.
  induction 1 as [|s r rest rs Hden _ IH]; intros Hag Hst Hf; [reflexivity|].
  cbn [flat_map] in Hag, Hst.
  assert (Hag2 : agree (flat_map (refs store) rest) h1 h').
  { intros l Hl. apply Hag, in_or_app. now right. }
  assert (Hst2 : forall l, In l (flat_map (refs store) rest) -> ~ In l stack).
  { intros l Hl. apply Hst, in_or_app. now right. }
  unfold denotes in Hden. unfold somes in *. cbn [map flat_map] in *.
  destruct (build_ref (documents_of h0 store) s) as [t|], r as [v|];
    try contradiction; cbn [app map] in *.
  - destruct Hden as [_ Hj].
    change (Nat.max (tree_height t)
              (list_max (map tree_height
                 (flat_map (fun o : option Tree =>
                              match o with Some a => [a] | None => [] end)
                           (map (build_ref (documents_of h0 store)) rest)))) <= fuel)
      in Hf.
    apply Nat.max_lub_iff in Hf as [Hf1 Hf2].
    rewrite Hj; [| intros l Hl; apply Hag, in_or_app; now left
                 | intros l Hl; apply Hst, in_or_app; now left | exact Hf1 ].
    cbn [collect]. rewrite IH; auto.
  - apply IH; auto.
Qed.

Lemma builds_array (l : list json) :
  Forall (builds sep store parent h0) l -> builds sep store parent h0 (JArr l).
Proof.
  intros Hall Hwf w Hsame.
  destruct l as [|lead rest].
  { exists None, w. cbn [build warnings_ref]. rewrite List.app_nil_r.
    repeat (split; [reflexivity || exact Hsame|]). intros _. exact I. }
  cbn [is_structure] in Hwf. destruct lead as [| | |k| |]; try discriminate.
  apply List.Forall_cons_iff in Hall as [_ Hall].
  cbn [build to_key refs warnings_ref] in *.
  unfold bind at 1. rewrite hasOwnProperty_plain. unfold Object.has.
  unfold denotes, returned. cbn [build_ref head_key to_key refs].
  unfold ref_of in *.
  destruct (FS.assoc k store) as [v|] eqn:Hk.
  - destruct (holds_documents_assoc _ _ _ _ Hdocs Hk) as (l & -> & Hlt).
    destruct (documents_lookup _ _ _ Hsame Hk) as (o & Ho & HD).
    rewrite HD. cbn [option_map]. cbn [app].
    destruct (builds_children rest Hall Hwf w Hsame)
      as (rs & w1 & Hrun & Htr & Hfs & Hcf & Hsame1 & Hfr & Hret & Hden).
    unfold bind at 1. rewrite Hrun.
    eexists. eexists. split; [reflexivity|]. cbn [trace fs confirm heap].
    split; [exact Htr|]. split; [exact Hfs|]. split; [exact Hcf|].
    split; [now apply same_docs_set|]. split; [|split; [reflexivity|]].
    + intros l' Hl'. rewrite list_lookup_alter_ne; [apply Hfr|].
      * intros Hin. apply Hl'. now right.
      * intros ->. apply Hl'. now left.
    + intros Hnd. apply NoDup_cons in Hnd as [Hl Hnd]. rewrite list_elem_of_In in Hl.
      split; [reflexivity|]. intros h' stack fuel Hag Hst Hf.
      destruct fuel as [|fuel]; [cbn in Hf; lia|]. cbn [tree_height] in Hf.
      apply to_json_node with (cs := non_null rs).
      * rewrite <- Hag by now left. rewrite list_lookup_alter_eq, Hfr, Ho by exact Hl.
        reflexivity.
      * apply Hst. now left.
      * apply (collect_denotes (heap w1)); [exact (Hden Hnd) | | | lia].
        -- intros l' Hl'. rewrite <- Hag by now right.
           symmetry. apply list_lookup_alter_ne. intros ->. contradiction.
        -- intros l' Hl' [<-|Hin]; [contradiction|].
           apply (Hst l'); [now right | exact Hin].
  - assert (HD : documents_of h0 store k = None).
    { unfold documents_of. now rewrite Hk. }
    rewrite HD. cbn [option_map].
    eexists. eexists. split; [reflexivity|]. cbn [trace fs confirm heap logged].
    split; [reflexivity|]. split; [reflexivity|]. split; [reflexivity|].
    split; [exact Hsame|]. split; [reflexivity|]. split; [exact I | intros _; exact I].
Qed.

Lemma builds_every (s : json) : builds sep store parent h0 s.
Proof.
  induction s as [j Hj | l IH] using json_ind_list.
  - destruct j as [| b | r | k | l | m]; try (intros Hwf; discriminate).
    + now apply (builds_key k).
    + now destruct (Hj l).
  - now apply builds_array.
Qed.

End Builder.

(** C1 (as amended). For a mapping of Document objects that has no key
    hasOwnProperty of its own and every Structure, [build] returns null
    exactly when the reference definition does, with one warning for every
    key looked up and absent, and otherwise the value the mapping holds under
    the key of the node.  When the Structure names no object of the mapping
    twice, that value denotes (as [JSON.stringify] walks it) the tree of the
    reference: the document with the builds of the rest as children, in the
    order of the structure and nulls left out. *)
Theorem build_matches_reference (sep : string) (store : Mapping) (structure : json)
    (parent : string) (w : World) :
  is_structure structure = true ->
  Object.has "hasOwnProperty" store = false ->
  holds_documents (heap w) store = true ->
  exists r w',
    build store structure parent w = (Ok r, w') /\
    trace w' = trace w ++ warnings_ref (documents_of (heap w) store) parent structure /\
    fs w' = fs w /\
    returned store (documents_of (heap w) store) structure r /\
    (NoDup (refs store structure) ->
     match build_ref (documents_of (heap w) store) structure, r with
     | Some t, Some v =>
         forall fuel, tree_height t <= fuel ->
                      to_json sep fuel (heap w') [] v = Some (Ok (tree_json t))
     | _, _ => True
     end).
Proof.
  intros Hwf Hshadow Hdocs.
  destruct (builds_every sep store parent (heap w) Hshadow Hdocs structure Hwf w)
    as (r & w' & Hrun & Htr & Hfs & _ & _ & _ & Hret & Hden).
  { split; [reflexivity | intros; reflexivity]. }
  exists r, w'. split; [exact Hrun|]. split; [exact Htr|]. split; [exact Hfs|].
  split; [exact Hret|]. intros Hnd. specialize (Hden Hnd).
  unfold denotes in Hden.
  destruct (build_ref _ structure) as [t|], r as [v|]; auto.
  destruct Hden as [Hk Hj].
  intros fuel Hf. apply Hj; [intros l _; reflexivity | intros l _ [] | exact Hf].
Qed.

Lemma build_matches_reference_witness :
  exists r w',
    build SampleModule.mappings Shared.once "guide" SampleModule.world = (Ok r, w') /\
    trace w' = [Warn (MMissingChild "missing" "guide")] /\
    NoDup (refs SampleModule.mappings Shared.once).
Proof.
  destruct (build_matches_reference "/" SampleModule.mappings Shared.once "guide"
              SampleModule.world)
    as (r & w' & Hrun & Htr & _); [reflexivity | reflexivity | reflexivity |].
  exists r, w'. split; [exact Hrun|]. split; [exact Htr|].
  apply (bool_decide_unpack _). vm_compute. exact I.
Defined.

(** [build] on a structure that names advanced twice: both occurrences are
    the one object, whose children are written last as [tips], so the leaf
    occurrence is serialised with a child the reference does not give it.  A
    node that is its own child makes the result circular, and a mapping with
    a key hasOwnProperty makes [build] throw where the reference returns
    null. *)
Lemma build_shares_children :
  (exists v t j,
     fst (build SampleModule.mappings Shared.twice "guide" SampleModule.world)
     = Ok (Some v) /\
     build_ref (documents_of SampleModule.heap3 SampleModule.mappings) Shared.twice
     = Some t /\
     to_json "/" 4
       (heap (snd (build SampleModule.mappings Shared.twice "guide" SampleModule.world)))
       [] v = Some (Ok j) /\
     j <> tree_json t) /\
  (exists v,
     fst (build SampleModule.mappings Shared.itself "guide" SampleModule.world)
     = Ok (Some v) /\
     to_json "/" 4
       (heap (snd (build SampleModule.mappings Shared.itself "guide" SampleModule.world)))
       [] v = Some (Throw circular)) /\
  (build_ref (documents_of SampleModule.heap3 Shared.shadowed) (JStr "intro") = None /\
   fst (build Shared.shadowed (JStr "intro") "guide" SampleModule.world)
   = Throw (TypeError "store.hasOwnProperty is not a function")).
Proof.
  split; [|split].
  - eexists. eexists. eexists. split; [vm_compute; reflexivity|].
    split; [vm_compute; reflexivity|]. split; [vm_compute; reflexivity|].
    vm_compute. discriminate.
  - eexists. split; vm_compute; reflexivity.
  - split; vm_compute; reflexivity.
Qed.

(** ** The fuel of the serialiser *)

Lemma collect_not_starved (l : list (option (result json))) :
  (forall x, In x l -> x <> None) -> collect l <> None.
Proof.
  induction l as [|x l IH]; intros Hall; cbn [collect]; [discriminate|].
  destruct x as [[j|e]|].
  - destruct (collect l) as [[js|e]|] eqn:Hc; try discriminate.
    exfalso. apply IH; [|reflexivity]. intros y Hy. apply Hall. now right.
  - discriminate.
  - exfalso. apply (Hall None); [now left | reflexivity].
Qed.

Lemma stack_bounded (stack : list nat) (n : nat) :
  List.NoDup stack -> (forall l, In l stack -> l < n) -> length stack <= n.
Proof.
  intros Hnd Hlt. rewrite <- (List.length_seq n 0).
  apply List.NoDup_incl_length; [exact Hnd|].
  intros l Hl. apply in_seq. specialize (Hlt l Hl). lia.
Qed.

(** The objects on the stack are distinct objects of the heap, so a fuel
    above the size of the heap is never used up. *)
Lemma to_json_not_starved (sep : string) (h : list Obj) (fuel : nat) :
  forall (stack : list nat) (v : Val),
    List.NoDup stack ->
    (forall l, In l stack -> l < length h) ->
    length h < fuel + length stack ->
    to_json sep fuel h stack v <> None.
Proof.
  induction fuel as [|fuel IH]; intros stack v Hnd Hlt Hfuel.
  - pose proof (stack_bounded stack (length h) Hnd Hlt). simpl in Hfuel. lia.
  - destruct v as [l|p]; [|discriminate]. cbn [to_json].
    destruct (existsb (Nat.eqb l) stack) eqn:Hin; [discriminate|].
    destruct (h !! l) as [o|] eqn:Hl; [|discriminate].
    destruct (children o) as [cs|]; [|discriminate].
    assert (Hc : collect (map (to_json sep fuel h (l :: stack)) cs) <> None).
    { apply collect_not_starved. intros x Hx.
      apply in_map_iff in Hx as (c & <- & _). apply IH.
      - constructor; [|exact Hnd]. intros Hl'.
        assert (existsb (Nat.eqb l) stack = true); [|congruence].
        apply existsb_exists. exists l. split; [exact Hl' | apply Nat.eqb_refl].
      - intros l' [<-|Hl']; [|now apply Hlt].
        apply lookup_lt_is_Some_1. now exists o.
      - simpl. lia. }
    destruct (collect _) as [[js|e]|]; [discriminate | discriminate | contradiction].
Qed.

(** [stringify_model] never runs out of fuel. *)
Lemma stringify_model_fuel (sep : string) (w : World) (model : list Val) :
  collect (map (to_json sep (S (length (heap w))) (heap w) []) model) <> None.
Proof.
  apply collect_not_starved. intros x Hx.
  apply in_map_iff in Hx as (v & <- & _).
  apply to_json_not_starved; [constructor | intros l [] | simpl; lia].
Qed.

(** ** The key of a directory, in general *)

Lemma concat_nil_cons (x : string) (l : list string) :
  String.concat "" (x :: l) = x +:+ String.concat "" l.
Proof.
  destruct l as [|y l]; cbn [String.concat].
  - induction x as [|a x IH]; [reflexivity|]. rewrite app_cons. now f_equal.
  - reflexivity.
Qed.

Lemma rel_text_cons (sep c : string) (rel : Path) :
  rel_text sep (c :: rel) = sep +:+ c +:+ rel_text sep rel.
Proof. unfold rel_text. cbn [map]. now rewrite concat_nil_cons, app_assoc_s. Qed.

Lemma rel_text_app (sep : string) (p q : Path) :
  rel_text sep (p ++ q) = rel_text sep p +:+ rel_text sep q.
Proof.
  induction p as [|c p IH]; [reflexivity|].
  cbn [app]. now rewrite !rel_text_cons, IH, !app_assoc_s.
Qed.

Lemma show_rel_text (sep : string) (p : Path) :
  p <> [] -> Path.show sep p = rel_text sep p.
Proof. destruct p; [contradiction | reflexivity]. Qed.

Lemma show_below (sep : string) (root rel : Path) :
  root <> [] -> Path.show sep (root ++ rel) = Path.show sep root +:+ rel_text sep rel.
Proof.
  intros Hr. rewrite !show_rel_text, rel_text_app; auto.
  destruct root; [contradiction | discriminate].
Qed.

Lemma replace_first_eq (pat rep s : string) :
  Str.replace_first pat rep s =
  if Str.startsWith pat s then rep +:+ Str.drop (String.length pat) s
  else match s with
       | EmptyString => EmptyString
       | String c s' => String c (Str.replace_first pat rep s')
       end.
Proof. destruct s; reflexivity. Qed.

Lemma replace_first_prefix (pat rest : string) :
  Str.replace_first pat "" (pat +:+ rest) = rest.
Proof. now rewrite replace_first_eq, startsWith_app, drop_app. Qed.

Lemma free_of_app (c : ascii) (a b : string) :
  free_of c (a +:+ b) = free_of c a && free_of c b.
Proof.
  induction a as [|x a IH]; [reflexivity|].
  rewrite app_cons. cbn [free_of]. now rewrite IH, andb_assoc.
Qed.

Lemma replace_all_free (c : ascii) (rep s : string) :
  free_of c s = true -> Str.replace_all c rep s = s.
Proof.
  induction s as [|a s IH]; [reflexivity|].
  cbn [free_of Str.replace_all]. intros H. apply andb_prop in H as [Ha Hs].
  apply negb_true_iff in Ha. rewrite Ha. now rewrite IH.
Qed.

Lemma replace_all_app (c : ascii) (rep a b : string) :
  Str.replace_all c rep (a +:+ b) = Str.replace_all c rep a +:+ Str.replace_all c rep b.
Proof.
  induction a as [|x a IH]; [reflexivity|].
  rewrite app_cons. cbn [Str.replace_all].
  destruct (Ascii.eqb x c); rewrite IH; [now rewrite app_assoc_s | reflexivity].
Qed.

Lemma rel_text_slash_free (rel : Path) :
  Forall (fun c => free_of Str.backslash c = true) rel ->
  free_of Str.backslash (rel_text "/" rel) = true.
Proof.
  induction 1 as [|c rel Hc _ IH]; [reflexivity|].
  rewrite rel_text_cons, !free_of_app, Hc, IH. reflexivity.
Qed.

Lemma rel_text_slash_start (rel : Path) :
  Str.startsWith "\" (rel_text "/" rel) = false.
Proof. destruct rel as [|c rel]; [reflexivity|]. now rewrite rel_text_cons. Qed.

Lemma replace_backslashes (rel : Path) :
  Forall (fun c => free_of Str.backslash c = true) rel ->
  Str.replace_all Str.backslash "." (rel_text "\" rel) = rel_text "." rel.
Proof.
  induction 1 as [|c rel Hc _ IH]; [reflexivity|].
  rewrite !rel_text_cons, !replace_all_app, IH, (replace_all_free _ _ c Hc).
  reflexivity.
Qed.

(** C6. With the separator [/] the key of a directory below the root is the
    text of the relative path as it stands, the leading separator kept and
    no separator replaced; with the separator [\] it is the dotted relative
    path.  For /docs/guide/pages/img under /docs: [/guide/pages/img]. *)
Theorem dir_key_by_separator (root rel : Path) :
  root <> [] ->
  Forall (fun c => free_of Str.backslash c = true) rel ->
  dir_key (Path.show "/" root) (Path.show "/" (root ++ rel)) = rel_text "/" rel /\
  dir_key (Path.show "\" root) (Path.show "\" (root ++ rel))
  = Str.drop 1 (rel_text "." rel).
Proof.
  intros Hroot Hrel. unfold dir_key. rewrite !show_below, !replace_first_prefix by auto.
  split.
  - rewrite rel_text_slash_start. apply replace_all_free. now apply rel_text_slash_free.
  - destruct rel as [|c rel]; [reflexivity|].
    apply List.Forall_cons_iff in Hrel as [Hc Hrel].
    rewrite !rel_text_cons, startsWith_app, !app_cons, !app_nil_l.
    cbn [Str.drop].
    rewrite replace_all_app, (replace_all_free _ _ c Hc), replace_backslashes by auto.
    reflexivity.
Qed.

Lemma dir_key_by_separator_witness :
  dir_key (Path.show "/" ["docs"]) (Path.show "/" ["docs"; "guide"; "pages"; "img"])
  = "/guide/pages/img" /\
  dir_key (Path.show "\" ["docs"]) (Path.show "\" ["docs"; "guide"; "pages"; "img"])
  = "guide.pages.img".
Proof.
  apply (dir_key_by_separator ["docs"] ["guide"; "pages"; "img"]);
    [discriminate | repeat constructor].
Defined.

(** The mapping the two-level Content Resolver returns for the content
    directory of the sample site with assets, with the separator [/]. *)
Lemma resolve000_slash_key :
  fst (resolve000 "/" Sample.options Sample.render Sample.upper ["docs"; "guide"; "pages"]
                  (Sample.world Sample.site_with_assets))
  = Ok [("intro", VObj 0); ("advanced", VObj 1); ("tips", VObj 2);
        ("/guide/pages/img", VDir ["docs"; "guide"; "pages"; "img"])].
Proof. reflexivity. Qed.

(** * Further properties of the programs *)

(** ** Observations a computation keeps *)

Section Keeps.

Context {X : Type} (f : World -> X).
Hypothesis f_logged : forall e w, f (logged e w) = f w.

Lemma keeps_ret {A} (a : A) : keeps f (ret a).
Proof. intros w. reflexivity. Qed.

Lemma keeps_throw {A} (e : error) : keeps f (@throw A e).
Proof. intros w. reflexivity. Qed.

Lemma keeps_lift {A} (r : result A) : keeps f (lift r).
Proof. intros w. reflexivity. Qed.

Lemma keeps_with_fs {A} (g : node -> result A) : keeps f (with_fs g).
Proof. intros w. reflexivity. Qed.

Lemma keeps_event (e : event) : keeps f (emit_event e).
Proof. intros w. apply f_logged. Qed.

Lemma keeps_bind {A B} (m : M A) (k : A -> M B) :
  keeps f m -> (forall a, keeps f (k a)) -> keeps f (bind m k).
Proof.
  intros Hm Hk w. unfold bind. specialize (Hm w).
  destruct (m w) as [[a|e] w1]; cbn [snd] in *; [|exact Hm].
  now rewrite Hk.
Qed.

Lemma keeps_try_catch {A} (m : M A) (handler : error -> M A) :
  keeps f m -> (forall e, keeps f (handler e)) -> keeps f (try_catch m handler).
Proof.
  intros Hm Hh w. unfold try_catch. specialize (Hm w).
  destruct (m w) as [[a|e] w1]; cbn [snd] in *; [exact Hm|].
  now rewrite Hh.
Qed.

Lemma keeps_mapM {A B} (g : A -> M B) (l : list A) :
  Forall (fun x => keeps f (g x)) l -> keeps f (mapM g l).
Proof.
  induction 1 as [|x l Hx _ IH]; [apply keeps_ret|].
  change (mapM g (x :: l)) with (do y <- g x; do ys <- mapM g l; ret (y :: ys)).
  apply keeps_bind; [exact Hx|]. intros y.
  apply keeps_bind; [exact IH|]. intros ys. apply keeps_ret.
Qed.

Lemma keeps_promise_all {A} (ms : list (M A)) :
  Forall (keeps f) ms -> keeps f (promise_all ms).
Proof.
  induction 1 as [|m ms Hm _ IH]; intros w; cbn [promise_all]; [reflexivity|].
  specialize (Hm w). destruct (m w) as [r w1]. specialize (IH w1).
  destruct (promise_all ms w1) as [rs w2]. cbn [snd] in *. congruence.
Qed.

Lemma keeps_promise_all_map {A B} (g : A -> M B) (l : list A) :
  (forall x, keeps f (g x)) -> keeps f (promise_all (map g l)).
Proof.
  intros Hg. apply keeps_promise_all, List.Forall_forall. intros m Hm.
  apply in_map_iff in Hm as (x & <- & _). apply Hg.
Qed.

Lemma keeps_spawn_all (ms : list (M unit)) :
  Forall (keeps f) ms -> keeps f (spawn_all ms).
Proof.
  induction 1 as [|m ms Hm _ IH]; intros w; cbn [spawn_all]; [reflexivity|].
  specialize (Hm w). destruct (m w) as [r w1]. cbn [snd] in Hm.
  set (w1' := match r with Ok _ => w1 | Throw e => logged (Unhandled e) w1 end).
  assert (H1 : f w1' = f w).
  { subst w1'. destruct r; [exact Hm | now rewrite f_logged]. }
  specialize (IH w1'). destruct (spawn_all ms w1') as [[rs|e] w2]; cbn [snd] in *;
    congruence.
Qed.

End Keeps.

Create HintDb keeps.

#[local] Hint Resolve keeps_ret keeps_throw keeps_lift keeps_with_fs keeps_event : keeps.

Ltac keeps_step :=
  lazymatch goal with
  | |- keeps _ (bind _ _) => apply keeps_bind; [|intros ?]
  | |- keeps _ (try_catch _ _) => apply keeps_try_catch; [|intros ?]
  | |- keeps _ (promise_all (map _ _)) => apply keeps_promise_all_map; intros ?
  | |- keeps _ (if ?b then _ else _) => destruct b
  | |- keeps _ (match ?x with _ => _ end) => destruct x
  | |- keeps _ _ => solve [auto with keeps]
  end.

(** ** What the Tree Builder touches *)

Lemma documents_alter (h : list Obj) (l : nat) (cs : list Val) :
  map doc (alter (fun o => mkObj (doc o) (Some cs)) l h) = map doc h.
Proof.
  revert l. induction h as [|o h IH]; intros l; [reflexivity|].
  destruct l as [|l]; cbn [alter list_alter map]; [reflexivity|].
  f_equal. apply IH.
Qed.

Section KeepsBuild.

Context {X : Type} (f : World -> X).
Hypothesis f_logged : forall e w, f (logged e w) = f w.
Hypothesis f_children :
  forall l cs w,
    f (mkWorld (alter (fun o => mkObj (doc o) (Some cs)) l (heap w))
               (fs w) (trace w) (confirm w)) = f w.

Lemma keeps_set_children (element : Val) (cs : list Val) :
  keeps f (set_children element cs).
Proof. intros w. destruct element; [apply f_children | reflexivity]. Qed.

Lemma keeps_hasOwnProperty (store : Mapping) (k : string) :
  keeps f (hasOwnProperty store k).
Proof. unfold hasOwnProperty. destruct (Object.has _ store); intros w; reflexivity. Qed.

Lemma keeps_lookup_then {A} (store : Mapping) (k : string)
    (present : Val -> M A) (absent : M A) :
  (forall element, keeps f (present element)) -> keeps f absent ->
  keeps f (do found <- hasOwnProperty store k;
           match found, FS.assoc k store with
           | true, Some element => present element
           | _, _ => absent
           end).
Proof.
  intros Hp Ha. apply keeps_bind; [apply keeps_hasOwnProperty|].
  intros found. destruct found, (FS.assoc k store); auto.
Qed.

Lemma keeps_build (store : Mapping) (parent : string) (structure : json) :
  keeps f (build store structure parent).
Proof.
  assert (Habsent : forall k, keeps f (warn (MMissingChild k parent);; ret (@None Val))).
  { intros k. apply keeps_bind; [now apply keeps_event | intros; apply keeps_ret]. }
  assert (Hleaf : forall k,
            keeps f (do found <- hasOwnProperty store k;
                     match found, FS.assoc k store with
                     | true, Some element => set_children element [];; ret (Some element)
                     | _, _ => warn (MMissingChild k parent);; ret None
                     end)).
  { intros k. apply keeps_lookup_then; [|apply Habsent]. intros element.
    apply keeps_bind; [apply keeps_set_children | intros; apply keeps_ret]. }
  induction structure as [j Hj | l IH] using json_ind_list.
  - destruct j as [| b | r | k | l | m]; try apply Hleaf. now destruct (Hj l).
  - destruct l as [|lead rest]; [apply keeps_ret|].
    apply List.Forall_cons_iff in IH as [_ IH].
    cbn [build]. apply keeps_lookup_then; [|apply Habsent]. intros element.
    apply keeps_bind; [now apply keeps_mapM|]. intros built.
    apply keeps_bind; [apply keeps_set_children | intros; apply keeps_ret].
Qed.

Lemma keeps_build_all (module : string) (contents : Mapping * json) :
  keeps f (build_all module contents).
Proof.
  unfold build_all. destruct (snd contents); try apply keeps_throw.
  apply keeps_bind; [|intros; apply keeps_ret].
  apply keeps_mapM, List.Forall_forall. intros block _. apply keeps_build.
Qed.

End KeepsBuild.

(** X1. Whatever the mapping and whatever JSON value stands for the
    structure, and whether it returns or throws, [build] leaves the file
    system and the documents of the heap (id, title, about and content of
    every object, and their number) as they were: it writes nothing but
    [children]. *)
Theorem build_only_writes_children (store : Mapping) (structure : json)
    (parent : string) (w : World) :
  fs (snd (build store structure parent w)) = fs w /\
  documents (snd (build store structure parent w)) = documents w.
Proof.
  split.
  - apply (keeps_build fs); reflexivity.
  - apply (keeps_build documents); [reflexivity|].
    intros l cs w0. apply documents_alter.
Qed.

(** ** Where the single-level program writes *)

Lemma update_find_diverge (g : option node -> result node) (p q : Path)
    (n n' : node) :
  FS.update g n p = Ok n' -> diverge p q = true -> FS.find n' q = FS.find n q.
Proof.
  revert q n n'. induction p as [|a p IH]; intros q n n' Hu Hd; [discriminate|].
  destruct q as [|b q]; [discriminate|]. cbn [diverge] in Hd.
  cbn [FS.update] in Hu. destruct n as [|es]; [discriminate|].
  assert (Hput : forall x, FS.find (Dir (FS.put a x es)) (b :: q)
                           = match FS.assoc b (FS.put a x es) with
                             | Some y => FS.find y q
                             | None => Throw ENOENT
                             end) by reflexivity.
  destruct (String.eqb a b) eqn:Hab.
  - apply String.eqb_eq in Hab. subst b.
    destruct (FS.assoc a es) as [m|] eqn:Hm.
    + assert (Hu' : match FS.update g m p with
                    | Ok x => Ok (Dir (FS.put a x es))
                    | Throw e => Throw e
                    end = Ok n') by (destruct p; exact Hu).
      destruct (FS.update g m p) as [x|] eqn:Hx; [|discriminate].
      injection Hu' as <-. rewrite Hput, assoc_put_eq. cbn [FS.find]. rewrite Hm.
      now apply IH.
    + destruct p; discriminate.
  - assert (Hne : b <> a).
    { intros ->. now rewrite String.eqb_refl in Hab. }
    assert (Hres : exists x, n' = Dir (FS.put a x es)).
    { destruct p, (FS.assoc a es); try discriminate.
      - destruct (FS.update g n []); [injection Hu as <-; eauto | discriminate].
      - destruct (g None); [injection Hu as <-; eauto | discriminate].
      - destruct (FS.update g n (s :: p)); [injection Hu as <-; eauto | discriminate]. }
    destruct Hres as [x ->]. rewrite Hput, assoc_put_ne by exact Hne. reflexivity.
Qed.

Lemma diverge_below (t q : Path) (name : string) :
  diverge t q = true -> diverge (t ++ [name]) q = true.
Proof.
  revert q. induction t as [|a t IH]; intros q H; [discriminate|].
  destruct q as [|b q]; [discriminate|]. cbn [app diverge] in *.
  destruct (String.eqb a b); [now apply IH | reflexivity].
Qed.

Lemma keeps_change_fs {X} (f : World -> X) (g : node -> result node) :
  (forall w n, g (fs w) = Ok n ->
               f (mkWorld (heap w) n (trace w) (confirm w)) = f w) ->
  keeps f (change_fs g).
Proof.
  intros H w. unfold change_fs. destruct (g (fs w)) eqn:Hg; [now apply H | reflexivity].
Qed.

Lemma keeps_stringify_model {X} (f : World -> X) (sep gap : string) (model : list Val) :
  keeps f (stringify_model sep gap model).
Proof.
  intros w. unfold stringify_model. now destruct (collect _) as [[js|e]|].
Qed.

Section KeepsDiscover.

Context {X : Type} (f : World -> X).
Hypothesis f_logged : forall e w, f (logged e w) = f w.
Hypothesis f_alloc : forall o w, f (allocated o w) = f w.

Variable sep : string.
Variable options : Options.
Variable JSON_parse : string -> option json.
Variable md_render : string -> string.
Variable toUpperCase : string -> string.

Lemma keeps_alloc (o : Obj) : keeps f (alloc o).
Proof. intros w. apply f_alloc. Qed.

Lemma keeps_info (m : message) : keeps f (info m).
Proof. now apply keeps_event. Qed.

Lemma keeps_warn (m : message) : keeps f (warn m).
Proof. now apply keeps_event. Qed.

Lemma keeps_listing location : keeps f (listing options location).
Proof. unfold listing. repeat keeps_step. Qed.

Lemma keeps_read001 location : keeps f (read001 md_render toUpperCase location).
Proof.
  unfold read001. repeat first [ apply keeps_info | apply keeps_alloc | keeps_step ].
Qed.

Lemma keeps_read000 location : keeps f (read000 md_render toUpperCase location).
Proof.
  unfold read000. repeat first [ apply keeps_info | apply keeps_alloc | keeps_step ].
Qed.

Lemma keeps_resolve001 location : keeps f (resolve001 sep options md_render toUpperCase location).
Proof.
  unfold resolve001.
  repeat first [ apply keeps_info | apply keeps_listing | apply keeps_read001 | keeps_step ].
Qed.

Lemma keeps_resolve000 location : keeps f (resolve000 sep options md_render toUpperCase location).
Proof.
  unfold resolve000.
  repeat first [ apply keeps_info | apply keeps_listing | apply keeps_read000 | keeps_step ].
Qed.

Lemma keeps_traverse {A} location (action : Path -> M (option A)) :
  (forall l, keeps f (action l)) -> keeps f (traverse options location action).
Proof.
  intros Ha. unfold traverse.
  repeat first [ apply keeps_warn | apply Ha | keeps_step ].
Qed.

Lemma keeps_explore (resolve : Path -> M Mapping) location :
  (forall l, keeps f (resolve l)) ->
  keeps f (explore options JSON_parse resolve location).
Proof.
  intros Hr. unfold explore.
  repeat first [ apply keeps_info | apply keeps_warn | apply keeps_listing
               | apply keeps_traverse; intros ? | apply Hr | keeps_step ].
Qed.

Lemma keeps_discover (resolve : Path -> M Mapping) :
  (forall l, keeps f (resolve l)) ->
  keeps f (discover options JSON_parse resolve).
Proof.
  intros Hr. unfold discover.
  repeat first [ apply keeps_traverse; intros ?
               | apply keeps_explore; exact Hr | keeps_step ].
Qed.

Lemma keeps_crawl (resolve : Path -> M Mapping)
    (emit : string -> Mapping * json -> M unit) :
  (forall l, keeps f (resolve l)) ->
  (forall module contents, keeps f (emit module contents)) ->
  keeps f (crawl options JSON_parse resolve emit).
Proof.
  intros Hr He. unfold crawl.
  apply keeps_bind; [now apply keeps_discover|]. intros results.
  apply keeps_bind; [now apply keeps_event|]. intros _.
  apply keeps_spawn_all; [exact f_logged|].
  apply List.Forall_forall. intros m Hm.
  apply in_map_iff in Hm as (mc & <- & _). apply He.
Qed.

End KeepsDiscover.

Section KeepsEmit.

Context {X : Type} (f : World -> X).
Hypothesis f_logged : forall e w, f (logged e w) = f w.
Hypothesis f_alloc : forall o w, f (allocated o w) = f w.
Hypothesis f_children :
  forall l cs w,
    f (mkWorld (alter (fun o => mkObj (doc o) (Some cs)) l (heap w))
               (fs w) (trace w) (confirm w)) = f w.

Variable sep : string.
Variable options : Options.
Variable JSON_parse : string -> option json.
Variable md_render : string -> string.
Variable toUpperCase : string -> string.
Variable detectFile : Path -> result string.
Variable sizeOf : Path -> result json.
Variable toLowerCase : string -> string.
Variable copy : node -> Path -> Path -> result node.

Hypothesis f_mkdir : keeps f (change_fs (fun n => FS.mkdir n (target options))).
Hypothesis f_write :
  forall name text,
    keeps f (change_fs (fun n => FS.writeFile n (target options ++ [name]) text)).
Hypothesis f_copy :
  forall src dst, keeps f (change_fs (fun n => copy n src dst)).

Lemma keeps_emit001 module contents : keeps f (emit001 sep options module contents).
Proof.
  unfold emit001, mkdir_unless_exists.
  repeat first [ apply keeps_info | apply keeps_build_all | apply keeps_stringify_model
               | apply f_mkdir | apply f_write | keeps_step ]; auto.
Qed.

Lemma keeps_main001 inquiry :
  keeps f (main001 sep options JSON_parse md_render toUpperCase inquiry).
Proof.
  unfold main001, run001, crawl001.
  apply keeps_try_catch; [|intros; now apply keeps_event].
  apply keeps_bind; [now apply keeps_event|]. intros _.
  destruct (negb inquiry); [apply keeps_ret|].
  apply keeps_bind; [|intros; apply keeps_ret].
  apply keeps_crawl; auto.
  - intros l. now apply keeps_resolve001.
  - intros module contents. apply keeps_emit001.
Qed.

Lemma keeps_probe dir asset : keeps f (probe sep detectFile sizeOf toLowerCase dir asset).
Proof. unfold probe. repeat keeps_step; auto with keeps. Qed.

Lemma keeps_log_properties keys metaTarget : keeps f (log_properties keys metaTarget).
Proof. unfold log_properties. repeat first [ apply keeps_info | keeps_step ]; auto. Qed.

Lemma keeps_collect_meta move metaTarget :
  keeps f (collect_meta sep options detectFile sizeOf toLowerCase copy move metaTarget).
Proof.
  unfold collect_meta.
  repeat first [ apply keeps_info | apply keeps_probe | apply keeps_log_properties
               | apply f_copy | keeps_step ]; auto with keeps.
Qed.

Lemma keeps_emit000 module contents :
  keeps f (emit000 sep options detectFile sizeOf toLowerCase copy module contents).
Proof.
  unfold emit000.
  apply keeps_bind; [now apply keeps_info|]. intros _.
  apply keeps_bind; [now apply keeps_build_all|]. intros model.
  apply keeps_bind; [apply keeps_stringify_model|]. intros result.
  apply keeps_bind; [apply keeps_collect_meta|]. intros meta.
  apply keeps_bind; [|intros; now apply keeps_info].
  apply keeps_promise_all. repeat constructor; apply f_write.
Qed.

Lemma keeps_crawl000 :
  keeps f (crawl000 sep options JSON_parse md_render toUpperCase detectFile sizeOf
      toLowerCase copy).
Proof.
  unfold crawl000. apply keeps_crawl; auto.
  - intros l. now apply keeps_resolve000.
  - intros module contents. apply keeps_emit000.
Qed.

End KeepsEmit.

(** X2. The single-level program, whatever it is given and however it ends,
    changes nothing outside its target directory: every path that is not the
    target, not above it and not below it names after the run what it named
    before. *)
Theorem single_level_writes_under_target (sep : string) (options : Options)
    (JSON_parse : string -> option json) (md_render toUpperCase : string -> string)
    (inquiry : bool) (w : World) (q : Path) :
  diverge (target options) q = true ->
  FS.find (fs (snd (main001 sep options JSON_parse md_render toUpperCase inquiry w))) q
  = FS.find (fs w) q.
Proof.
  intros Hq.
  apply (keeps_main001 (fun w => FS.find (fs w) q)); try reflexivity.
  - apply keeps_change_fs. intros w0 n Hn. cbn [fs].
    exact (update_find_diverge _ _ _ _ _ Hn Hq).
  - intros name text. apply keeps_change_fs. intros w0 n Hn. cbn [fs].
    exact (update_find_diverge _ _ _ _ _ Hn (diverge_below _ _ name Hq)).
Qed.

Lemma single_level_writes_under_target_witness :
  FS.find
    (fs (snd (main001 "/" Sample.options Sample.parse Sample.render Sample.upper true
                      (Sample.world Sample.site))))
    ["docs"; "guide"; "pages"; "intro.md"]
  = Ok (File "Intro").
Proof.
  rewrite (single_level_writes_under_target "/" Sample.options Sample.parse
             Sample.render Sample.upper true (Sample.world Sample.site)
             ["docs"; "guide"; "pages"; "intro.md"]); reflexivity.
Defined.

(** ** The confirmation of the two-level program *)

Lemma keeps_confirm_rest (sep : string) (options : Options)
    (JSON_parse : string -> option json) (md_render toUpperCase : string -> string)
    (detectFile : Path -> result string) (sizeOf : Path -> result json)
    (toLowerCase : string -> string) (copy : node -> Path -> Path -> result node) :
  keeps confirm
    (mkdir_target000 options;;
     crawl000 sep options JSON_parse md_render toUpperCase detectFile sizeOf toLowerCase
         copy;; ret tt).
Proof.
  assert (Hfs : forall g, keeps confirm (change_fs g)).
  { intros g. apply keeps_change_fs. reflexivity. }
  apply keeps_bind.
  - unfold mkdir_target000. repeat keeps_step; auto with keeps.
  - intros _. apply keeps_bind; [|intros; apply keeps_ret].
    apply keeps_crawl000; try reflexivity; intros; apply Hfs.
Qed.

Lemma run000_cases (sep : string) (options : Options)
    (JSON_parse : string -> option json) (md_render toUpperCase : string -> string)
    (detectFile : Path -> result string) (sizeOf : Path -> result json)
    (toLowerCase : string -> string) (copy : node -> Path -> Path -> result node)
    (inquiry : bool) (w : World) :
  run000 sep options JSON_parse md_render toUpperCase detectFile sizeOf toLowerCase copy
      inquiry w =
  let rest := (mkdir_target000 options;;
               crawl000 sep options JSON_parse md_render toUpperCase detectFile sizeOf
                   toLowerCase copy;; ret tt) in
  if confirm w then rest w
  else if inquiry
       then rest (mkWorld (heap w) (fs w) (trace w ++ [Line]) true)
       else (Ok tt, logged Line w).
Proof.
  unfold run000, bind. destruct (confirm w), inquiry; reflexivity.
Qed.

(** X3. In the two-level program the confirmation, once given, stays: after
    a run, however it ends, [options.confirm] is what it was or the answer to
    the prompt; and a run that starts confirmed does not depend on the
    answer, the prompt is skipped. *)
Theorem two_level_confirmation (sep : string) (options : Options)
    (JSON_parse : string -> option json) (md_render toUpperCase : string -> string)
    (detectFile : Path -> result string) (sizeOf : Path -> result json)
    (toLowerCase : string -> string) (copy : node -> Path -> Path -> result node)
    (inquiry : bool) (w : World) :
  confirm (snd (main000 sep options JSON_parse md_render toUpperCase detectFile sizeOf
      toLowerCase copy inquiry w))
  = confirm w || inquiry /\
  (confirm w = true ->
   main000 sep options JSON_parse md_render toUpperCase detectFile sizeOf toLowerCase copy
       inquiry w
   = main000 sep options JSON_parse md_render toUpperCase detectFile sizeOf toLowerCase
       copy (negb inquiry) w).
Proof.
  pose proof (keeps_confirm_rest sep options JSON_parse md_render toUpperCase detectFile
      sizeOf toLowerCase copy)
    as Hrest.
  split.
  - assert (Hrun : confirm (snd (run000 sep options JSON_parse md_render toUpperCase detectFile
                                        sizeOf toLowerCase copy inquiry w)) = confirm w ||
                                            inquiry).
    { rewrite run000_cases. cbv zeta.
      destruct (confirm w) eqn:Hc; [now rewrite Hrest|].
      destruct inquiry; [now rewrite Hrest | reflexivity || exact Hc]. }
    unfold main000, try_catch.
    destruct (run000 _ _ _ _ _ _ _ _ _ _ w) as [[[]|e] w1]; cbn [snd] in *; exact Hrun.
  - intros Hc. unfold main000, try_catch. rewrite !run000_cases, Hc. reflexivity.
Qed.

Lemma two_level_confirmation_witness :
  main000 "/" Sample.options Sample.parse Sample.render Sample.upper Sample.detect
      Sample.size Sample.lower Sample.copy
          true SampleModule.world
  = main000 "/" Sample.options Sample.parse Sample.render Sample.upper Sample.detect
      Sample.size Sample.lower Sample.copy
            false SampleModule.world.
Proof.
  apply (two_level_confirmation "/" Sample.options Sample.parse Sample.render Sample.upper
           Sample.detect Sample.size Sample.lower Sample.copy true SampleModule.world).
  reflexivity.
Defined.

(** ** Emission does not decide the crawl *)

Lemma spawn_all_settles (ms : list (M unit)) (w : World) :
  exists outcomes w', spawn_all ms w = (Ok outcomes, w') /\ length outcomes = length ms.
Proof.
  revert w. induction ms as [|m ms IH]; intros w; cbn [spawn_all].
  - exists [], w. split; reflexivity.
  - destruct (m w) as [r w1].
    destruct (IH (match r with Ok _ => w1 | Throw e => logged (Unhandled e) w1 end))
      as (rs & w2 & -> & Hlen).
    exists (r :: rs), w2. split; [reflexivity | simpl; now rewrite Hlen].
Qed.

(** X4. The crawl is fulfilled whenever the discovery is, with one outcome
    for each discovered module: an Emitter that rejects (the promises of
    [emit] are awaited by nobody) does not reject the crawl. *)
Theorem crawl_outlives_emit (options : Options) (JSON_parse : string -> option json)
    (resolve : Path -> M Mapping) (emit : string -> Mapping * json -> M unit)
    (w w1 : World) (results : list (string * (Mapping * json))) :
  discover options JSON_parse resolve w = (Ok results, w1) ->
  exists outcomes w',
    crawl options JSON_parse resolve emit w = (Ok outcomes, w') /\
    length outcomes = length results.
Proof.
  intros Hd. unfold crawl, bind. rewrite Hd. unfold emit_event.
  destruct (spawn_all_settles
              (map (fun mc => emit (fst mc) (snd mc)) results) (logged Line w1))
    as (outcomes & w' & -> & Hlen).
  exists outcomes, w'. split; [reflexivity|]. now rewrite Hlen, length_map.
Qed.

Lemma crawl_outlives_emit_witness :
  exists w',
    crawl001 "/" blocked_options Sample.parse Sample.render Sample.upper
        (Sample.world Sample.site)
    = (Ok [Throw ENOTDIR], w').
Proof.
  destruct (crawl_outlives_emit blocked_options Sample.parse
              (resolve001 "/" blocked_options Sample.render Sample.upper)
              (emit001 "/" blocked_options)
              (Sample.world Sample.site)
              (snd (discover blocked_options Sample.parse
                      (resolve001 "/" blocked_options Sample.render Sample.upper)
                      (Sample.world Sample.site)))
              (match fst (discover blocked_options Sample.parse
                            (resolve001 "/" blocked_options Sample.render Sample.upper)
                            (Sample.world Sample.site)) with
               | Ok results => results
               | Throw _ => []
               end))
    as (outcomes & w' & Hrun & _); [vm_compute; reflexivity|].
  eexists. vm_compute. reflexivity.
Defined.

(** ** The bundle *)

Lemma mapM_length {A B} (g : A -> M B) (l : list A) (w w' : World) (ys : list B) :
  mapM g l w = (Ok ys, w') -> length ys = length l.
Proof.
  revert w w' ys. induction l as [|x l IH]; intros w w' ys.
  - intros [= <- _]. reflexivity.
  - change (mapM g (x :: l)) with (do y <- g x; do zs <- mapM g l; ret (y :: zs)).
    intros H. apply bind_Ok in H as (y & w1 & _ & H).
    apply bind_Ok in H as (zs & w2 & Hzs & H). injection H as <- _.
    simpl. f_equal. exact (IH _ _ _ Hzs).
Qed.

Lemma collect_length (l : list (option (result json))) (js : list json) :
  collect l = Some (Ok js) -> length js = length l.
Proof.
  revert js. induction l as [|x l IH]; intros js; cbn [collect].
  - intros [= <-]. reflexivity.
  - destruct x as [[j|e]|]; try discriminate.
    destruct (collect l) as [[js'|e]|]; try discriminate.
    intros [= <-]. simpl. f_equal. now apply IH.
Qed.

Lemma somes_length {A} (l : list (option A)) : length (somes l) <= length l.
Proof.
  unfold somes. induction l as [|[a|] l IH]; cbn [flat_map app length]; lia.
Qed.

Lemma build_all_blocks (module : string) (contents : Mapping * json)
    (w w' : World) (model : list Val) :
  build_all module contents w = (Ok model, w') ->
  exists blocks, snd contents = JArr blocks /\ length model <= length blocks.
Proof.
  unfold build_all. destruct (snd contents) as [| | | |blocks|]; try discriminate.
  intros H. apply bind_Ok in H as (built & w1 & Hb & H). injection H as <- _.
  exists blocks. split; [reflexivity|].
  apply mapM_length in Hb. rewrite <- Hb. apply somes_length.
Qed.

Lemma stringify_model_array (sep gap : string) (model : list Val) (w w' : World)
    (text : string) :
  stringify_model sep gap model w = (Ok text, w') ->
  w' = w /\ exists js, text = Json.stringify gap (JArr js) /\ length js = length model.
Proof.
  unfold stringify_model.
  destruct (collect _) as [[js|e]|] eqn:Hc; try discriminate.
  intros [= <- <-]. split; [reflexivity|]. exists js. split; [reflexivity|].
  apply collect_length in Hc. now rewrite Hc, length_map.
Qed.

Lemma diverge_siblings (t : Path) (a b : string) :
  a <> b -> diverge (t ++ [a]) (t ++ [b]) = true.
Proof.
  intros Hab. induction t as [|c t IH]; cbn [app diverge].
  - apply String.eqb_neq in Hab. now rewrite Hab.
  - now rewrite String.eqb_refl.
Qed.

Lemma json_name_not_meta (module : string) :
  module +:+ ".meta.json" <> module +:+ ".json".
Proof.
  intros H. apply app_inv_head_s in H. discriminate.
Qed.

(** X5. Whenever an Emitter completes, the file target/module.json holds
    the serialisation, with the indentation of two spaces, of a JSON array
    that has at most one element for each top-level element of the manifest
    (which is then an array). *)
Theorem emit_writes_array (sep : string) (options : Options)
    (detectFile : Path -> result string) (sizeOf : Path -> result json)
    (toLowerCase : string -> string) (copy : node -> Path -> Path -> result node)
    (module : string) (contents : Mapping * json) (w w' : World) :
  emit001 sep options module contents w = (Ok tt, w') \/
  emit000 sep options detectFile sizeOf toLowerCase copy module contents w = (Ok tt, w') ->
  exists blocks js,
    snd contents = JArr blocks /\
    length js <= length blocks /\
    FS.readFile (fs w') (target options ++ [module +:+ ".json"])
    = Ok (Json.stringify "  " (JArr js)).
Proof.
  intros [H|H].
  - unfold emit001 in H.
    apply bind_Ok in H as (_ & w1 & _ & H).
    apply bind_Ok in H as (model & w2 & Hmodel & H).
    apply bind_Ok in H as (result & w3 & Hres & H).
    apply bind_Ok in H as (_ & w4 & _ & H).
    apply bind_Ok in H as (u5 & w5 & Hw & H).
    unfold info, emit_event in H. injection H as Hw'. subst w'.
    destruct (build_all_blocks _ _ _ _ _ Hmodel) as (blocks & Hb & Hlen).
    destruct (stringify_model_array _ _ _ _ _ _ Hres) as (_ & js & -> & Hjs).
    exists blocks, js. split; [exact Hb|]. split; [lia|].
    unfold change_fs in Hw.
    destruct (FS.writeFile (fs w4) _ _) as [n'|] eqn:Hwr; [|discriminate].
    injection Hw as _ <-. cbn [fs logged]. now apply writeFile_readFile in Hwr.
  - unfold emit000 in H.
    apply bind_Ok in H as (_ & w1 & _ & H).
    apply bind_Ok in H as (model & w2 & Hmodel & H).
    apply bind_Ok in H as (result & w3 & Hres & H).
    apply bind_Ok in H as (meta & w4 & _ & H).
    apply bind_Ok in H as (written & w5 & Hw & H).
    unfold info, emit_event in H. injection H as Hw'. subst w'.
    destruct (build_all_blocks _ _ _ _ _ Hmodel) as (blocks & Hb & Hlen).
    destruct (stringify_model_array _ _ _ _ _ _ Hres) as (_ & js & -> & Hjs).
    exists blocks, js. split; [exact Hb|]. split; [lia|].
    cbn [promise_all] in Hw.
    destruct (change_fs _ w4) as [r1 wa] eqn:H1 in Hw.
    destruct (change_fs _ wa) as [r2 wb] eqn:H2 in Hw.
    destruct r1 as [[]|]; [|discriminate]. destruct r2 as [[]|]; [|discriminate].
    injection Hw as _ <-.
    unfold change_fs in H1, H2.
    destruct (FS.writeFile (fs w4) _ _) as [n1|] eqn:Hwr1; [|discriminate].
    injection H1 as <-. cbn [fs] in H2.
    destruct (FS.writeFile n1 _ _) as [n2|] eqn:Hwr2; [|discriminate].
    injection H2 as <-. cbn [fs logged].
    apply writeFile_readFile in Hwr1. unfold FS.readFile in *.
    unfold FS.writeFile in Hwr2.
    rewrite (update_find_diverge _ _ _ _ _ Hwr2
               (diverge_siblings _ _ _ (json_name_not_meta module))).
    exact Hwr1.
Qed.

Lemma emit_writes_array_witness :
  exists js,
    length js <= 2 /\
    FS.readFile
      (fs (snd (emit001 "/" Sample.options "guide" SampleModule.contents
                        SampleModule.world)))
      ["docs"; "docs"; "guide.json"]
    = Ok (Json.stringify "  " (JArr js)).
Proof.
  destruct (emit_writes_array "/" Sample.options Sample.detect Sample.size Sample.lower
      Sample.copy "guide"
              SampleModule.contents SampleModule.world
              (snd (emit001 "/" Sample.options "guide" SampleModule.contents
                            SampleModule.world)))
    as (blocks & js & Hb & Hlen & Hfile); [left; vm_compute; reflexivity|].
  exists js. split; [|exact Hfile].
  injection Hb as <-. exact Hlen.
Defined.

(** ** What the discovery finds *)

Lemma finds_ret {A} (F : node) (a : A) (Q : A -> Prop) : Q a -> finds F (ret a) Q.
Proof. intros H w a' w' Hw [= <- <-]. now split. Qed.

Lemma finds_bind {A B} (F : node) (m : M A) (k : A -> M B)
    (P : A -> Prop) (Q : B -> Prop) :
  finds F m P -> (forall a, P a -> finds F (k a) Q) -> finds F (bind m k) Q.
Proof.
  intros Hm Hk w b w' Hw H. apply bind_Ok in H as (a & w1 & H1 & H2).
  destruct (Hm _ _ _ Hw H1) as [Hw1 Ha]. exact (Hk a Ha _ _ _ Hw1 H2).
Qed.

Lemma finds_weaken {A} (F : node) (m : M A) (P Q : A -> Prop) :
  finds F m P -> (forall a, P a -> Q a) -> finds F m Q.
Proof. intros Hm HPQ w a w' Hw H. destruct (Hm _ _ _ Hw H). auto. Qed.

Lemma finds_keeps {A} (F : node) (m : M A) : keeps fs m -> finds F m (fun _ => True).
Proof.
  intros Hk w a w' Hw H. specialize (Hk w). rewrite H in Hk. cbn [snd] in Hk.
  split; [congruence | exact I].
Qed.

Lemma finds_with_fs {A} (F : node) (g : node -> result A) :
  finds F (with_fs g) (fun a => g F = Ok a).
Proof. intros w a w' <- [= H <-]. now split. Qed.

Lemma finds_promise_all_map {A B} (F : node) (g : A -> M B) (l : list A)
    (P : A -> B -> Prop) :
  (forall x, In x l -> finds F (g x) (P x)) ->
  finds F (promise_all (map g l)) (Forall2 P l).
Proof.
  induction l as [|x l IH]; intros Hg w rs w' Hw; cbn [map promise_all].
  - intros [= <- <-]. split; [exact Hw | constructor].
  - destruct (g x w) as [r w1] eqn:H1.
    destruct (promise_all (map g l) w1) as [rs' w2] eqn:H2.
    destruct r as [b|]; [|discriminate]. destruct rs' as [bs|]; [|discriminate].
    intros [= <- <-].
    destruct (Hg x (or_introl eq_refl) _ _ _ Hw H1) as [Hw1 Hb].
    destruct (IH (fun y Hy => Hg y (or_intror Hy)) _ _ _ Hw1 H2) as [Hw2 Hbs].
    split; [exact Hw2 | now constructor].
Qed.

Lemma remove_first_None (name : string) (files : list string) :
  ~ In name files -> remove_first name files = None.
Proof.
  induction files as [|f files IH]; [reflexivity|].
  intros Hnot. cbn [remove_first]. destruct (String.eqb f name) eqn:Hf.
  - apply String.eqb_eq in Hf. destruct Hnot. now left.
  - rewrite IH; [reflexivity|]. intros Hin. apply Hnot. now right.
Qed.

Lemma Forall2_flat_map {A B C} (P : A -> B -> Prop) (Q : C -> Prop)
    (g : B -> list C) (l : list A) (rs : list B) :
  Forall2 P l rs ->
  (forall x r, In x l -> P x r -> Forall Q (g r)) ->
  Forall Q (flat_map g rs).
Proof.
  induction 1 as [|x r l rs Hx _ IH]; intros Hg; cbn [flat_map]; [constructor|].
  apply List.Forall_app. split.
  - apply (Hg x r); [now left | exact Hx].
  - apply IH. intros y s Hy. apply Hg. now right.
Qed.

(** A step that leaves the file system alone. *)
Tactic Notation "finds_idle" uconstr(lemma) :=
  eapply finds_bind; [apply finds_keeps; apply lemma; intros; reflexivity|].

Section Finds.

Variable sep : string.
Variable options : Options.
Variable JSON_parse : string -> option json.
Variable md_render : string -> string.
Variable toUpperCase : string -> string.
Variable F : node.

Lemma finds_traverse {A} (location : Path) (action : Path -> M (option A))
    (Q : A -> Prop) :
  finds F (action location) (fun r => match r with Some a => Q a | None => True end) ->
  finds F (traverse options location action)
        (fun r => match r with
                  | Some a =>
                      exclude options location = false /\
                      FS.stat F location = Ok true /\ Q a
                  | None => True
                  end).
Proof.
  intros Ha. unfold traverse. destruct (exclude options location) eqn:Hex.
  - finds_idle keeps_warn.
    intros _ _. now apply finds_ret.
  - eapply finds_bind; [apply finds_with_fs|]. intros isdir Hstat.
    destruct isdir; cbn [negb].
    + eapply finds_weaken; [exact Ha|]. intros [a|]; auto.
    + now apply finds_ret.
Qed.

Variable resolve : Path -> M Mapping.
Hypothesis resolve_reads : forall l, keeps fs (resolve l).

Lemma finds_explore (location : Path) :
  finds F (explore options JSON_parse resolve location)
        (fun r => match r with
                  | Some c =>
                      exists text,
                        FS.readFile F (location ++ ["structure.json"]) = Ok text /\
                        JSON_parse text = Some (snd c)
                  | None => True
                  end).
Proof.
  unfold explore.
  finds_idle keeps_listing. intros files _.
  destruct (remove_first "structure.json" files) as [files'|].
  2:{ finds_idle keeps_warn.
      intros _ _. now apply finds_ret. }
  eapply finds_bind; [apply finds_with_fs|]. intros text Htext.
  destruct (JSON_parse text) as [structure|] eqn:Hparse.
  2:{ intros w a w' _ H. discriminate. }
  eapply finds_bind; [apply finds_ret with (Q := fun v => v = structure); reflexivity|].
  intros v ->.
  finds_idle keeps_info. intros _ _.
  eapply finds_bind.
  - apply finds_keeps. apply keeps_promise_all_map; try (intros; reflexivity).
    intros file. apply keeps_bind.
    + apply keeps_traverse; try (intros; reflexivity). intros l.
      apply keeps_bind; [apply resolve_reads|]. intros m. apply keeps_ret.
    + intros r. apply keeps_ret.
  - intros results _. apply finds_ret. cbn [snd]. cbv beta in Htext.
    exists text. now split.
Qed.

Lemma finds_discover :
  finds F (discover options JSON_parse resolve)
        (Forall (fun mc : string * (Mapping * json) =>
                   let location := directory options ++ [fst mc] in
                   exclude options location = false /\
                   FS.stat F location = Ok true /\
                   (exists names,
                      FS.readdir F (directory options) = Ok names /\
                      In (fst mc) names) /\
                   exists text,
                     FS.readFile F (location ++ ["structure.json"]) = Ok text /\
                     JSON_parse text = Some (snd (snd mc)))).
Proof.
  unfold discover.
  eapply finds_bind; [apply finds_with_fs|]. intros modules Hmodules.
  eapply finds_bind.
  - apply finds_promise_all_map
      with (P := fun module (r : string * option (Mapping * json)) =>
                   fst r = module /\
                   match snd r with
                   | Some c =>
                       exclude options (directory options ++ [module]) = false /\
                       FS.stat F (directory options ++ [module]) = Ok true /\
                       exists text,
                         FS.readFile F ((directory options ++ [module])
                                        ++ ["structure.json"]) = Ok text /\
                         JSON_parse text = Some (snd c)
                   | None => True
                   end).
    intros module _. eapply finds_bind.
    + apply finds_traverse, finds_explore.
    + intros r Hr. apply finds_ret. cbn [fst snd]. split; [reflexivity|].
      destruct r as [c|]; [exact Hr | exact I].
  - intros results Hres. apply finds_ret.
    eapply Forall2_flat_map; [exact Hres|].
    intros module [name r] Hin [Hname Hr]. cbn [fst snd] in *. subst name.
    destruct r as [c|]; constructor; [|constructor]. cbn [fst snd].
    destruct Hr as (Hex & Hstat & Htext).
    split; [exact Hex|]. split; [exact Hstat|]. split; [|exact Htext].
    exists modules. now split.
Qed.

End Finds.

(** X6. A directory that lists no structure.json (or lists it under an
    exclusion that matches the name) is skipped by the Module Explorer: one
    warning, no file read, nothing resolved, nothing rejected, and the
    result is the falsy value the crawl filters out. *)
Theorem explore_without_manifest (options : Options)
    (JSON_parse : string -> option json) (resolve : Path -> M Mapping)
    (location : Path) (w : World) (names : list string) :
  FS.readdir (fs w) location = Ok names ->
  (In "structure.json" names -> exclude_re options "structure.json" = true) ->
  explore options JSON_parse resolve location w
  = (Ok None, logged (Warn (MMissingManifest location)) w).
Proof.
  intros Hnames Hno. unfold explore, listing, bind, with_fs, ret.
  rewrite Hnames. rewrite remove_first_None; [reflexivity|].
  intros Hin. apply List.filter_In in Hin as [Hin Hex].
  unfold exclude, Path.basename in Hex. cbn [List.last] in Hex.
  rewrite (Hno Hin) in Hex. discriminate.
Qed.

Lemma explore_without_manifest_witness :
  explore Sample.options Sample.parse
          (resolve001 "/" Sample.options Sample.render Sample.upper)
          ["docs"; "guide"; "pages"] (Sample.world Sample.site)
  = (Ok None,
     logged (Warn (MMissingManifest ["docs"; "guide"; "pages"]))
            (Sample.world Sample.site)).
Proof.
  apply (explore_without_manifest Sample.options Sample.parse _
           ["docs"; "guide"; "pages"] (Sample.world Sample.site)
           ["intro.md"; "advanced.md"; "tips.md"]).
  - reflexivity.
  - intros [H|[H|[H|[]]]]; discriminate.
Defined.

(** X7. Every module either program discovers is an entry of the root
    directory that the exclusion does not match, is a directory, and holds a
    readable structure.json whose text parses to the structure returned for
    the module. *)
Theorem discovered_modules_have_manifest (sep : string) (options : Options)
    (JSON_parse : string -> option json) (md_render toUpperCase : string -> string)
    (w w' : World) (results : list (string * (Mapping * json))) :
  discover options JSON_parse (resolve001 sep options md_render toUpperCase) w =
      (Ok results, w') \/
  discover options JSON_parse (resolve000 sep options md_render toUpperCase) w =
      (Ok results, w') ->
  Forall (fun mc : string * (Mapping * json) =>
            let location := directory options ++ [fst mc] in
            exclude options location = false /\
            FS.stat (fs w) location = Ok true /\
            (exists names,
               FS.readdir (fs w) (directory options) = Ok names /\
               In (fst mc) names) /\
            exists text,
              FS.readFile (fs w) (location ++ ["structure.json"]) = Ok text /\
              JSON_parse text = Some (snd (snd mc))) results.
Proof.
  intros [H|H].
  - refine (proj2 (finds_discover options JSON_parse (fs w) _ _ w results w' eq_refl H)).
    intros l. apply keeps_resolve001; intros; reflexivity.
  - refine (proj2 (finds_discover options JSON_parse (fs w) _ _ w results w' eq_refl H)).
    intros l. apply keeps_resolve000; intros; reflexivity.
Qed.

Lemma discovered_modules_have_manifest_witness :
  exists results,
    Forall (fun mc : string * (Mapping * json) =>
              let location := directory Sample.options ++ [fst mc] in
              exclude Sample.options location = false /\
              FS.stat Sample.cluttered_site location = Ok true /\
              (exists names,
                 FS.readdir Sample.cluttered_site (directory Sample.options) = Ok names /\
                 In (fst mc) names) /\
              exists text,
                FS.readFile Sample.cluttered_site (location ++ ["structure.json"])
                = Ok text /\
                Sample.parse text = Some (snd (snd mc))) results /\
    map fst results = ["guide"].
Proof.
  eexists. split.
  - eapply (discovered_modules_have_manifest "/" Sample.options Sample.parse
              Sample.render Sample.upper (Sample.world Sample.cluttered_site)).
    left. vm_compute. reflexivity.
  - reflexivity.
Defined.

(** ** The keys of a mapping *)

Lemma has_put {A} (k k' : string) (v : A) (o : list (string * A)) :
  Object.has k (FS.put k' v o) = String.eqb k k' || Object.has k o.
Proof.
  unfold Object.has. destruct (String.eqb k k') eqn:H.
  - apply String.eqb_eq in H. subst k'. now rewrite assoc_put_eq.
  - apply String.eqb_neq in H. now rewrite assoc_put_ne.
Qed.

Lemma has_fold_set {A B} (key : B -> string) (val : B -> A) (rs : list B)
    (o : list (string * A)) (k : string) :
  Object.has k (fold_left (fun m r => Object.set (key r) (val r) m) rs o) = true <->
  Object.has k o = true \/ (k <> "__proto__" /\ exists r, In r rs /\ key r = k).
Proof.
  revert o. induction rs as [|r rs IH]; intros o; cbn [fold_left].
  - split; [now left|]. intros [H|(_ & r & [] & _)]. exact H.
  - rewrite IH. unfold Object.set at 1.
    destruct (String.eqb (key r) "__proto__") eqn:Hproto.
    + apply String.eqb_eq in Hproto. split.
      * intros [H|(Hk & r' & Hin & Hr')]; [now left|].
        right. split; [exact Hk|]. exists r'. split; [now right | exact Hr'].
      * intros [H|(Hk & r' & [<-|Hin] & Hr')]; [now left | congruence |].
        right. split; [exact Hk|]. now exists r'.
    + apply String.eqb_neq in Hproto. rewrite has_put. split.
      * intros [H|(Hk & r' & Hin & Hr')].
        -- apply orb_true_iff in H as [H|H]; [|now left].
           apply String.eqb_eq in H. subst k. right. split; [exact Hproto|].
           exists r. split; [now left | reflexivity].
        -- right. split; [exact Hk|]. exists r'. split; [now right | exact Hr'].
      * intros [H|(Hk & r' & [<-|Hin] & Hr')].
        -- left. rewrite H. apply orb_true_r.
        -- left. subst k. now rewrite String.eqb_refl.
        -- right. split; [exact Hk|]. now exists r'.
Qed.

Lemma Forall2_in_r {A B} (P : A -> B -> Prop) (l : list A) (rs : list B) (r : B) :
  Forall2 P l rs -> In r rs -> exists x, In x l /\ P x r.
Proof.
  induction 1 as [|x r' l rs Hx _ IH]; [intros []|].
  intros [<-|Hin]; [exists x; split; [now left | exact Hx]|].
  destruct (IH Hin) as (y & Hy & Hyr). exists y. split; [now right | exact Hyr].
Qed.

Lemma Forall2_in_l {A B} (P : A -> B -> Prop) (l : list A) (rs : list B) (x : A) :
  Forall2 P l rs -> In x l -> exists r, In r rs /\ P x r.
Proof.
  induction 1 as [|x' r l rs Hx _ IH]; [intros []|].
  intros [<-|Hin]; [exists r; split; [now left | exact Hx]|].
  destruct (IH Hin) as (s & Hs & Hxs). exists s. split; [now right | exact Hxs].
Qed.

Lemma finds_returns {A} (F : node) (m : M A) (Q : A -> Prop) :
  keeps fs m -> returns m Q -> finds F m Q.
Proof.
  intros Hk Hr w a w' Hw H. split; [|exact (Hr _ _ _ H)].
  specialize (Hk w). rewrite H in Hk. cbn [snd] in Hk. congruence.
Qed.

Lemma filter_all {A} (f : A -> bool) (l : list A) :
  Forall (fun x => f x = true) l -> List.filter f l = l.
Proof.
  induction 1 as [|x l Hx _ IH]; [reflexivity|]. cbn [List.filter].
  now rewrite Hx, IH.
Qed.

(** X8. The mapping the single-level Content Resolver returns for a
    directory has exactly these keys: the stems (the name without a final
    .md) of the entries the exclusion does not match, the stem __proto__
    apart, which an assignment to a plain object does not make a key. *)
Theorem resolve001_keys (sep : string) (options : Options)
    (md_render toUpperCase : string -> string) (location : Path) (w w' : World)
    (names : list string) (mapping : Mapping) :
  FS.readdir (fs w) location = Ok names ->
  resolve001 sep options md_render toUpperCase location w = (Ok mapping, w') ->
  forall k,
    Object.has k mapping = true <->
    k <> "__proto__" /\
    exists file, In file names /\ exclude options [file] = false /\
                 Path.stem_of_name ".md" file = k.
Proof.
  intros Hnames H k. unfold resolve001 in H.
  apply bind_Ok in H as (files & w1 & Hfiles & H).
  apply bind_Ok in H as (u & w2 & _ & H).
  apply bind_Ok in H as (results & w3 & Hresults & H).
  injection H as <- _.
  unfold listing, bind, with_fs, ret in Hfiles. rewrite Hnames in Hfiles.
  injection Hfiles as <- _.
  assert (Htagged : Forall2 (fun file (r : string * Val) =>
                               fst r = file /\ truthy sep (snd r) = true)
                            (List.filter (fun file => negb (exclude options [file])) names)
                            results).
  { refine (proj2 (finds_promise_all_map (fs w2) _ _ _ _ w2 results w3 eq_refl Hresults)).
    intros file _. eapply finds_bind.
    - apply finds_returns; [|apply returns_read001].
      apply keeps_read001; intros; reflexivity.
    - intros v Hv. apply finds_ret. cbn [fst snd]. split; [reflexivity|].
      destruct v; [reflexivity | destruct Hv]. }
  rewrite filter_all.
  2:{ clear -Htagged. induction Htagged as [|? ? ? ? [_ ?] _ IH]; constructor; auto. }
  rewrite (has_fold_set (fun r : string * Val => Path.stem_of_name ".md" (fst r)) snd).
  split.
  - intros [Hempty|(Hk & r & Hin & Hr)]; [discriminate|]. split; [exact Hk|].
    destruct (Forall2_in_r _ _ _ _ Htagged Hin) as (file & Hfile & Hfst & _).
    apply List.filter_In in Hfile as [Hfile Hex]. apply negb_true_iff in Hex.
    exists file. rewrite Hfst in Hr. now split.
  - intros (Hk & file & Hin & Hex & Hfile). right. split; [exact Hk|].
    destruct (Forall2_in_l _ _ _ file Htagged) as (r & Hr & Hfst & _).
    { apply List.filter_In. split; [exact Hin|]. now rewrite Hex. }
    exists r. split; [exact Hr|]. now rewrite Hfst.
Qed.

Lemma resolve001_keys_witness :
  Object.has "node_modules"
    (match fst (resolve001 "/" Sample.options Sample.render Sample.upper
        ["docs"; "guide"; "pages"]
                           (Sample.world Sample.cluttered_site)) with
     | Ok mapping => mapping
     | Throw _ => []
     end) = true <->
  "node_modules" <> "__proto__" /\
  exists file,
    In file ["intro.md"; "advanced.md"; "tips.md"; ".git"; "node_modules.md"] /\
    exclude Sample.options [file] = false /\
    Path.stem_of_name ".md" file = "node_modules".
Proof.
  eapply (resolve001_keys "/" Sample.options Sample.render Sample.upper ["docs"; "guide"; "pages"]
            (Sample.world Sample.cluttered_site)).
  - reflexivity.
  - vm_compute. reflexivity.
Defined.

(** ** Assets that cannot be measured *)

Lemma probe_unreadable (sep : string) (detectFile : Path -> result string)
    (sizeOf : Path -> result json) (toLowerCase : string -> string)
    (dir : Path) (asset type : string) (e : error) (w : World) :
  detectFile (dir ++ [asset]) = Ok type ->
  Str.startsWith "image" type = true ->
  sizeOf (dir ++ [asset]) = Throw e ->
  probe sep detectFile sizeOf toLowerCase dir asset w = (Throw e, w).
Proof.
  intros Htype Himage Hsize. unfold probe, bind, ret, lift.
  now rewrite Htype, Himage, Hsize.
Qed.

Lemma collect_meta_rejects (sep : string) (options : Options)
    (detectFile : Path -> result string) (sizeOf : Path -> result json)
    (toLowerCase : string -> string) (copy : node -> Path -> Path -> result node)
    (move : list Path) (metaTarget dir : Path) (assets : list string)
    (asset type : string) (e : error) (w : World) :
  In dir move ->
  FS.readdir (fs w) dir = Ok assets -> In asset assets ->
  detectFile (dir ++ [asset]) = Ok type ->
  Str.startsWith "image" type = true ->
  sizeOf (dir ++ [asset]) = Throw e ->
  exists w',
    collect_meta sep options detectFile sizeOf toLowerCase copy move metaTarget w
    = (Throw (TypeError "assetInformation is undefined"), w') /\
    fs w' = fs w.
Proof.
  intros Hdir Hassets Hasset Htype Himage Hsize. unfold collect_meta.
  destruct move as [|d ds] eqn:Hmove; [destruct Hdir|]. rewrite <- Hmove in *.
  clear Hmove d ds.
  unfold bind at 1. unfold info, emit_event.
  set (w1 := logged _ w). unfold bind at 1. unfold try_catch.
  destruct (promise_all_rejects
              (map (fun dir => do assets <- with_fs (fun n => FS.readdir n dir);
                               promise_all (map (probe sep detectFile sizeOf toLowerCase
                                   dir) assets))
                   move) (fs w)) with (w := w1) as (e1 & w2 & Hrun & Hfs).
  - apply List.Forall_forall. intros m Hm.
    apply in_map_iff in Hm as (d & <- & _).
    apply (keeps_bind fs); [apply keeps_with_fs|]. intros names.
    apply keeps_promise_all_map; try (intros; reflexivity).
    intros x. apply keeps_probe. intros; reflexivity.
  - apply List.Exists_exists.
    exists (do assets <- with_fs (fun n => FS.readdir n dir);
            promise_all (map (probe sep detectFile sizeOf toLowerCase dir) assets)).
    split; [apply in_map_iff; now exists dir|].
    intros w0 Hw0. unfold bind, with_fs. rewrite Hw0, Hassets.
    destruct (promise_all_rejects (map (probe sep detectFile sizeOf toLowerCase dir)
        assets) (fs w))
      with (w := w0) as (e2 & w3 & Hrun & _); [| |exact Hw0|eauto].
    + apply List.Forall_forall. intros m Hm.
      apply in_map_iff in Hm as (x & <- & _). apply keeps_probe. intros; reflexivity.
    + apply List.Exists_exists. exists (probe sep detectFile sizeOf toLowerCase dir asset).
      split; [apply in_map_iff; now exists asset|].
      intros w4 _. exists e, w4. now apply (probe_unreadable _ _ _ _ _ _ type).
  - reflexivity.
  - unfold bind at 1. rewrite Hrun. unfold bind, emit_event, ret, throw.
    eexists. split; [reflexivity|]. exact Hfs.
Qed.

(** X9. In the two-level Emitter one image that cannot be measured is
    enough to lose the module: when an entry of a raw directory of the
    mapping is detected as an image and [sizeOf] throws on it, [emit] is
    rejected and writes neither the bundle nor the table of the assets. *)
Theorem unreadable_image_rejects_emit (sep : string) (options : Options)
    (detectFile : Path -> result string) (sizeOf : Path -> result json)
    (toLowerCase : string -> string) (copy : node -> Path -> Path -> result node)
    (module : string) (contents : Mapping * json) (w : World)
    (dir : Path) (assets : list string) (asset type : string) (e : error) :
  In dir (raw_directories (fst contents)) ->
  FS.readdir (fs w) dir = Ok assets -> In asset assets ->
  detectFile (dir ++ [asset]) = Ok type ->
  Str.startsWith "image" type = true ->
  sizeOf (dir ++ [asset]) = Throw e ->
  exists e' w',
    emit000 sep options detectFile sizeOf toLowerCase copy module contents w = (Throw e', w') /\
    fs w' = fs w.
Proof.
  intros Hdir Hassets Hasset Htype Himage Hsize. unfold emit000.
  unfold bind at 1. unfold info, emit_event. set (w1 := logged _ w).
  assert (Hfs1 : fs w1 = fs w) by reflexivity.
  unfold bind at 1.
  pose proof (keeps_build_all fs ltac:(reflexivity) ltac:(reflexivity)
                module contents w1) as Hfs2.
  destruct (build_all module contents w1) as [[model|e2] w2]; cbn [snd] in Hfs2.
  2:{ exists e2, w2. split; [reflexivity | congruence]. }
  unfold bind at 1.
  pose proof (keeps_stringify_model fs sep "  " model w2) as Hfs3.
  destruct (stringify_model sep "  " model w2) as [[result|e3] w3]; cbn [snd] in Hfs3.
  2:{ exists e3, w3. split; [reflexivity | congruence]. }
  unfold bind at 1.
  destruct (collect_meta_rejects sep options detectFile sizeOf toLowerCase copy
              (raw_directories (fst contents))
              (target options ++ [module +:+ ".meta.json"])
              dir assets asset type e w3) as (w4 & Hrun & Hfs4); auto.
  { rewrite Hfs3, Hfs2, Hfs1. exact Hassets. }
  rewrite Hrun. eexists _, w4. split; [reflexivity | congruence].
Qed.

Lemma unreadable_image_rejects_emit_witness :
  exists e' w',
    emit000 "/" Sample.options Sample.detect (fun _ => Throw (EIO "corrupt")) Sample.lower
        Sample.copy "guide"
            ([("img", VDir ["docs"; "guide"; "pages"; "img"])], JArr [])
            (Sample.world Sample.site_with_assets) = (Throw e', w') /\
    fs w' = Sample.site_with_assets.
Proof.
  apply (unreadable_image_rejects_emit "/" Sample.options Sample.detect
           (fun _ => Throw (EIO "corrupt")) Sample.lower Sample.copy "guide"
           ([("img", VDir ["docs"; "guide"; "pages"; "img"])], JArr [])
           (Sample.world Sample.site_with_assets)
           ["docs"; "guide"; "pages"; "img"] ["logo.png"; ".git"] "logo.png"
           "image/png" (EIO "corrupt")).
  - now left.
  - reflexivity.
  - now left.
  - reflexivity.
  - reflexivity.
  - reflexivity.
Defined.

(** ** A content file named hasOwnProperty *)

Lemma build_shadowed (store : Mapping) (structure : json) (parent : string)
    (w : World) :
  Object.has "hasOwnProperty" store = true ->
  build store structure parent w
  = match structure with
    | JArr [] => (Ok None, w)
    | _ => (Throw (TypeError "store.hasOwnProperty is not a function"), w)
    end.
Proof.
  intros Hown.
  destruct structure as [| | | |[|lead rest]|]; cbn [build]; try reflexivity;
    unfold bind, hasOwnProperty; rewrite Hown; reflexivity.
Qed.

Lemma mapM_build_shadowed (store : Mapping) (parent : string) (blocks : list json)
    (w : World) :
  Object.has "hasOwnProperty" store = true ->
  Exists (fun block => block <> JArr []) blocks ->
  mapM (fun block => build store block parent) blocks w
  = (Throw (TypeError "store.hasOwnProperty is not a function"), w).
Proof.
  intros Hown Hex. induction blocks as [|block blocks IH]; [inversion Hex|].
  rewrite mapM_cons. unfold bind at 1. rewrite (build_shadowed _ _ _ _ Hown).
  destruct block as [| | | |[|lead rest]|]; try reflexivity.
  unfold bind at 1. rewrite IH; [reflexivity|].
  inversion Hex as [? ? Hb|]; [now destruct Hb | assumption].
Qed.

(** X10. A mapping that has a key hasOwnProperty of its own (the content
    file hasOwnProperty.md gives one) breaks the module: unless every
    top-level element of the manifest is an empty array, either Emitter is
    rejected with the TypeError of the call [store.hasOwnProperty(...)],
    after its first log line and before anything is written. *)
Theorem own_hasOwnProperty_rejects_emit (sep : string) (options : Options)
    (detectFile : Path -> result string) (sizeOf : Path -> result json)
    (toLowerCase : string -> string) (copy : node -> Path -> Path -> result node)
    (module : string) (contents : Mapping * json) (blocks : list json) (w : World) :
  Object.has "hasOwnProperty" (fst contents) = true ->
  snd contents = JArr blocks ->
  Exists (fun block => block <> JArr []) blocks ->
  let rejected :=
    (Throw (TypeError "store.hasOwnProperty is not a function"),
     logged (Info (MEmitting (target options ++ [module +:+ ".json"]))) w) in
  emit001 sep options module contents w = rejected /\
  emit000 sep options detectFile sizeOf toLowerCase copy module contents w = rejected.
Proof.
  intros Hown Hblocks Hex.
  assert (Hbuild : forall w0,
             build_all module contents w0
             = (Throw (TypeError "store.hasOwnProperty is not a function"), w0)).
  { intros w0. unfold build_all. rewrite Hblocks. unfold bind.
    now rewrite (mapM_build_shadowed _ _ _ _ Hown Hex). }
  split.
  - unfold emit001. unfold bind at 1. unfold info, emit_event.
    unfold bind at 1. now rewrite Hbuild.
  - unfold emit000. unfold bind at 1. unfold info, emit_event.
    unfold bind at 1. now rewrite Hbuild.
Qed.

Lemma own_hasOwnProperty_rejects_emit_witness :
  emit001 "/" Sample.options "guide"
          (("hasOwnProperty", VObj 0) :: SampleModule.mappings, Sample.structure)
          SampleModule.world
  = (Throw (TypeError "store.hasOwnProperty is not a function"),
     logged (Info (MEmitting ["docs"; "docs"; "guide.json"])) SampleModule.world).
Proof.
  apply (own_hasOwnProperty_rejects_emit "/" Sample.options Sample.detect Sample.size
      Sample.lower Sample.copy
           "guide"
           (("hasOwnProperty", VObj 0) :: SampleModule.mappings, Sample.structure)
           [JStr "intro"; JArr [JStr "advanced"; JStr "tips"]] SampleModule.world).
  - reflexivity.
  - reflexivity.
  - left. discriminate.
Defined.

(** ** The documents of a mapping *)

Lemma read001_run (md_render toUpperCase : string -> string) (location : Path) (w : World) :
  read001 md_render toUpperCase location w
  = match FS.readFile (fs w) location with
    | Ok markdown =>
        (Ok (VObj (length (heap w))),
         allocated (mkObj (read_document md_render toUpperCase location markdown) None)
                   (logged (Info (MReading location)) w))
    | Throw e => (Throw e, logged (Info (MReading location)) w)
    end.
Proof.
  unfold read001, bind, info, emit_event, with_fs, alloc. cbn [fs logged].
  destruct (FS.readFile (fs w) location); reflexivity.
Qed.

Lemma read001_all (md_render toUpperCase : string -> string) (location : Path)
    (files : list string) (w w' : World) (results : list (string * Val)) :
  promise_all (map (fun file => do r <- read001 md_render toUpperCase (location ++ [file]);
                                ret (file, r)) files) w = (Ok results, w') ->
  fs w' = fs w /\
  (exists extra, heap w' = heap w ++ extra) /\
  Forall2 (fun file (r : string * Val) =>
             fst r = file /\
             exists l text,
               snd r = VObj l /\ length (heap w) <= l /\
               FS.readFile (fs w) (location ++ [file]) = Ok text /\
               heap w' !! l
               = Some (mkObj (read_document md_render toUpperCase (location ++ [file])
                   text) None))
          files results.
Proof.
  revert w w' results. induction files as [|file files IH]; intros w w' results;
    cbn [map promise_all].
  - intros [= <- <-]. split; [reflexivity|]. split; [|constructor].
    exists []. now rewrite app_nil_r.
  - unfold bind at 1. rewrite read001_run.
    destruct (FS.readFile (fs w) (location ++ [file])) as [text|e] eqn:Htext.
    2:{ destruct (promise_all _ _) as [rs w2]. discriminate. }
    unfold ret at 1.
    set (w1 := allocated _ _).
    destruct (promise_all _ w1) as [[rs|e] w2] eqn:Hrest; [|discriminate].
    intros [= <- <-].
    destruct (IH _ _ _ Hrest) as (Hfs & (extra & Hheap) & Hall).
    assert (Hheap1 : heap w1 = heap w ++ [mkObj (read_document md_render toUpperCase
                                                   (location ++ [file]) text) None])
      by reflexivity.
    split; [exact Hfs|]. split.
    { eexists. rewrite Hheap, Hheap1, <- app_assoc. reflexivity. }
    constructor.
    + cbn [fst snd]. split; [reflexivity|].
      exists (length (heap w)), text.
      split; [reflexivity|]. split; [lia|]. split; [exact Htext|].
      rewrite Hheap, Hheap1, <- app_assoc.
      rewrite lookup_app_r by lia. now rewrite Nat.sub_diag.
    + eapply Forall2_impl; [exact Hall|].
      intros f r (Hf & l & t & Hr & Hl & Ht & Hlook). split; [exact Hf|].
      exists l, t. split; [exact Hr|]. split.
      { rewrite Hheap1, length_app in Hl. cbn [length] in Hl. lia. }
      split; [exact Ht | exact Hlook].
Qed.

Lemma assoc_fold_set {A B} (key : B -> string) (val : B -> A) (rs : list B)
    (o : list (string * A)) (k : string) (v : A) :
  FS.assoc k (fold_left (fun m r => Object.set (key r) (val r) m) rs o) = Some v ->
  FS.assoc k o = Some v \/ exists r, In r rs /\ key r = k /\ val r = v.
Proof.
  revert o. induction rs as [|r rs IH]; intros o; cbn [fold_left]; [now left|].
  intros H. destruct (IH _ H) as [Ho|(r' & Hin & Hr')].
  2:{ right. exists r'. split; [now right | exact Hr']. }
  unfold Object.set in Ho.
  destruct (String.eqb (key r) "__proto__"); [now left|].
  destruct (String.eqb k (key r)) eqn:Hk.
  - apply String.eqb_eq in Hk. subst k. rewrite assoc_put_eq in Ho.
    injection Ho as <-. right. exists r. split; [now left | now split].
  - apply String.eqb_neq in Hk. rewrite assoc_put_ne in Ho by exact Hk. now left.
Qed.

(** X11. Every value of the mapping the single-level Content Resolver
    returns is a Document object made during this call (it is no object the
    heap held before), without children yet, and it is what [read] makes of
    the text of an entry of the directory that the exclusion does not match
    and whose stem is the key. *)
Theorem resolve001_documents (sep : string) (options : Options)
    (md_render toUpperCase : string -> string) (location : Path) (w w' : World)
    (mapping : Mapping) (k : string) (v : Val) :
  resolve001 sep options md_render toUpperCase location w = (Ok mapping, w') ->
  FS.assoc k mapping = Some v ->
  exists l file text,
    v = VObj l /\ length (heap w) <= l /\
    exclude options [file] = false /\
    Path.stem_of_name ".md" file = k /\
    FS.readFile (fs w) (location ++ [file]) = Ok text /\
    heap w' !! l = Some (mkObj (read_document md_render toUpperCase (location ++ [file])
        text) None).
Proof.
  intros H Hk. unfold resolve001 in H.
  apply bind_Ok in H as (files & w1 & Hfiles & H).
  apply bind_Ok in H as (u & w2 & Hinfo & H).
  apply bind_Ok in H as (results & w3 & Hresults & H).
  injection H as <- <-.
  unfold listing, bind, with_fs, ret in Hfiles.
  destruct (FS.readdir (fs w) location) as [names|]; [|discriminate].
  injection Hfiles as <- <-.
  unfold info, emit_event in Hinfo. injection Hinfo as _ <-.
  apply read001_all in Hresults as (_ & _ & Hall). cbn [fs heap logged] in Hall.
  apply (assoc_fold_set (fun r : string * Val => Path.stem_of_name ".md" (fst r)) snd)
    in Hk as [Hk|(r & Hin & Hkey & Hval)]; [discriminate|].
  apply List.filter_In in Hin as [Hin _].
  destruct (Forall2_in_r _ _ _ _ Hall Hin) as (file & Hfile & Hfst & l & text & Hr & Hl &
      Ht & Hlook).
  apply List.filter_In in Hfile as [_ Hex]. apply negb_true_iff in Hex.
  exists l, file, text. rewrite Hfst in Hkey.
  split; [congruence|]. now repeat split.
Qed.

Lemma resolve001_documents_witness :
  exists l file text,
    VObj 1 = VObj l /\ 0 <= l /\
    exclude Sample.options [file] = false /\
    Path.stem_of_name ".md" file = "advanced" /\
    FS.readFile Sample.site (["docs"; "guide"; "pages"] ++ [file]) = Ok text /\
    heap (snd (resolve001 "/" Sample.options Sample.render Sample.upper ["docs"; "guide"; "pages"]
                          (Sample.world Sample.site))) !! l
    = Some (mkObj (read_document Sample.render Sample.upper
        (["docs"; "guide"; "pages"] ++ [file]) text)
                  None).
Proof.
  eapply (resolve001_documents "/" Sample.options Sample.render Sample.upper
      ["docs"; "guide"; "pages"]
            (Sample.world Sample.site)).
  - vm_compute. reflexivity.
  - reflexivity.
Defined.

(** ** The line that lists the assets *)

Lemma first_sorted_In (ns : list nat) (n : nat) : first_sorted ns = Some n -> In n ns.
Proof.
  destruct ns as [|m ns]; cbn [first_sorted]; [discriminate|].
  intros [= <-].
  assert (H : forall best, In (fold_left (fun best m =>
                                            if String.ltb (decimal m) (decimal best)
                                            then m else best) ns best)
                              (best :: ns)).
  { induction ns as [|x ns IH]; intros best; cbn [fold_left]; [now left|].
    destruct (IH (if String.ltb (decimal x) (decimal best) then x else best))
      as [<-|Hin].
    - destruct (String.ltb (decimal x) (decimal best)); [right; now left | now left].
    - right. now right. }
  apply H.
Qed.

Lemma forallb_false {A} (f : A -> bool) (l : list A) :
  forallb f l = false -> exists x, In x l /\ f x = false.
Proof.
  induction l as [|x l IH]; cbn [forallb]; [discriminate|].
  destruct (f x) eqn:Hx; cbn [andb].
  - intros H. destruct (IH H) as (y & Hy & Hfy). exists y. split; [now right | exact Hfy].
  - intros _. exists x. split; [now left | exact Hx].
Qed.

(** X12. The line that lists the assets of a module is logged, once, when
    there is a key at all; the one way it fails is the RangeError of
    [' '.repeat] with a negative count, and that takes two keys whose
    lengths differ by more than 50. *)
Theorem log_properties_outcome (keys : list string) (metaTarget : Path) (w : World) :
  log_properties keys metaTarget w
  = (Ok tt, match keys with
            | [] => w
            | _ => logged (Info (MProperties keys metaTarget)) w
            end)
  \/ (log_properties keys metaTarget w = (Throw RangeError, w) /\
      exists long short,
        In long keys /\ In short keys /\
        String.length short + 50 < String.length long).
Proof.
  unfold log_properties.
  destruct (first_sorted (map String.length keys)) as [shortest|] eqn:Hfirst.
  - apply first_sorted_In, in_map_iff in Hfirst as (short & Hlen & Hshort).
    destruct (forallb _ keys) eqn:Hall.
    + left. destruct keys; [destruct Hshort | reflexivity].
    + right. split; [reflexivity|].
      apply forallb_false in Hall as (long & Hlong & Hleb).
      apply Nat.leb_gt in Hleb. exists long, short. repeat split; auto. lia.
  - left. destruct keys; [reflexivity | discriminate].
Qed.

Lemma read000_run (md_render toUpperCase : string -> string) (location : Path) (w : World) :
  read000 md_render toUpperCase location w
  = let w1 := logged (Info (MReading location)) w in
    match FS.stat (fs w) location with
    | Ok true => (Ok (VDir location), w1)
    | Ok false =>
        match FS.readFile (fs w) location with
        | Ok markdown =>
            (Ok (VObj (length (heap w))),
             allocated (mkObj (read_document md_render toUpperCase location markdown) None) w1)
        | Throw e => (Throw e, w1)
        end
    | Throw e => (Throw e, w1)
    end.
Proof.
  unfold read000, bind, info, emit_event, with_fs, alloc, ret. cbn [fs logged].
  destruct (FS.stat (fs w) location) as [[|]|]; try reflexivity.
Qed.

(** What [read] of the two-level variant answers for each entry of
    [location]: a Document object the heap did not hold before, or the path
    of the directory. *)
Lemma read000_all (md_render toUpperCase : string -> string) (location : Path)
    (files : list string) (w w' : World) (results : list (string * Val)) :
  promise_all (map (fun file => do r <- read000 md_render toUpperCase (location ++ [file]);
                                ret (file, r)) files) w = (Ok results, w') ->
  fs w' = fs w /\
  (exists extra, heap w' = heap w ++ extra) /\
  Forall2 (fun file (r : string * Val) =>
             fst r = file /\
             ((exists l text,
                 snd r = VObj l /\ length (heap w) <= l /\
                 FS.stat (fs w) (location ++ [file]) = Ok false /\
                 FS.readFile (fs w) (location ++ [file]) = Ok text /\
                 heap w' !! l
                 = Some (mkObj (read_document md_render toUpperCase (location ++ [file])
                     text) None))
              \/ (snd r = VDir (location ++ [file]) /\
                  FS.stat (fs w) (location ++ [file]) = Ok true)))
          files results.
Proof.
  revert w w' results. induction files as [|file files IH]; intros w w' results;
    cbn [map promise_all].
  - intros [= <- <-]. split; [reflexivity|]. split; [|constructor].
    exists []. now rewrite app_nil_r.
  - unfold bind at 1. rewrite read000_run. cbv zeta.
    destruct (FS.stat (fs w) (location ++ [file])) as [[|]|e] eqn:Hstat.
    3:{ destruct (promise_all _ _) as [rs w2]. discriminate. }
    + unfold ret at 1. set (w1 := logged _ w).
      destruct (promise_all _ w1) as [[rs|e] w2] eqn:Hrest; [|discriminate].
      intros [= <- <-].
      destruct (IH _ _ _ Hrest) as (Hfs & Hheap & Hall).
      split; [exact Hfs|]. split; [exact Hheap|].
      constructor; [|exact Hall]. cbn [fst snd]. split; [reflexivity|]. now right.
    + destruct (FS.readFile (fs w) (location ++ [file])) as [text|e] eqn:Htext.
      2:{ destruct (promise_all _ _) as [rs w2]. discriminate. }
      unfold ret at 1. set (w1 := allocated _ _).
      destruct (promise_all _ w1) as [[rs|e] w2] eqn:Hrest; [|discriminate].
      intros [= <- <-].
      destruct (IH _ _ _ Hrest) as (Hfs & (extra & Hheap) & Hall).
      assert (Hheap1 : heap w1 = heap w ++ [mkObj (read_document md_render toUpperCase
                                                     (location ++ [file]) text) None])
        by reflexivity.
      split; [exact Hfs|]. split.
      { eexists. rewrite Hheap, Hheap1, <- app_assoc. reflexivity. }
      constructor.
      * cbn [fst snd]. split; [reflexivity|]. left.
        exists (length (heap w)), text.
        split; [reflexivity|]. split; [lia|]. split; [exact Hstat|].
        split; [exact Htext|].
        rewrite Hheap, Hheap1, <- app_assoc.
        rewrite lookup_app_r by lia. now rewrite Nat.sub_diag.
      * eapply Forall2_impl; [exact Hall|].
        intros f r (Hf & Hcase). split; [exact Hf|].
        destruct Hcase as [(l & t & Hr & Hl & Hs & Ht & Hlook)|Hdir]; [left | now right].
        exists l, t. split; [exact Hr|]. split.
        { rewrite Hheap1, length_app in Hl. cbn [length] in Hl. lia. }
        now repeat split.
Qed.

Lemma fold_left_pointwise {A B} (f g : A -> B -> A) (l : list B) (a : A) :
  (forall x y, f x y = g x y) -> fold_left f l a = fold_left g l a.
Proof.
  intros Hfg. revert a. induction l as [|y l IH]; intros a; [reflexivity|].
  cbn [fold_left]. now rewrite Hfg, IH.
Qed.

(** X13. Every value of the mapping the two-level Content Resolver returns
    comes from an entry of the directory that the exclusion does not match:
    for a file it is a Document object made during this call, without
    children yet, of what [read] makes of the text of the file, under the
    stem of the name; for a directory it is the path of the directory
    itself, under the key made of that path. *)
Theorem resolve000_values (sep : string) (options : Options)
    (md_render toUpperCase : string -> string) (location : Path) (w w' : World)
    (mapping : Mapping) (k : string) (v : Val) :
  resolve000 sep options md_render toUpperCase location w = (Ok mapping, w') ->
  FS.assoc k mapping = Some v ->
  exists file,
    exclude options [file] = false /\
    ((exists l text,
        v = VObj l /\ length (heap w) <= l /\
        k = Path.stem_of_name ".md" file /\
        FS.stat (fs w) (location ++ [file]) = Ok false /\
        FS.readFile (fs w) (location ++ [file]) = Ok text /\
        heap w' !! l
        = Some (mkObj (read_document md_render toUpperCase (location ++ [file]) text) None))
     \/ (v = VDir (location ++ [file]) /\
         k = dir_key (Path.show sep (directory options))
                     (Path.show sep (location ++ [file])) /\
         FS.stat (fs w) (location ++ [file]) = Ok true)).
Proof.
  intros H Hk. unfold resolve000 in H.
  apply bind_Ok in H as (files & w1 & Hfiles & H).
  apply bind_Ok in H as (u & w2 & Hinfo & H).
  apply bind_Ok in H as (results & w3 & Hresults & H).
  injection H as <- <-.
  unfold listing, bind, with_fs, ret in Hfiles.
  destruct (FS.readdir (fs w) location) as [names|]; [|discriminate].
  injection Hfiles as <- <-.
  unfold info, emit_event in Hinfo. injection Hinfo as _ <-.
  apply read000_all in Hresults as (_ & _ & Hall). cbn [fs heap logged] in Hall.
  set (key := fun r : string * Val =>
                match snd r with
                | VObj _ => Path.stem_of_name ".md" (fst r)
                | VDir p => dir_key (Path.show sep (directory options)) (Path.show sep p)
                end).
  rewrite (fold_left_pointwise _ (fun m r => Object.set (key r) (snd r) m)) in Hk.
  2:{ intros m r. unfold key. now destruct (snd r). }
  apply assoc_fold_set in Hk as [Hk|(r & Hin & Hkey & Hval)]; [discriminate|].
  unfold key in Hkey.
  apply List.filter_In in Hin as [Hin _].
  destruct (Forall2_in_r _ _ _ _ Hall Hin) as (file & Hfile & Hfst & Hcase).
  apply List.filter_In in Hfile as [_ Hex]. apply negb_true_iff in Hex.
  exists file. split; [exact Hex|].
  destruct Hcase as [(l & text & Hr & Hl & Hs & Ht & Hlook)|[Hr Hs]];
    rewrite Hr, ?Hfst in Hkey; [left | right].
  - exists l, text. split; [congruence|]. now repeat split.
  - split; [congruence|]. now split.
Qed.

Lemma resolve000_values_witness :
  exists file,
    exclude Sample.options [file] = false /\
    ((exists l text,
        VDir ["docs"; "guide"; "pages"; "img"] = VObj l /\ 0 <= l /\
        "/guide/pages/img" = Path.stem_of_name ".md" file /\
        FS.stat Sample.site_with_assets (["docs"; "guide"; "pages"] ++ [file]) = Ok false /\
        FS.readFile Sample.site_with_assets (["docs"; "guide"; "pages"] ++ [file]) = Ok text /\
        heap (snd (resolve000 "/" Sample.options Sample.render Sample.upper
            ["docs"; "guide"; "pages"]
                              (Sample.world Sample.site_with_assets))) !! l
        = Some (mkObj (read_document Sample.render Sample.upper
            (["docs"; "guide"; "pages"] ++ [file])
                                     text) None))
     \/ (VDir ["docs"; "guide"; "pages"; "img"] = VDir (["docs"; "guide"; "pages"] ++ [file]) /\
         "/guide/pages/img"
         = dir_key (Path.show "/" (directory Sample.options))
                   (Path.show "/" (["docs"; "guide"; "pages"] ++ [file])) /\
         FS.stat Sample.site_with_assets (["docs"; "guide"; "pages"] ++ [file]) = Ok true)).
Proof.
  eapply (resolve000_values "/" Sample.options Sample.render Sample.upper
      ["docs"; "guide"; "pages"]
            (Sample.world Sample.site_with_assets)).
  - vm_compute. reflexivity.
  - reflexivity.
Defined.

(** ** Content files beside the manifest *)

Lemma traverse_files (options : Options) (location : Path) (files : list string)
    (action : Path -> M (option Mapping)) (w : World) :
  Forall (fun file => exclude options [file] = false /\
                      FS.stat (fs w) (location ++ [file]) = Ok false) files ->
  promise_all (map (fun file => do r <- traverse options (location ++ [file]) action;
                                ret (file, r)) files) w
  = (Ok (map (fun file => (file, None)) files), w).
Proof.
  induction 1 as [|file files [Hex Hstat] _ IH]; cbn [map promise_all]; [reflexivity|].
  unfold bind at 1. unfold traverse at 1.
  replace (exclude options (location ++ [file])) with false.
  2:{ unfold exclude, Path.basename in *. rewrite List.last_last.
      cbn [List.last] in Hex. now rewrite Hex. }
  unfold bind at 1. unfold with_fs at 1. rewrite Hstat. cbn [negb].
  unfold ret at 1 2. now rewrite IH.
Qed.

Lemma somes_nones {A B} (l : list A) :
  somes (map snd (map (fun x => (x, @None B)) l)) = [].
Proof. induction l as [|x l IH]; [reflexivity | exact IH]. Qed.

Lemma remove_first_subset (name : string) (files files' : list string) :
  remove_first name files = Some files' -> forall f, In f files' -> In f files.
Proof.
  revert files'. induction files as [|x files IH]; intros files'; cbn [remove_first];
    [discriminate|].
  destruct (String.eqb x name).
  - intros [= <-] f Hf. now right.
  - destruct (remove_first name files) as [rest|]; [|discriminate].
    intros [= <-] f [<-|Hf]; [now left | right; eauto].
Qed.

(** X14. Content files that lie beside the manifest are ignored: when a
    module directory holds a structure.json that parses and, apart from what
    the exclusion matches, nothing but files, the Module Explorer reads the
    manifest only and returns the empty mapping with the parsed structure,
    whatever the Content Resolver is. *)
Theorem explore_ignores_files (options : Options)
    (JSON_parse : string -> option json) (resolve : Path -> M Mapping)
    (location : Path) (w : World) (names : list string) (text : string)
    (structure : json) :
  FS.readdir (fs w) location = Ok names ->
  In "structure.json" names ->
  exclude_re options "structure.json" = false ->
  FS.readFile (fs w) (location ++ ["structure.json"]) = Ok text ->
  JSON_parse text = Some structure ->
  (forall file, In file names -> exclude_re options file = false ->
                FS.stat (fs w) (location ++ [file]) = Ok false) ->
  exists n,
    explore options JSON_parse resolve location w
    = (Ok (Some ([], structure)), logged (Info (MTraversingModule location n)) w).
Proof.
  intros Hnames Hin Hex Htext Hparse Hfiles.
  unfold explore, listing. unfold bind at 1 2. unfold with_fs at 1. rewrite Hnames.
  unfold ret at 1.
  destruct (remove_first_In "structure.json"
              (List.filter (fun file => negb (exclude options [file])) names))
    as [files Hfiles'].
  { apply List.filter_In. split; [exact Hin|].
    unfold exclude, Path.basename. cbn [List.last]. now rewrite Hex. }
  rewrite Hfiles'.
  unfold bind at 1. unfold with_fs at 1. rewrite Htext, Hparse.
  unfold bind at 1. unfold ret at 1.
  unfold bind at 1. unfold info, emit_event.
  unfold bind at 1. rewrite traverse_files.
  - exists (length files). unfold ret. now rewrite somes_nones.
  - apply List.Forall_forall. intros file Hfile.
    apply (remove_first_subset _ _ _ Hfiles') in Hfile.
    apply List.filter_In in Hfile as [Hfile Hnot]. apply negb_true_iff in Hnot.
    split; [exact Hnot|]. cbn [fs logged]. apply Hfiles; [exact Hfile|].
    unfold exclude, Path.basename in Hnot. now cbn [List.last] in Hnot.
Qed.

Lemma explore_ignores_files_witness :
  exists n,
    explore Sample.options Sample.parse (resolve001 "/" Sample.options Sample.render Sample.upper)
            ["docs"; "guide"] (Sample.world Sample.flat_site)
    = (Ok (Some ([], Sample.structure)),
       logged (Info (MTraversingModule ["docs"; "guide"] n))
              (Sample.world Sample.flat_site)).
Proof.
  apply (explore_ignores_files Sample.options Sample.parse _ ["docs"; "guide"]
           (Sample.world Sample.flat_site)
           ["structure.json"; "intro.md"; "advanced.md"; "tips.md"] Sample.manifest).
  - reflexivity.
  - now left.
  - reflexivity.
  - reflexivity.
  - reflexivity.
  - intros file [<-|[<-|[<-|[<-|[]]]]] _; reflexivity.
Defined.
